(** * backprop.py: a multi-layer perceptron trained by conjugate gradients

    A shallow embedding of [src/backprop.py] (class [NeuralNet], Python 2 on
    numpy and gnumpy).  Python exceptions are an error monad, numpy and
    gnumpy arrays are a shape together with a row-major buffer, Python's
    floats are an abstract numeric structure with IEEE binary64 and the real
    numbers as its instances, and the loops of the source are recursive
    functions whose local variables keep the names they have in the source.
    A gnumpy array stores its entries in single precision: [gp.garray]
    rounds every entry it is given. *)

From Stdlib Require Import String.
From Stdlib Require Import List ZArith Lia Bool Arith.
From Stdlib Require Import Floats Uint63.
From Stdlib Require Import Reals.
Import ListNotations.

Set Implicit Arguments.

(** ** Python exceptions *)

Inductive exn : Type :=
| IndexError
| AttributeError
| ValueError
| TypeError
| ZeroDivisionError.

Inductive result (A : Type) : Type :=
| Ok (a : A)
| Raise (e : exn).

Arguments Ok {A} a.
Arguments Raise {A} e.

Definition bind {A B : Type} (c : result A) (k : A -> result B) : result B :=
  match c with
  | Ok a => k a
  | Raise e => Raise e
  end.

Declare Scope py_scope.
Delimit Scope py_scope with py.
Notation "x <- c ;; k" := (bind c (fun x => k))
  (at level 61, c at next level, right associativity) : py_scope.
Notation "' pat <- c ;; k" := (bind c (fun x => match x with pat => k end))
  (at level 61, pat pattern, c at next level, right associativity) : py_scope.
Open Scope py_scope.

(** Inverts [bind c k = Ok b] in hypothesis [H]. *)
Ltac bind_inv H :=
  let x := fresh "x" in
  let E := fresh "E" in
  match type of H with
  | bind ?c _ = Ok _ =>
      destruct c as [x | ?] eqn:E; [cbn [bind] in H | discriminate H]
  end.

(** [try: c except e: h] *)
Definition try_except {A : Type} (c : result A) (e : exn) (h : result A) : result A :=
  match c with
  | Ok a => Ok a
  | Raise e' =>
      match e, e' with
      | IndexError, IndexError | AttributeError, AttributeError
      | ValueError, ValueError | TypeError, TypeError
      | ZeroDivisionError, ZeroDivisionError => h
      | _, _ => Raise e'
      end
  end.

Definition returns {A : Type} (c : result A) : Prop := exists a, c = Ok a.
Definition raises {A : Type} (c : result A) : Prop := exists e, c = Raise e.

(** ** Numbers

    The source computes on numpy [float64] values.  The embedding is generic
    in the arithmetic: a carrier with the operations and tests the source
    uses, and no law assumed of them. *)

Record Numeric : Type := MkNumeric {
  F : Type;
  of_Z : Z -> F;               (* an integer literal, or an [int] mixed into float arithmetic *)
  fadd : F -> F -> F;
  fsub : F -> F -> F;
  fmul : F -> F -> F;
  fdiv : F -> F -> F;
  fneg : F -> F;
  fsqrt : F -> F;              (* np.sqrt *)
  flt : F -> F -> bool;        (* a < b *)
  fisnan : F -> bool;          (* np.isnan *)
  fisinf : F -> bool;          (* np.isinf *)
  fisreal : F -> bool;         (* np.isreal *)
  realmin : F;                 (* the literal 2.2251e-308 *)
  fsingle : F -> F             (* the value as a gnumpy array stores it: as a float32 *)
}.

(** The transcendental functions of the network code. *)
Record Activation (N : Numeric) : Type := MkActivation {
  logistic : F N -> F N;       (* garray.logistic: 1/(1+exp(-x)) *)
  log : F N -> F N             (* np.log *)
}.

Declare Scope num_scope.
Delimit Scope num_scope with num.
Notation "a + b" := (fadd _ a b) : num_scope.
Notation "a - b" := (fsub _ a b) : num_scope.
Notation "a * b" := (fmul _ a b) : num_scope.
Notation "a / b" := (fdiv _ a b) : num_scope.
Notation "- a" := (fneg _ a) : num_scope.
Notation "a <? b" := (flt _ a b) : num_scope.
Notation "a >? b" := (flt _ b a) : num_scope.

(** IEEE binary64, the arithmetic of Python's [float] and numpy's [float64].
    [float_of_Z] is exact up to 2^53 in absolute value, which covers the
    literals of the source and any number of samples. *)
Definition float_of_Z (z : Z) : float :=
  match z with
  | Z0 => PrimFloat.zero
  | Zpos _ => PrimFloat.of_uint63 (Uint63.of_Z z)
  | Zneg p => PrimFloat.opp (PrimFloat.of_uint63 (Uint63.of_Z (Zpos p)))
  end.

(** What converting a binary64 value to numpy's [float32] leaves of it:
    the nearest value with 24 bits of precision, ties to even, and
    infinity beyond the range of single precision.  [float32_ieee] says so
    with the rounding of the Standard Library's [SpecFloat]. *)
Definition float32_ieee (x : float) : float :=
  match Prim2SF x with
  | S754_finite s m e => SF2Prim (SpecFloat.binary_round 24 128 s m e)
  | _ => x
  end.

(** The same rounding by binary64 operations alone, which is the form that
    computes inside larger terms: adding and subtracting [1.5 * 2^(52+k)]
    rounds a small enough number to the nearest multiple of [2^k], ties to
    even.  Below [2^-126] the values of single precision are the multiples
    of [2^-149]; above, they are the mantissas in [0.5, 1) that are
    multiples of [2^-24], times a power of two. *)
Definition float32_of (x : float) : float :=
  if PrimFloat.is_nan x then x
  else
    let a := PrimFloat.abs x in
    let r :=
      if PrimFloat.ltb a 0x1p-126%float
      then PrimFloat.sub (PrimFloat.add a 0x1.8p-97%float) 0x1.8p-97%float
      else
        let (m, e) := PrimFloat.frshiftexp a in
        PrimFloat.ldshiftexp
          (PrimFloat.sub (PrimFloat.add m 0x1.8p28%float) 0x1.8p28%float) e in
    let r := if PrimFloat.leb 0x1p128%float r then infinity else r in
    if get_sign x then PrimFloat.opp r else r.

(** Numbers across the range of binary64: ties between two values of single
    precision, the ends of its range and of its subnormal numbers, zeros,
    infinities and NaN. *)
Definition float32_samples : list float :=
  [0x1.999999999999ap-4; (-0x1.999999999999ap-2); 0x1.dee7a4ad4b81fp-167;
   (-0x1.dee7a4ad4b81fp-167); 0x1.11b0ec57e649ap+166; (-0x1.11b0ec57e649ap+166);
   0x1.0000000000000p-1; 0x1.8000000000000p+1; 0x1.0000010000000p+24;
   0x1.0000030000000p+24; 0x1.fffffe0000000p+23; 0x1.6d601ad376ab9p-150;
   0x1.ff868bf4d956ap-151; 0x1.7fa4e8f7a300fp-149; 0x1.fffffef000000p+127;
   0x1.ffffff0000000p+127; 0x1.fffffe0000001p+127; 0x1.fffffe0000000p+127;
   0x1.0000000000000p-126; 0x1.fffffffffffffp-127; 0x1.0000000000000p-149;
   0x1.0000000000000p-150; 0x1.0000000000001p-150; 0x1.8000000000000p-149;
   0x1.0000010000000p+0; 0x1.0000030000000p+0; 0x1.0000010000001p+0;
   0x1.fffffffffffffp+0; 0x1.ffffff0000000p+0; 0x1.1ccf385ebc8a0p+1023;
   0x0.0000000000001p-1022; 0x1.e756910000001p+25; (-0x1.5f52290000000p+127);
   (-0x1.1571570400000p+121); 0x1.07ae2d0000000p+122; (-0x1.0f66fd0400000p+123);
   (-0x1.77a066fffffffp+123); 0x1.8e6b5f0400000p+12; 0x1.93fd0b0000000p-128;
   (-0x1.3731f6fffffffp+19); (-0x1.6b60150000000p-148); (-0x1.2565490000001p+15);
   0x1.07c1ad0400000p-25; 0; (-0); infinity; neg_infinity; nan]%float.

Definition float64 : Numeric := {|
  F := float;
  of_Z := float_of_Z;
  fadd := PrimFloat.add;
  fsub := PrimFloat.sub;
  fmul := PrimFloat.mul;
  fdiv := PrimFloat.div;
  fneg := PrimFloat.opp;
  fsqrt := PrimFloat.sqrt;
  flt := PrimFloat.ltb;
  fisnan := PrimFloat.is_nan;
  fisinf := PrimFloat.is_infinity;
  fisreal := fun _ => true;
  realmin := 0x1.0000c51bd5669p-1022%float;
  fsingle := float32_of
|}.

(** The real numbers, the arithmetic the formulas of the method are stated
    in: no NaN, no infinity, the exact logistic function, and arrays that
    store every number as it is. *)
Definition Rltb (a b : R) : bool := if Rlt_dec a b then true else false.

Definition reals : Numeric := {|
  F := R;
  of_Z := IZR;
  fadd := Rplus;
  fsub := Rminus;
  fmul := Rmult;
  fdiv := Rdiv;
  fneg := Ropp;
  fsqrt := sqrt;
  flt := Rltb;
  fisnan := fun _ => false;
  fisinf := fun _ => false;
  fisreal := fun _ => true;
  realmin := (22251 / 10 ^ 312)%R;
  fsingle := fun x => x
|}.

Definition sigmoid : Activation reals :=
  @MkActivation reals (fun x : R => (1 / (1 + exp (- x)))%R) Rpower.ln.

(** ** Python builtins *)

(** [range(start, stop, step)] for a positive step. *)
Definition py_range (start stop step : nat) : list nat :=
  map (fun k => start + k * step) (seq 0 ((stop - start + (step - 1)) / step)).

(** A [for] loop whose body may raise: the state is threaded through. *)
Fixpoint for_each {S A : Type} (l : list A) (body : A -> S -> result S) (init : S)
  : result S :=
  match l with
  | [] => Ok init
  | x :: l' => st <- body x init ;; for_each l' body st
  end.

(** [range(n)] *)
Definition range (n : nat) : list nat := seq 0 n.

(** [l[s:e]] for 0 <= s, e: out-of-range bounds are clipped. *)
Definition slice {A : Type} (l : list A) (s e : nat) : list A :=
  firstn (e - s) (skipn s l).

Section Builtins.
Context {N : Numeric}.
Local Open Scope num_scope.

(** [min(a, b)] keeps [a] unless [b < a]; [max(a, b)] keeps [a] unless [b > a]. *)
Definition py_min (a b : F N) : F N := if b <? a then b else a.
Definition py_max (a b : F N) : F N := if b >? a then b else a.
End Builtins.

(** ** One-dimensional numpy arrays *)

Definition vec (N : Numeric) : Type := list (F N).


Section Vectors.
Context {N : Numeric}.
Local Open Scope num_scope.

Fixpoint map2 (op : F N -> F N -> F N) (a b : vec N) : vec N :=
  match a, b with
  | x :: a', y :: b' => op x y :: map2 op a' b'
  | _, _ => []
  end.

(** [a op b] on two 1-d arrays: equal lengths, or a length-1 operand is
    broadcast; anything else is a ValueError. *)
Definition vbinop (op : F N -> F N -> F N) (a b : vec N) : result (vec N) :=
  if length a =? length b then Ok (map2 op a b)
  else match a, b with
       | [x], _ => Ok (map (op x) b)
       | _, [y] => Ok (map (fun x => op x y) a)
       | _, _ => Raise ValueError
       end.

Definition vadd : vec N -> vec N -> result (vec N) := vbinop (fadd N).
Definition vsub : vec N -> vec N -> result (vec N) := vbinop (fsub N).

(** [a += b]: the result must have the shape of [a]. *)
Definition viadd (a b : vec N) : result (vec N) :=
  if length a =? length b then Ok (map2 (fadd N) a b)
  else match b with
       | [y] => Ok (map (fun x => x + y) a)
       | _ => Raise ValueError
       end.

(** [-a], [c * a] and [c / a] for a scalar [c]. *)
Definition vneg (a : vec N) : vec N := map (fneg N) a.
Definition vscale (c : F N) (a : vec N) : vec N := map (fun x => c * x) a.
Definition sdivv (c : F N) (a : vec N) : vec N := map (fun x => c / x) a.

Definition fsum (l : list (F N)) : F N := fold_left (fadd N) l (of_Z N 0).

(** [np.dot(a.T, b)] on 1-d arrays ([.T] is the identity there). *)
Definition vdot (a b : vec N) : result (F N) :=
  if length a =? length b then Ok (fsum (map2 (fmul N) a b))
  else Raise ValueError.
End Vectors.

(** ** [NeuralNet.minimize] *)

(** [fun(X, *args)] with [args] fixed: the cost and its gradient, or an
    exception.  The cost is a numpy scalar, as [np.sum] gives it, or a plain
    Python [float], which has no method [copy]: [numpy_cost x] tells which of
    the two [fun] returns at [x]. *)
Record objective (N : Numeric) : Type := MkObjective {
  call :> vec N -> result (F N * vec N);
  numpy_cost : vec N -> bool
}.

Arguments MkObjective {N} call numpy_cost.
Arguments call {N} o _.
Arguments numpy_cost {N} o _.

Section Minimize.
Context {N : Numeric}.
Local Open Scope num_scope.
Local Open Scope Z_scope.

Variable fun_ : objective N.
Variable length_ : Z.

Definition lit (n d : Z) : F N := (of_Z N n / of_Z N d)%num.

Definition RHO : F N := lit 1 100.     (* 0.01 *)
Definition SIG : F N := lit 1 2.       (* 0.5 *)
Definition INT : F N := lit 1 10.      (* 0.1 *)
Definition EXT : F N := of_Z N 3.      (* 3.0 *)
Definition MAX : Z := 20.
Definition RATIO : F N := of_Z N 100.
Definition red : F N := of_Z N 1.

(** The variables a line search updates.  Two fields are not variables of
    the source: [f2_numpy] tells whether [f2] is a numpy scalar, and [evals]
    records the points [fun] was called at, latest last. *)
Record search : Type := MkSearch {
  ls_X : vec N;
  ls_z1 : F N;
  ls_f2 : F N;
  ls_f2_numpy : bool;
  ls_df2 : vec N;
  ls_d2 : F N;
  ls_f3 : F N;
  ls_d3 : F N;
  ls_z3 : F N;
  ls_limit : F N;
  ls_i : Z;
  ls_evals : list (vec N)
}.

(** The variables of the outer loop; [f1_numpy] (not in the source) tells
    whether [f1] is a numpy scalar, and [searches] (not in the source) counts
    the line searches begun. *)
Record cg : Type := MkCg {
  cg_X : vec N;
  cg_f1 : F N;
  cg_f1_numpy : bool;
  cg_df1 : vec N;
  cg_s : vec N;
  cg_d1 : F N;
  cg_z1 : F N;
  cg_i : Z;
  cg_ls_failed : Z;
  cg_fX : list (F N);
  cg_evals : list (vec N);
  cg_searches : nat
}.

Section LineSearch.
(** Fixed during one line search. *)
Variables (f1 d1 : F N) (s : vec N).

(** [(f2 > f1+z1*RHO*d1) or (d2 > -SIG*d1)] *)
Definition not_acceptable (st : search) : bool :=
  (ls_f2 st >? f1 + ls_z1 st * RHO * d1)%num || (ls_d2 st >? (- SIG) * d1)%num.

(** [A = 6.0*(f2-f3)/z3+3.0*(d2+d3)] and [B = 3.0*(f3-f2)-z3*(d3+2.0*d2)] *)
Definition cubic_A (st : search) : F N :=
  (of_Z N 6 * (ls_f2 st - ls_f3 st) / ls_z3 st + of_Z N 3 * (ls_d2 st + ls_d3 st))%num.
Definition cubic_B (st : search) : F N :=
  (of_Z N 3 * (ls_f3 st - ls_f2 st)
   - ls_z3 st * (ls_d3 st + of_Z N 2 * ls_d2 st))%num.

(** [X += z2*s; f2, df2 = fun(X, *args); if (length<0): i += 1;
    d2 = np.dot(df2.T, s)] with [z1 += z2] before it. *)
Definition advance (st : search) (z2 f3 d3 z3 limit : F N) : result search :=
  X <- viadd (ls_X st) (vscale z2 s) ;;
  ' (f2, df2) <- fun_ X ;;
  d2 <- vdot df2 s ;;
  Ok {| ls_X := X; ls_z1 := (ls_z1 st + z2)%num;
        ls_f2 := f2; ls_f2_numpy := numpy_cost fun_ X; ls_df2 := df2; ls_d2 := d2;
        ls_f3 := f3; ls_d3 := d3; ls_z3 := z3; ls_limit := limit;
        ls_i := if length_ <? 0 then ls_i st + 1 else ls_i st;
        ls_evals := ls_evals st ++ [X] |}.

(** The body of the inner [while]: tighten the bracket. *)
Definition interpolate (st : search) : result search :=
  let limit := ls_z1 st in
  let z3 := ls_z3 st in
  let z2 :=
    if (ls_f2 st >? f1)%num
    then (z3 - (lit 1 2 * ls_d3 st * z3 * z3) / (ls_d3 st * z3 + ls_f2 st - ls_f3 st))%num
    else let A := cubic_A st in
         let B := cubic_B st in
         ((fsqrt N (B * B - A * ls_d2 st * z3 * z3) - B) / A)%num in
  let z2 := if fisnan N z2 || fisinf N z2 then (z3 / of_Z N 2)%num else z2 in
  let z2 := py_max (py_min z2 (INT * z3)%num) ((of_Z N 1 - INT) * z3)%num in
  advance st z2 (ls_f3 st) (ls_d3 st) (z3 - z2)%num limit.

(** The tail of the [while True] body: cubic extrapolation. *)
Definition extrapolate (st : search) : result search :=
  let A := cubic_A st in
  let B := cubic_B st in
  let z1 := ls_z1 st in
  let z3 := ls_z3 st in
  let limit := ls_limit st in
  let half := lit 1 2 in
  let z2 := ((- ls_d2 st) * z3 * z3 / (B + fsqrt N (B * B - A * ls_d2 st * z3 * z3)))%num in
  let z2 :=
    if negb (fisreal N z2) || fisnan N z2 || fisinf N z2 || (z2 <? of_Z N 0)%num then
      if (limit <? - half)%num then (z1 * (EXT - of_Z N 1))%num
      else ((limit - z1) / of_Z N 2)%num
    else if (limit >? - half)%num && (z2 + z1 >? limit)%num then
      ((limit - z1) / of_Z N 2)%num
    else if (limit <? - half)%num && (z2 + z1 >? z1 * EXT)%num then
      (z1 * (EXT - of_Z N 1))%num
    else if (z2 <? (- z3) * INT)%num then
      ((- z3) * INT)%num
    else if (limit >? - half)%num && (z2 <? (limit - z1) * (of_Z N 1 - INT))%num then
      ((limit - z1) * (of_Z N 1 - INT))%num
    else z2 in
  advance st z2 (ls_f2 st) (ls_d3 st) (- z2)%num limit.

(** The [while True] loop, by recursion on the evaluations [M] left:
    the flag returned is [success == 1]. *)
Fixpoint line_search (M : nat) (st : search) : result (bool * search) :=
  match M with
  | O =>
      if not_acceptable st then Ok (false, st)
      else if (ls_d2 st >? SIG * d1)%num then Ok (true, st)
      else Ok (false, st)
  | S M' =>
      if not_acceptable st then
        st' <- interpolate st ;; line_search M' st'
      else if (ls_d2 st >? SIG * d1)%num then Ok (true, st)
      else st' <- extrapolate st ;; line_search M' st'
  end.
End LineSearch.

(** The Polack-Ribiere line of the source:
    [s = (np.dot(df2.T,df2)-np.dot(df1.T,df2)) / np.dot(np.dot(df1.T,df1),s) - df2]. *)
Definition new_direction (df1 df2 s : vec N) : result (vec N) :=
  g22 <- vdot df2 df2 ;;
  g12 <- vdot df1 df2 ;;
  g11 <- vdot df1 df1 ;;
  vsub (sdivv (g22 - g12)%num (vscale g11 s)) df2.

(** The [if success == 1:] branch. *)
Definition on_success (st : cg) (i : Z) (ls : search) : result cg :=
  let f1 := ls_f2 ls in
  s <- new_direction (cg_df1 st) (ls_df2 ls) (cg_s st) ;;
  let df1 := ls_df2 ls in
  ' (s, d2) <- (if (ls_d2 ls >? of_Z N 0)%num
                then let s := vneg df1 in
                     d2 <- vdot (vneg s) s ;; Ok (s, d2)
                else Ok (s, ls_d2 ls)) ;;
  Ok {| cg_X := ls_X ls; cg_f1 := f1; cg_f1_numpy := ls_f2_numpy ls;
        cg_df1 := df1; cg_s := s;
        cg_d1 := d2;
        cg_z1 := (ls_z1 ls * py_min RATIO (cg_d1 st / (d2 - realmin N)))%num;
        cg_i := i; cg_ls_failed := 0;
        cg_fX := cg_fX st ++ [f1];
        cg_evals := ls_evals ls;
        cg_searches := S (cg_searches st) |}.

(** The [else:] branch; the flag is true when the loop is left by [break].
    [X0], [f0] and [df0] are the copies taken at the start of the pass: the
    fields of [st], and [f0] is a numpy scalar, or [f1.copy()] had raised. *)
Definition on_failure (st : cg) (i : Z) (ls : search) : bool * cg :=
  let restored :=
    {| cg_X := cg_X st; cg_f1 := cg_f1 st; cg_f1_numpy := true;
       cg_df1 := cg_df1 st; cg_s := cg_s st;
       cg_d1 := cg_d1 st; cg_z1 := ls_z1 ls; cg_i := i;
       cg_ls_failed := cg_ls_failed st; cg_fX := cg_fX st;
       cg_evals := ls_evals ls; cg_searches := S (cg_searches st) |} in
  if (cg_ls_failed st =? 1) || (i >? Z.abs length_) then (true, restored)
  else
    let df1 := ls_df2 ls in
    (false,
     {| cg_X := cg_X st; cg_f1 := cg_f1 st; cg_f1_numpy := true;
        cg_df1 := df1; cg_s := vneg df1;
        cg_d1 := cg_d1 st;
        cg_z1 := (of_Z N 1 / (of_Z N 1 - cg_d1 st))%num;
        cg_i := i; cg_ls_failed := 1; cg_fX := cg_fX st;
        cg_evals := ls_evals ls; cg_searches := S (cg_searches st) |}).

(** [f1.copy()] *)
Definition copy_cost (st : cg) : result (F N) :=
  if cg_f1_numpy st then Ok (cg_f1 st) else Raise AttributeError.

(** One pass of [while i < np.abs(length)].  The backup copies [X0], [f0]
    and [df0] are the fields [cg_X], [cg_f1] and [cg_df1] of [st], which
    stay as they are during the pass; the array methods [X.copy()] and
    [df1.copy()] do not fail. *)
Definition iteration (st : cg) : result (bool * cg) :=
  let i := if length_ >? 0 then cg_i st + 1 else cg_i st in
  _ <- copy_cost st ;;
  X <- vadd (cg_X st) (vscale (cg_z1 st) (cg_s st)) ;;
  ' (f2, df2) <- fun_ X ;;
  let i := if length_ <? 0 then i + 1 else i in
  d2 <- vdot df2 (cg_s st) ;;
  let M := if length_ >? 0 then MAX else Z.min MAX (- length_ - i) in
  ' (success, ls) <-
    line_search (cg_f1 st) (cg_d1 st) (cg_s st) (Z.to_nat M)
      {| ls_X := X; ls_z1 := cg_z1 st; ls_f2 := f2; ls_f2_numpy := numpy_cost fun_ X;
         ls_df2 := df2; ls_d2 := d2;
         ls_f3 := cg_f1 st; ls_d3 := cg_d1 st; ls_z3 := (- cg_z1 st)%num;
         ls_limit := of_Z N (-1); ls_i := i;
         ls_evals := cg_evals st ++ [X] |} ;;
  if success : bool then
    st' <- on_success st (ls_i ls) ls ;; Ok (false, st')
  else Ok (on_failure st (ls_i ls) ls).

Fixpoint loop (fuel : nat) (st : cg) : result cg :=
  match fuel with
  | O => Ok st
  | S fuel' =>
      if cg_i st <? Z.abs length_ then
        ' (stop, st') <- iteration st ;;
        if stop : bool then Ok st' else loop fuel' st'
      else Ok st
  end.

(** The state [minimize] starts its loop in. *)
Definition initial (X : vec N) : result cg :=
  ' (f1, df1) <- fun_ X ;;
  let i := if length_ <? 0 then 1 else 0 in
  let s := vneg df1 in
  d1 <- vdot (vneg s) s ;;
  Ok {| cg_X := X; cg_f1 := f1; cg_f1_numpy := numpy_cost fun_ X;
        cg_df1 := df1; cg_s := s; cg_d1 := d1;
        cg_z1 := (red / (of_Z N 1 - d1))%num;
        cg_i := i; cg_ls_failed := 0; cg_fX := [];
        cg_evals := [X]; cg_searches := 0 |}.

(** The whole run, with the final state.  Every pass of the loop adds at
    least one to [i] ([loop_fuel_enough]), so [|length|] passes suffice. *)
Definition minimize_run (X : vec N) : result cg :=
  st <- initial X ;; loop (Z.to_nat (Z.abs length_)) st.

(** [return X, fX, i] *)
Definition minimize (X : vec N) : result (vec N * list (F N) * Z) :=
  st <- minimize_run X ;; Ok (cg_X st, cg_fX st, cg_i st).

(** *** What the theorems about [minimize] speak of *)

(** The objective returns, with a gradient as long as its argument. *)
Definition shape_preserving : Prop :=
  forall x, exists f g, fun_ x = Ok (f, g) /\ length g = length x.

(** The cost the objective returns is a numpy scalar everywhere, as the
    cost of [backprop_gradient] is. *)
Definition numpy_valued : Prop := forall x, numpy_cost fun_ x = true.

(** The arrays of a line search, and of the outer loop, have one length,
    and the cost at hand is a numpy scalar. *)
Definition search_shaped (s : vec N) (st : search) : Prop :=
  length (ls_X st) = length s /\ length (ls_df2 st) = length s /\
  ls_f2_numpy st = true.
Definition well_shaped (st : cg) : Prop :=
  length (cg_X st) = length (cg_s st) /\ length (cg_df1 st) = length (cg_s st) /\
  cg_f1_numpy st = true.

(** What the counter [i] counts: line searches when [length > 0], calls of
    the objective when [length < 0]; never more than [|length|]. *)
Definition counted (st : cg) : Prop :=
  (0 < length_ -> cg_i st = Z.of_nat (cg_searches st) /\ cg_i st <= length_) /\
  (length_ < 0 -> cg_i st = Z.of_nat (length (cg_evals st)) /\ cg_i st <= - length_).

(** The direction update as the Polack-Ribiere formula states it:
    [s = ((g.g - g_prev.g) / (g_prev.g_prev)) * s - g]. *)
Definition polack_ribiere (df1 df2 s : vec N) : result (vec N) :=
  g22 <- vdot df2 df2 ;;
  g12 <- vdot df1 df2 ;;
  g11 <- vdot df1 df1 ;;
  vsub (vscale ((g22 - g12) / g11)%num s) df2.
End Minimize.

(** An objective whose values on the first line search are exact in
    binary64: [f(x) = sum_j (0.75 x_j^2 + 0.5 x_j)], with gradient
    [1.5 x + 0.5].  The cost is a sum by [np.sum]: a numpy scalar. *)
Definition bowl : objective float64 :=
  @MkObjective float64
    (fun x => Ok (fsum (N:=float64) (map (fun a => 0.75 * a * a + 0.5 * a)%float x),
                  map (fun a => 1.5 * a + 0.5)%float x))
    (fun _ => true).

Definition origin4 : vec float64 := [0; 0; 0; 0]%float.

(** ** numpy and gnumpy arrays

    An array is its shape and its row-major buffer; the source only builds
    arrays of one and two dimensions.  [Num] is a Python float, which is what
    indexing a one-dimensional array by an integer gives.  [gp.garray] and
    [as_numpy_array] move an array between host and device: the first
    rounds every entry to single precision, the second leaves the entries
    as they are.  The arithmetic on device arrays is the abstract one. *)

Inductive ndarray (N : Numeric) : Type :=
| Num (x : F N)
| Arr1 (xs : list (F N))
| Arr2 (h w : nat) (xs : list (F N)).

Arguments Num {N} x.
Arguments Arr1 {N} xs.
Arguments Arr2 {N} h w xs.

Section Arrays.
Context {N : Numeric}.
Local Open Scope num_scope.
Local Abbreviation array := (ndarray N).
Local Abbreviation zero := (of_Z N 0).
Local Abbreviation one := (of_Z N 1).

(** The buffer of a two-dimensional array has [h*w] entries. *)
Definition wf (a : array) : Prop :=
  match a with
  | Arr2 h w xs => length xs = (h * w)%nat
  | _ => True
  end.

(** [np.zeros((h, w))], [gp.ones((h, w))], [np.ones((n,))], [np.zeros_like(v)] *)
Definition zeros2 (h w : nat) : array := Arr2 h w (repeat zero (h * w)).
Definition ones2 (h w : nat) : array := Arr2 h w (repeat one (h * w)).
Definition ones1 (n : nat) : array := Arr1 (repeat one n).
Definition zeros_like (v : vec N) : vec N := repeat zero (length v).

(** [a.shape[0]], [a.shape[1]], [h, w = a.shape], [a.size], [len(a)] *)
Definition shape0 (a : array) : result nat :=
  match a with
  | Num _ => Raise AttributeError
  | Arr1 xs => Ok (length xs)
  | Arr2 h _ _ => Ok h
  end.
Definition shape1 (a : array) : result nat :=
  match a with
  | Num _ => Raise AttributeError
  | Arr1 _ => Raise IndexError
  | Arr2 _ w _ => Ok w
  end.
Definition shape2 (a : array) : result (nat * nat) :=
  match a with
  | Num _ => Raise AttributeError
  | Arr1 _ => Raise ValueError
  | Arr2 h w _ => Ok (h, w)
  end.
Definition size (a : array) : result nat :=
  match a with
  | Num _ => Raise AttributeError
  | Arr1 xs => Ok (length xs)
  | Arr2 h w _ => Ok (h * w)%nat
  end.
Definition len (a : array) : result nat :=
  match a with
  | Num _ => Raise TypeError
  | Arr1 xs => Ok (length xs)
  | Arr2 h _ _ => Ok h
  end.

(** The buffer, for the methods a float does not have. *)
Definition buffer (a : array) : result (list (F N)) :=
  match a with
  | Num _ => Raise AttributeError
  | Arr1 xs | Arr2 _ _ xs => Ok xs
  end.

(** [a.reshape((n,))] and [a.reshape((h, w))] *)
Definition reshape1 (a : array) (n : nat) : result array :=
  xs <- buffer a ;;
  if length xs =? n then Ok (Arr1 xs) else Raise ValueError.
Definition reshape2 (a : array) (h w : nat) : result array :=
  xs <- buffer a ;;
  if length xs =? h * w then Ok (Arr2 h w xs) else Raise ValueError.

(** Row [i] of a buffer of rows of width [w]; entry [(i, j)]. *)
Definition row (w : nat) (xs : list (F N)) (i : nat) : list (F N) :=
  slice xs (i * w) (i * w + w).
Definition entry (w : nat) (xs : list (F N)) (i j : nat) : F N :=
  nth (i * w + j) xs zero.
Definition col (h w : nat) (xs : list (F N)) (j : nat) : list (F N) :=
  map (fun i => entry w xs i j) (seq 0 h).

(** [a.T] *)
Definition transpose (a : array) : result array :=
  match a with
  | Num _ => Raise AttributeError
  | Arr1 xs => Ok (Arr1 xs)
  | Arr2 h w xs => Ok (Arr2 w h (flat_map (col h w xs) (seq 0 w)))
  end.

(** The product of an [h] by [k] and a [k] by [w] buffer. *)
Definition matmul (h k w : nat) (a b : list (F N)) : list (F N) :=
  flat_map (fun i => map (fun j => fsum (map2 (fmul N) (row k a i) (col k w b j)))
                         (seq 0 w))
           (seq 0 h).

(** [gp.dot(a, b)]: a one-dimensional operand is a row on the left and a
    column on the right. *)
Definition dot (a b : array) : result array :=
  match a, b with
  | Num x, Num y => Ok (Num (x * y))
  | Num x, Arr1 ys => Ok (Arr1 (map (fun y => x * y) ys))
  | Num x, Arr2 h w ys => Ok (Arr2 h w (map (fun y => x * y) ys))
  | Arr1 xs, Num y => Ok (Arr1 (map (fun x => x * y) xs))
  | Arr2 h w xs, Num y => Ok (Arr2 h w (map (fun x => x * y) xs))
  | Arr1 xs, Arr1 ys =>
      if length xs =? length ys then Ok (Num (fsum (map2 (fmul N) xs ys)))
      else Raise ValueError
  | Arr2 h k xs, Arr1 ys =>
      if k =? length ys then Ok (Arr1 (matmul h k 1 xs ys)) else Raise ValueError
  | Arr1 xs, Arr2 k w ys =>
      if length xs =? k then Ok (Arr1 (matmul 1 k w xs ys)) else Raise ValueError
  | Arr2 h k xs, Arr2 k' w ys =>
      if k =? k' then Ok (Arr2 h w (matmul h k w xs ys)) else Raise ValueError
  end.

(** Broadcasting: two extents agree when they are equal or one of them is 1. *)
Definition bdim (a b : nat) : result nat :=
  if a =? b then Ok a
  else if a =? 1 then Ok b
  else if b =? 1 then Ok a
  else Raise ValueError.

(** Entry [(i, j)] of an [h] by [w] buffer stretched along its extents of 1. *)
Definition bentry (h w : nat) (xs : list (F N)) (i j : nat) : F N :=
  entry w xs (if h =? 1 then 0 else i) (if w =? 1 then 0 else j).

Definition broadcast2 (op : F N -> F N -> F N)
    (h w : nat) (xs : list (F N)) (h' w' : nat) (ys : list (F N)) : result array :=
  if (h =? h') && (w =? w') then Ok (Arr2 h w (map2 op xs ys))
  else
    bh <- bdim h h' ;;
    bw <- bdim w w' ;;
    Ok (Arr2 bh bw
          (flat_map (fun i => map (fun j => op (bentry h w xs i j) (bentry h' w' ys i j))
                                  (seq 0 bw))
                    (seq 0 bh))).

(** [a op b], elementwise. *)
Definition ebinop (op : F N -> F N -> F N) (a b : array) : result array :=
  match a, b with
  | Num x, Num y => Ok (Num (op x y))
  | Num x, Arr1 ys => Ok (Arr1 (map (op x) ys))
  | Num x, Arr2 h w ys => Ok (Arr2 h w (map (op x) ys))
  | Arr1 xs, Num y => Ok (Arr1 (map (fun x => op x y) xs))
  | Arr2 h w xs, Num y => Ok (Arr2 h w (map (fun x => op x y) xs))
  | Arr1 xs, Arr1 ys => r <- vbinop op xs ys ;; Ok (Arr1 r)
  | Arr2 h w xs, Arr1 ys => broadcast2 op h w xs 1 (length ys) ys
  | Arr1 xs, Arr2 h w ys => broadcast2 op 1 (length xs) xs h w ys
  | Arr2 h w xs, Arr2 h' w' ys => broadcast2 op h w xs h' w' ys
  end.

Definition add : array -> array -> result array := ebinop (fadd N).
Definition sub : array -> array -> result array := ebinop (fsub N).
Definition mul : array -> array -> result array := ebinop (fmul N).
Definition div : array -> array -> result array := ebinop (fdiv N).

(** A function applied to every entry ([np.log], [np.square], [logistic]). *)
Definition emap (f : F N -> F N) (a : array) : array :=
  match a with
  | Num x => Num (f x)
  | Arr1 xs => Arr1 (map f xs)
  | Arr2 h w xs => Arr2 h w (map f xs)
  end.

(** [gp.garray(a)]: the array on the device, every entry in single
    precision. *)
Definition garray (a : array) : array := emap (fsingle N) a.

(** [np.sum(a, axis=1)] and [np.sum(a)] *)
Definition sum_axis1 (a : array) : result array :=
  match a with
  | Arr2 h w xs => Ok (Arr1 (map (fun i => fsum (row w xs i)) (seq 0 h)))
  | _ => Raise ValueError
  end.
Definition sum_all (a : array) : F N :=
  match a with
  | Num x => x
  | Arr1 xs | Arr2 _ _ xs => fsum xs
  end.

(** [a[s:e]] for 0 <= s <= e: a slice of the first axis. *)
Definition getslice (a : array) (s e : nat) : result array :=
  match a with
  | Num _ => Raise TypeError
  | Arr1 xs => Ok (Arr1 (slice xs s e))
  | Arr2 h w xs => Ok (Arr2 (Nat.min e h - s) w (slice xs (s * w) (Nat.min e h * w)))
  end.

(** [a[:-1]] *)
Definition droplast (a : array) : result array :=
  match a with
  | Num _ => Raise TypeError
  | Arr1 xs => Ok (Arr1 (removelast xs))
  | Arr2 h w xs => Ok (Arr2 (h - 1) w (firstn ((h - 1) * w) xs))
  end.

(** [a[-1]] *)
Definition last_item (a : array) : result array :=
  match a with
  | Num _ => Raise TypeError
  | Arr1 xs => match xs with [] => Raise IndexError | _ => Ok (Num (last xs zero)) end
  | Arr2 h w xs => match h with O => Raise IndexError | S h' => Ok (Arr1 (row w xs h')) end
  end.

(** [a[:, -1]] *)
Definition last_column (a : array) : result array :=
  match a with
  | Num _ => Raise TypeError
  | Arr1 _ => Raise IndexError
  | Arr2 h w xs => match w with O => Raise IndexError | S w' => Ok (Arr1 (col h w xs w')) end
  end.

(** [a[i, :]] *)
Definition getrow (a : array) (i : nat) : result array :=
  match a with
  | Num _ => Raise TypeError
  | Arr1 _ => Raise IndexError
  | Arr2 h w xs => if Nat.ltb i h then Ok (Arr1 (row w xs i)) else Raise IndexError
  end.

(** [a[i]] *)
Definition getitem (a : array) (i : nat) : result array :=
  match a with
  | Num _ => Raise TypeError
  | Arr1 xs => if Nat.ltb i (length xs) then Ok (Num (nth i xs zero)) else Raise IndexError
  | Arr2 h w xs => if Nat.ltb i h then Ok (Arr1 (row w xs i)) else Raise IndexError
  end.

(** [a[idx, :]] for an array [idx] of indices: two-dimensional arrays only. *)
Definition take_rows (a : array) (idx : list nat) : result array :=
  match a with
  | Num _ => Raise TypeError
  | Arr1 _ => Raise IndexError
  | Arr2 h w xs =>
      if forallb (fun i => Nat.ltb i h) idx
      then Ok (Arr2 (length idx) w (flat_map (row w xs) idx))
      else Raise IndexError
  end.

(** [a[idx]] *)
Definition take (a : array) (idx : list nat) : result array :=
  match a with
  | Num _ => Raise TypeError
  | Arr1 xs =>
      if forallb (fun i => Nat.ltb i (length xs)) idx
      then Ok (Arr1 (map (fun i => nth i xs zero) idx))
      else Raise IndexError
  | Arr2 h w xs =>
      if forallb (fun i => Nat.ltb i h) idx
      then Ok (Arr2 (length idx) w (flat_map (row w xs) idx))
      else Raise IndexError
  end.

(** [gp.concatenate((a, b), axis=1)] and [gp.concatenate((a, b))] *)
Definition concatenate1 (a b : array) : result array :=
  match a, b with
  | Arr2 h w xs, Arr2 h' w' ys =>
      if h =? h'
      then Ok (Arr2 h (w + w') (flat_map (fun i => row w xs i ++ row w' ys i) (seq 0 h)))
      else Raise ValueError
  | _, _ => Raise ValueError
  end.
Definition concatenate0 (a b : array) : result array :=
  match a, b with
  | Arr2 h w xs, Arr2 h' w' ys =>
      if w =? w' then Ok (Arr2 (h + h') w (xs ++ ys)) else Raise ValueError
  | Arr1 xs, Arr1 ys => Ok (Arr1 (xs ++ ys))
  | _, _ => Raise ValueError
  end.

(** [np.tile(a, (1, k))] *)
Definition tile1 (a : array) (k : nat) : array :=
  match a with
  | Num x => Arr2 1 k (repeat x k)
  | Arr1 xs => Arr2 1 (length xs * k) (concat (repeat xs k))
  | Arr2 h w xs => Arr2 h (w * k) (flat_map (fun i => concat (repeat (row w xs i) k)) (seq 0 h))
  end.

(** The buffer of [val] stretched to [h] by [w], for an assignment. *)
Definition stretch (h w : nat) (val : array) : result (list (F N)) :=
  match val with
  | Num x => Ok (repeat x (h * w))
  | Arr1 xs =>
      if length xs =? w then Ok (concat (repeat xs h))
      else if length xs =? 1 then Ok (repeat (nth 0 xs zero) (h * w))
      else Raise ValueError
  | Arr2 h' w' xs =>
      if (h' =? h) && (w' =? w) then Ok xs
      else if ((h' =? h) || (h' =? 1)) && ((w' =? w) || (w' =? 1))
      then Ok (flat_map (fun i => map (bentry h' w' xs i) (seq 0 w)) (seq 0 h))
      else Raise ValueError
  end.

Definition splice (xs : list (F N)) (s e : nat) (ys : list (F N)) : list (F N) :=
  firstn s xs ++ ys ++ skipn e xs.

(** [a[s:e] = val] on the first axis of a two-dimensional [a], 0 <= s <= e. *)
Definition setrows (a : array) (s e : nat) (val : array) : result array :=
  match a with
  | Arr2 h w xs =>
      let e' := Nat.min e h in
      ys <- stretch (e' - s) w val ;;
      Ok (Arr2 h w (splice xs (s * w) (e' * w) ys))
  | _ => Raise ValueError
  end.

(** [v[s:e] = val] on a one-dimensional [v]. *)
Definition setslice (v : vec N) (s e : nat) (val : array) : result (vec N) :=
  let e' := Nat.min e (length v) in
  match val with
  | Num x => Ok (splice v s e' (repeat x (e' - s)))
  | Arr1 xs =>
      if length xs =? e' - s then Ok (splice v s e' xs)
      else if length xs =? 1 then Ok (splice v s e' (repeat (nth 0 xs zero) (e' - s)))
      else Raise ValueError
  | Arr2 _ _ _ => Raise ValueError
  end.

(** [np.argmax] of a one-dimensional array: the first index of a largest
    entry, a NaN counting as larger than every number, so that the index of
    the first NaN is returned if there is one.  [best] is the largest entry
    before position [i], at index [besti]; the search ends when it is a
    NaN, and goes on with [x] when [x <= best] does not hold. *)
Fixpoint argmax_from (best : F N) (besti : nat) (i : nat) (xs : list (F N)) : nat :=
  match xs with
  | [] => besti
  | x :: xs' =>
      if fisnan N best then besti
      else if fisnan N x || (x >? best) then argmax_from x i (S i) xs'
      else argmax_from best besti (S i) xs'
  end.
Definition argmax (a : array) : result nat :=
  match a with
  | Arr1 (x :: xs) => Ok (argmax_from x 0 1 xs)
  | Arr2 _ _ (x :: xs) => Ok (argmax_from x 0 1 xs)
  | Num _ => Ok 0%nat
  | _ => Raise ValueError
  end.
End Arrays.

(** ** The network *)

(** [class Layer]: the fields [W], [hbias], [n_hidden] and [hidtype]. *)
Record Layer (N : Numeric) : Type := MkLayer {
  W : ndarray N;
  hbias : ndarray N;
  n_hidden : nat;
  hidtype : String.string
}.

Arguments MkLayer {N} W hbias n_hidden hidtype.

Section Network.
Context {N : Numeric} {A : Activation N}.
Local Open Scope num_scope.
Local Abbreviation array := (ndarray N).
Local Abbreviation zero := (of_Z N 0).
Local Abbreviation one := (of_Z N 1).

Definition as_numpy_array (a : array) : result array :=
  match a with
  | Num _ => Raise AttributeError
  | _ => Ok a
  end.

(** *** [NeuralNet.get_activation] *)

(** The body of [for i in range(len(breaks)-1)]. *)
Definition activation_chunk (layer : Layer N) (data : array) (breaks : list nat)
    (i : nat) (hid : array) : result array :=
  let s := nth i breaks 0%nat in
  let e := nth (i + 1) breaks 0%nat in
  chunk <- getslice data s e ;;
  prod <- dot chunk (W layer) ;;
  act <- add prod (hbias layer) ;;
  act <- as_numpy_array act ;;
  if String.eqb (hidtype layer) "sigmoid"%string
  then setrows hid s e (emap (logistic A) act)
  else setrows hid s e act.

Definition get_activation (layer : Layer N) (data : array) : result array :=
  n <- shape0 data ;;
  let hid := zeros2 n (n_hidden layer) in
  let breaks := py_range 0 n 128 ++ [n] in
  for_each (range (length breaks - 1)) (activation_chunk layer data breaks) hid.

(** *** [NeuralNet.run_through_network] *)
Definition run_through_network (data : array) (net : list (Layer N)) : result array :=
  for_each net (fun layer hid => let vis := garray hid in get_activation layer vis) data.

(** *** [NeuralNet.getError] *)

Definition classification_row (result_ T weights : array) (i : nat) (err : array)
  : result array :=
  r <- getrow result_ i ;;
  ind <- argmax r ;;
  t <- getrow T i ;;
  targ <- argmax t ;;
  if ind =? targ then Ok err
  else w <- getitem weights i ;; add err w.

Definition reconstruction_row (result_ T weights : array) (i : nat) (err : array)
  : result array :=
  r <- getrow result_ i ;;
  t <- getrow T i ;;
  d <- sub r t ;;
  w <- getitem weights i ;;
  e <- mul (Num (fsqrt N (sum_all (emap (fun x => x * x) d)))) w ;;
  add err e.

Definition getError (validErrFunc : String.string) (network : list (Layer N))
    (X T weights : array) : result array :=
  let err := Num zero in
  result_ <- run_through_network X network ;;
  n <- shape0 X ;;
  err <- (if String.eqb validErrFunc "classification"%string
          then for_each (range n) (classification_row result_ T weights) err
          else for_each (range n) (reconstruction_row result_ T weights) err) ;;
  div err (Num (sum_all weights)).

(** *** The parameter vector *)

(** [v.extend(w.reshape((w.shape[0]*w.shape[1],)).tolist()); v.extend(b.tolist())]:
    a bias that is not one-dimensional puts lists into [v], which
    [np.asarray(v)] refuses. *)
Definition flatten_layer (layer : Layer N) : result (vec N) :=
  w <- as_numpy_array (W layer) ;;
  b <- as_numpy_array (hbias layer) ;;
  h <- shape0 w ;;
  k <- shape1 w ;;
  flat <- reshape1 w (h * k) ;;
  ws <- buffer flat ;;
  match b with
  | Arr1 bs => Ok (ws ++ bs)
  | _ => Raise ValueError
  end.

Fixpoint flatten (network : list (Layer N)) : result (vec N) :=
  match network with
  | [] => Ok []
  | layer :: rest =>
      here <- flatten_layer layer ;;
      there <- flatten rest ;;
      Ok (here ++ there)
  end.

(** The body of the loop that puts [v] back, from position [ind]. *)
Definition unflatten_layer (v : vec N) (ind : nat) (layer : Layer N)
  : result (Layer N * nat) :=
  ' (h, w) <- shape2 (W layer) ;;
  W' <- reshape2 (Arr1 (slice v ind (ind + h * w))) h w ;;
  let W' := garray W' in
  let ind := (ind + h * w)%nat in
  b <- len (hbias layer) ;;
  let hbias' := garray (Arr1 (slice v ind (ind + b))) in
  Ok (MkLayer W' hbias' (n_hidden layer) (hidtype layer), (ind + b)%nat).

Fixpoint unflatten_from (v : vec N) (ind : nat) (network : list (Layer N))
  : result (list (Layer N)) :=
  match network with
  | [] => Ok []
  | layer :: rest =>
      ' (layer', ind') <- unflatten_layer v ind layer ;;
      rest' <- unflatten_from v ind' rest ;;
      Ok (layer' :: rest')
  end.

Definition unflatten (v : vec N) (network : list (Layer N)) : result (list (Layer N)) :=
  unflatten_from v 0 network.

(** *** [NeuralNet.backprop_gradient] *)

(** [l[i]] on a Python list. *)
Definition list_get {T : Type} (l : list T) (i : nat) : result T :=
  match nth_error l i with
  | Some x => Ok x
  | None => Raise IndexError
  end.

(** [l[i] = x] for [i] in range. *)
Fixpoint list_set {T : Type} (l : list T) (i : nat) (x : T) : list T :=
  match l, i with
  | [], _ => []
  | _ :: l', O => x :: l'
  | y :: l', S i' => y :: list_set l' i' x
  end.

(** The forward pass: [acts], the input followed by every layer's output. *)
Fixpoint forward (net : list (Layer N)) (hid : array) : result (list array) :=
  match net with
  | [] => Ok [hid]
  | layer :: rest =>
      let vis := garray hid in
      out <- get_activation layer vis ;;
      acts <- forward rest out ;;
      Ok (hid :: acts)
  end.

(** [Ix *= np.tile(weights, (1, Ix.shape[1])).reshape((Ix.shape[0],Ix.shape[1]))] *)
Definition scale_by_weights (Ix weights : array) : result array :=
  k <- shape1 Ix ;;
  h <- shape0 Ix ;;
  tiled <- reshape2 (tile1 weights k) h k ;;
  mul Ix tiled.

(** The cost and the unscaled error signal of the output layer. *)
Definition output_error (targetCost : string) (n : nat) (out targets weights : array)
  : result (F N * array) :=
  if String.eqb targetCost "crossEntropy" then
    if n =? 0 then Raise ZeroDivisionError
    else
      a <- mul targets (emap (log A) out) ;;
      omt <- sub (Num one) targets ;;
      oma <- sub (Num one) out ;;
      b <- mul omt (emap (log A) oma) ;;
      ab <- add a b ;;
      rows <- sum_axis1 ab ;;
      rw <- mul rows weights ;;
      d <- sub out targets ;;
      Ix <- div d (Num (of_Z N (Z.of_nat n))) ;;
      Ok ((- one) / of_Z N (Z.of_nat n) * sum_all rw, Ix)
  else
    d <- sub out targets ;;
    rows <- sum_axis1 (emap (fun x => x * x) d) ;;
    rw <- mul rows weights ;;
    Ix <- sub out targets ;;
    Ok (lit 1 2 * sum_all rw, Ix).

(** The [if i > 0:] block: the error signal handed to layer [i-1].  [acts_i]
    is [acts[i]] after the column of ones was appended. *)
Definition backpropagate (network : list (Layer N)) (i : nat) (acts_i Ix : array)
  : result array :=
  layer <- list_get network i ;;
  b <- shape0 (hbias layer) ;;
  biasr <- reshape2 (hbias layer) 1 b ;;
  prev <- list_get network (i - 1) ;;
  Ix <- (if String.eqb (hidtype prev) "sigmoid" then
           c <- concatenate0 (W layer) biasr ;;
           cT <- transpose c ;;
           p <- dot Ix cT ;;
           p <- mul p acts_i ;;
           q <- sub (Num one) acts_i ;;
           mul p q
         else if String.eqb (hidtype prev) "gaussian" then
           (* [gp.concatentate]: gnumpy has no such attribute *)
           Raise AttributeError
         else Ok Ix) ;;
  last_column Ix.

(** The variables of the loop that computes the gradients. *)
Record backward : Type := MkBackward {
  bw_acts : list array;
  bw_Ix : array;
  bw_dW : list array;
  bw_db : list array
}.

(** The body of [for i in range(numHiddenLayers-1,-1,-1)]. *)
Definition backward_layer (n : nat) (network : list (Layer N)) (i : nat) (st : backward)
  : result backward :=
  a <- list_get (bw_acts st) i ;;
  let a := garray a in
  a <- concatenate1 a (ones2 n 1) ;;
  aT <- transpose a ;;
  delta <- dot aT (bw_Ix st) ;;
  dWi <- (d <- droplast delta ;; transpose d) ;;
  dbi <- try_except (d <- last_item delta ;; transpose d) AttributeError
                    (last_item delta) ;;
  Ix <- (if Nat.ltb 0 i then backpropagate network i a (bw_Ix st) else Ok (bw_Ix st)) ;;
  Ok {| bw_acts := list_set (bw_acts st) i a; bw_Ix := Ix;
        bw_dW := bw_dW st ++ [dWi]; bw_db := bw_db st ++ [dbi] |}.

(** The body of the loop that writes [dW] and [db] into [grad]. *)
Definition store_layer (dW db : list array) (i : nat) (st : vec N * nat)
  : result (vec N * nat) :=
  let '(grad, ind) := st in
  dWi <- list_get dW i ;;
  grad <- try_except
            (h <- shape0 dWi ;;
             w <- shape1 dWi ;;
             flat <- reshape1 dWi (h * w) ;;
             rhs <- as_numpy_array flat ;;
             sz <- size dWi ;;
             setslice grad ind (ind + sz) rhs)
            IndexError
            (rhs <- as_numpy_array dWi ;;
             sz <- size dWi ;;
             setslice grad ind (ind + sz) rhs) ;;
  sz <- size dWi ;;
  let ind := (ind + sz)%nat in
  dbi <- list_get db i ;;
  try_except
    (rhs <- as_numpy_array dbi ;;
     sz <- size dbi ;;
     grad <- setslice grad ind (ind + sz) rhs ;;
     Ok (grad, (ind + sz)%nat))
    AttributeError
    (grad <- setslice grad ind (ind + 1) dbi ;;
     Ok (grad, (ind + 1)%nat)).

Definition backprop_gradient (targetCost : string) (network : list (Layer N))
    (X targets weights : array) (v : vec N) : result (F N * vec N) :=
  n <- shape0 X ;;
  let numHiddenLayers := length network in
  network <- unflatten v network ;;
  acts <- forward network X ;;
  out <- list_get acts numHiddenLayers ;;
  ' (cost, Ix) <- output_error targetCost n out targets weights ;;
  Ix <- scale_by_weights Ix weights ;;
  let Ix := garray Ix in
  st <- for_each (rev (range numHiddenLayers)) (backward_layer n network)
          {| bw_acts := acts; bw_Ix := Ix; bw_dW := []; bw_db := [] |} ;;
  let dW := rev (bw_dW st) in
  let db := rev (bw_db st) in
  ' (grad, _) <- for_each (range numHiddenLayers) (store_layer dW db)
                   (zeros_like v, 0%nat) ;;
  Ok (cost, grad).

(** *** [NeuralNet.doBackprop] *)

Definition batch_size : nat := 128.

(** [batch] and [batchend] for every pass of [for batch in range(0, n, batch_size)]. *)
Definition batchend (n batch : nat) : nat :=
  if Nat.ltb n (batch + 2 * batch_size) then n else (batch + batch_size)%nat.
Definition batches (n : nat) : list (nat * nat) :=
  map (fun batch => (batch, batchend n batch)) (py_range 0 n batch_size).

(** The body of the loop over the batches; [weights] is [self.weights].
    The cost [backprop_gradient] returns is a product with [np.sum]: a
    numpy scalar. *)
Definition backprop_batch (targetCost : string) (data targets weights : array)
    (index : list nat) (b : nat * nat) (network : list (Layer N))
  : result (list (Layer N)) :=
  let idx := slice index (fst b) (snd b) in
  tmpX <- take_rows data idx ;;
  tmpT <- take_rows targets idx ;;
  tmpW <- take_rows weights idx ;;
  v <- flatten network ;;
  res <- minimize (MkObjective (backprop_gradient targetCost network tmpX tmpT tmpW)
                     (fun _ => true)) 3 v ;;
  unflatten (fst (fst res)) network.

(** [index] is [np.arange(self.n)] after [np.random.shuffle]. *)
Definition doBackprop (targetCost : string) (n : nat) (data targets weights : array)
    (index : list nat) (network : list (Layer N)) : result (list (Layer N)) :=
  for_each (batches n) (backprop_batch targetCost data targets weights index) network.

(** *** [NeuralNet.train] *)

(** The two calls of [getError] that precede every progress line. *)
Definition report (validErrFunc : string) (network : list (Layer N))
    (data targets weights : array) (tinds : list nat) (valid : option (array * array))
  : result unit :=
  dX <- take_rows data tinds ;;
  dT <- take_rows targets tinds ;;
  dW <- take weights tinds ;;
  _ <- getError validErrFunc network dX dT dW ;;
  match valid with
  | Some (validX, validT) =>
      vn <- shape0 validX ;;
      _ <- getError validErrFunc network validX validT (ones1 vn) ;;
      Ok tt
  | None => Ok tt
  end.

(** [shuffle k l] is what the [k]-th call of [np.random.shuffle] makes of [l].
    The result is [self.network] when [train] returns. *)
Definition train (shuffle : nat -> list nat -> list nat) (network : list (Layer N))
    (data targets : array) (valid : option (array * array)) (max_iter : nat)
    (validErrFunc targetCost : string) : result (list (Layer N)) :=
  ' (n, m) <- shape2 data ;;
  _ <- for_each network
         (fun layer numunits =>
            a <- shape1 (W layer) ;; b <- shape0 (hbias layer) ;;
            Ok (numunits + a + b)%nat) 0%nat ;;
  let weights := ones1 n in
  let tindex := shuffle 0%nat (range n) in
  let tinds := slice tindex 0 (Nat.min batch_size n) in
  network <- for_each (range max_iter)
               (fun i network =>
                  _ <- report validErrFunc network data targets weights tinds valid ;;
                  doBackprop targetCost n data targets weights
                    (shuffle (S i) (range n)) network)
               network ;;
  _ <- report validErrFunc network data targets weights tinds valid ;;
  Ok network.

(** *** What the theorems about the network speak of *)

(** A layer as [Layer.__init__] and the unflattening leave it: a
    two-dimensional [W] whose buffer fills its shape, a one-dimensional
    [hbias]. *)
Definition wf_layer (l : Layer N) : Prop :=
  match W l, hbias l with
  | Arr2 h w ws, Arr1 bs => length ws = (h * w)%nat
  | _, _ => False
  end.

(** A layer whose two arrays are as a gnumpy array holds them: every entry
    is a value of single precision, which [gp.garray] leaves as it is. *)
Definition device_layer (l : Layer N) : Prop :=
  garray (W l) = W l /\ garray (hbias l) = hbias l.

(** The number of parameters of a layer, [in*out + out], and of a network. *)
Definition nparams_layer (l : Layer N) : nat :=
  match W l, hbias l with
  | Arr2 h w _, Arr1 bs => (h * w + length bs)%nat
  | _, _ => 0%nat
  end.
Definition nparams (network : list (Layer N)) : nat :=
  list_sum (map nparams_layer network).

(** The single pass the chunked evaluation stands for:
    [activation(data . W + hbias)] on the whole batch. *)
Definition single_pass (layer : Layer N) (data : array) : result array :=
  prod <- dot data (W layer) ;;
  act <- add prod (hbias layer) ;;
  act <- as_numpy_array act ;;
  Ok (if String.eqb (hidtype layer) "sigmoid" then emap (logistic A) act else act).

(** Row [i] of [X . W + hbias] for buffers [X] of width [d], [ws] of shape
    [d] by [k] and [bs] of length [k]; row [i] of the layer's output. *)
Definition affine_row (d k : nat) (ws bs X : list (F N)) (i : nat) : list (F N) :=
  map (fun j => fsum (map2 (fmul N) (row d X i) (col d k ws j)) + nth j bs zero)
      (seq 0 k).
Definition out_row (layer : Layer N) (d k : nat) (ws bs xs : list (F N)) (i : nat)
  : list (F N) :=
  if String.eqb (hidtype layer) "sigmoid"
  then map (logistic A) (affine_row d k ws bs xs i)
  else affine_row d k ws bs xs i.

(** [v] with [h] added to entry [j]. *)
Fixpoint bump (v : vec N) (j : nat) (h : F N) : vec N :=
  match v, j with
  | [], _ => []
  | x :: v', O => (x + h) :: v'
  | x :: v', S j' => x :: bump v' j' h
  end.

(** The central finite difference of [f] along coordinate [j]. *)
Definition central_difference (f : vec N -> result (F N)) (v : vec N) (j : nat) (h : F N)
  : result (F N) :=
  fp <- f (bump v j h) ;;
  fm <- f (bump v j (- h)) ;;
  Ok ((fp - fm) / (of_Z N 2 * h)).

(** The cost [backprop_gradient] returns. *)
Definition cost_of (targetCost : string) (network : list (Layer N))
    (X targets weights : array) (v : vec N) : result (F N) :=
  ' (cost, _) <- backprop_gradient targetCost network X targets weights v ;;
  Ok cost.

(** [a[:, :-1]]: all columns but the last. *)
Definition drop_last_column (a : array) : result array :=
  match a with
  | Num _ => Raise TypeError
  | Arr1 _ => Raise IndexError
  | Arr2 h w xs =>
      Ok (Arr2 h (w - 1) (flat_map (fun i => removelast (row w xs i)) (seq 0 h)))
  end.

(** The error signal for layer [i-1] as the method words it, for a sigmoid
    layer: [delta . [W; bias]^T] restricted to the non-bias columns, times
    [a (1 - a)]. *)
Definition backpropagate_as_specified (network : list (Layer N)) (i : nat)
    (acts_i Ix : array) : result array :=
  layer <- list_get network i ;;
  b <- shape0 (hbias layer) ;;
  biasr <- reshape2 (hbias layer) 1 b ;;
  c <- concatenate0 (W layer) biasr ;;
  cT <- transpose c ;;
  p <- dot Ix cT ;;
  p <- mul p acts_i ;;
  q <- sub (Num one) acts_i ;;
  r <- mul p q ;;
  drop_last_column r.

(** The data of [demo_xor]. *)
Definition xor_data : array := Arr2 4 2 (map (of_Z N) [0; 0;  0; 1;  1; 0;  1; 1]%Z).
Definition xor_targets : array := Arr2 4 1 (map (of_Z N) [0; 1; 1; 0]%Z).
End Network.

(** A network of the shape [demo_xor] builds, 2-2-1 with sigmoid layers, and
    one whose hidden layer is the identity. *)
Definition xor_net {N : Numeric} (w1 w2 w3 w4 b1 b2 u1 u2 c1 : F N) : list (Layer N) :=
  [ MkLayer (Arr2 2 2 [w1; w2; w3; w4]) (Arr1 [b1; b2]) 2 "sigmoid";
    MkLayer (Arr2 2 1 [u1; u2]) (Arr1 [c1]) 1 "sigmoid" ].
Definition gaussian_net {N : Numeric} (w1 w2 w3 w4 b1 b2 u1 u2 c1 : F N) : list (Layer N) :=
  [ MkLayer (Arr2 2 2 [w1; w2; w3; w4]) (Arr1 [b1; b2]) 2 "gaussian";
    MkLayer (Arr2 2 1 [u1; u2]) (Arr1 [c1]) 1 "gaussian" ].

(** One identity layer from 2 inputs to 2 outputs, one sample, and the step
    and tolerance of a gradient check. *)
Definition linear22 : list (Layer float64) :=
  [ MkLayer (@Arr2 float64 2 2 [0; 0; 0; 0]%float) (@Arr1 float64 [0; 0]%float)
      2 "gaussian" ].
Definition sample_X : ndarray float64 := @Arr2 float64 1 2 [1; 0]%float.
Definition sample_T : ndarray float64 := @Arr2 float64 1 2 [1; 2]%float.
Definition sample_weights : ndarray float64 := @Arr1 float64 [1]%float.
Definition zeros6 : vec float64 := [0; 0; 0; 0; 0; 0]%float.
Definition step : float := 0x1.4f8b588e368f1p-17%float.        (* 1e-5 *)
Definition tolerance : float := 0x1.a36e2eb1c432dp-14%float.   (* 1e-4 *)

(** A 2-2-1 network with binary64 weights. *)
Definition xor_net_float : list (Layer float64) :=
  @xor_net float64 0.5%float (-0.5)%float 0.25%float 1%float (-0.375)%float
    0.125%float 2%float (-1)%float 0.75%float.

(** On the reals: a sigmoid layer from 2 inputs to 2 units and a batch of
    300 rows. *)
Definition sigmoid_layer : Layer reals :=
  MkLayer (@Arr2 reals 2 2 [1; -1; 2; 0]%R) (@Arr1 reals [0; 1]%R) 2 "sigmoid".
Definition batch300 : list R := repeat 1%R 600.

(** * More of the program: what further theorems speak of *)

(** ** Runs of [minimize] *)

Section RunInvariants.
Context {N : Numeric}.
Variable fun_ : objective N.

(** The point of a line search is the last one the objective was called
    at, with the value and the gradient it returned there. *)
Definition search_evaluated (st : @search N) : Prop :=
  fun_ (ls_X st) = Ok (ls_f2 st, ls_df2 st).

(** The point of the outer loop is one the objective returned [f1] at; it
    is the starting point [X0] while the trace is empty, and the trace ends
    with [f1] otherwise. *)
Definition traced (X0 : vec N) (st : @cg N) : Prop :=
  (exists g, fun_ (cg_X st) = Ok (cg_f1 st, g)) /\
  (cg_fX st = [] -> cg_X st = X0) /\
  (forall fs f, cg_fX st = fs ++ [f] -> f = cg_f1 st).

(** The trace grows by at most one entry per line search, and a line
    search calls the objective between 1 and 21 times. *)
Definition tallied (st : @cg N) : Prop :=
  (length (cg_fX st) <= cg_searches st)%nat /\
  (S (cg_searches st) <= length (cg_evals st) <= 1 + 21 * cg_searches st)%nat.

(** Wherever the objective returns, its gradient is as long as its
    argument. *)
Definition gradient_shaped : Prop :=
  forall x f g, fun_ x = Ok (f, g) -> length g = length x.

(** Every array of the outer loop, and of a line search, has [n] entries. *)
Definition sized (n : nat) (st : @cg N) : Prop :=
  length (cg_X st) = n /\ length (cg_s st) = n /\ length (cg_df1 st) = n /\
  Forall (fun x => length x = n) (cg_evals st).

Definition search_sized (n : nat) (st : @search N) : Prop :=
  length (ls_X st) = n /\ length (ls_df2 st) = n /\
  Forall (fun x => length x = n) (ls_evals st).
End RunInvariants.

(** An objective whose gradient has two entries whatever its argument, and
    the state of the first line search on [bowl] from the origin. *)
Definition two_entries : objective float64 :=
  @MkObjective float64 (fun x => Ok (fsum (N:=float64) x, [1; 1]%float)) (fun _ => true).

Definition bowl_search : @search float64 :=
  @MkSearch float64
    [-0.25; -0.25; -0.25; -0.25]%float        (* X *)
    0.5%float                                 (* z1 *)
    (-0.3125)%float true                      (* f2, a numpy scalar *)
    [0.125; 0.125; 0.125; 0.125]%float        (* df2 *)
    (-0.25)%float                             (* d2 *)
    0%float (-1)%float (-0.5)%float           (* f3, d3, z3 *)
    (-1)%float                                (* limit *)
    1%Z                                       (* i *)
    [origin4; [-0.25; -0.25; -0.25; -0.25]%float].

(** ** What the theorems about whole networks speak of *)

Section Shapes.
Context {N : Numeric} {A : Activation N}.

(** A network that takes rows of [d] entries to rows of [d'] entries: every
    [W] is two-dimensional and filled, with as many rows as the layer
    before has units, and every [hbias] has one entry per unit. *)
Fixpoint chained (d : nat) (net : list (Layer N)) (d' : nat) : Prop :=
  match net with
  | [] => d = d'
  | layer :: rest =>
      exists k ws bs,
        W layer = Arr2 d k ws /\ length ws = (d * k)%nat /\
        hbias layer = Arr1 bs /\ length bs = k /\ n_hidden layer = k /\
        chained k rest d'
  end.

(** Two layers of one shape and one activation type. *)
Definition same_shape (l1 l2 : Layer N) : Prop :=
  shape2 (W l1) = shape2 (W l2) /\ len (hbias l1) = len (hbias l2) /\
  n_hidden l1 = n_hidden l2 /\ hidtype l1 = hidtype l2.
End Shapes.

(** A vector one entry short of the six parameters of [linear22]. *)
Definition five_entries : vec float64 := [1; 2; 3; 4; 5]%float.

(** ** What the theorems about [getError] speak of *)

Section ErrorMeasures.
Context {N : Numeric}.
Local Open Scope num_scope.

(** [np.argmax] of row [i] of a buffer of rows of width [w]. *)
Definition row_argmax (w : nat) (xs : list (F N)) (i : nat) : nat :=
  match row w xs i with
  | [] => 0%nat
  | x :: r => argmax_from x 0 1 r
  end.

(** The rows, in order, at which the largest output and the largest target
    are at different places. *)
Definition misclassified (d : nat) (ys : list (F N)) (k : nat) (ts : list (F N))
    (n : nat) : list nat :=
  filter (fun i => negb (row_argmax d ys i =? row_argmax k ts i)) (seq 0 n).

(** [np.sqrt(np.sum(np.square(result[i,:]-T[i,:])))] *)
Definition row_distance (d : nat) (ys ts : list (F N)) (i : nat) : F N :=
  fsqrt N (sum_all (Arr1 (map (fun x => x * x) (map2 (fsub N) (row d ys i) (row d ts i))))).

(** [err = 0] followed by [err = err + x] for every [x] of [l], in order. *)
Definition accumulate (l : list (F N)) : F N := fold_left (fadd N) l (of_Z N 0).
End ErrorMeasures.

(** ** [NeuralNet.__init__], [Layer.__init__] and [demo_xor] *)

(** The constructor fails by a failed [assert] only. *)
Inductive asserted (T : Type) : Type :=
| Passed (x : T)
| AssertionError.

Arguments Passed {T} x.
Arguments AssertionError {T}.

Section Construction.
Context {N : Numeric} {A : Activation N}.
Local Open Scope num_scope.

(** [Layer.__init__]: [gp.garray] puts the two arrays on the device. *)
Definition Layer_init (W hbias : ndarray N) (n_hidden : nat) (hidtype : string) : Layer N :=
  MkLayer (garray W) (garray hbias) n_hidden hidtype.

(** [np.random.randn(h, w)]: [draws] is the stream of standard normal
    samples of the generator, [pos] the number of samples drawn before. *)
Definition randn (draws : nat -> F N) (pos h w : nat) : ndarray N :=
  Arr2 h w (map (fun j => draws (pos + j)%nat) (seq 0 (h * w))).

(** The body of [for i in range(len(layer_sizes)-1)]; the three subscripts
    are in range there, since the two lists are of one length. *)
Definition random_layer (draws : nat -> F N) (layer_sizes : list nat)
    (layer_types : list string) (i : nat) (st : list (Layer N) * nat)
  : list (Layer N) * nat :=
  let '(layers, pos) := st in
  let h := nth i layer_sizes 0%nat in
  let w := nth (i + 1) layer_sizes 0%nat in
  let W := emap (fun x => lit 1 10 * x) (randn draws pos h w) in
  let hbias := emap (fun x => (- lit 4 10) * x) (ones1 w) in
  (layers ++ [Layer_init W hbias w (nth (i + 1) layer_types ""%string)], (pos + h * w)%nat).

(** [NeuralNet.__init__]: the value is [self.network]. *)
Definition NeuralNet_init (draws : nat -> F N) (network : option (list (Layer N)))
    (layer_sizes : option (list nat)) (layer_types : option (list string))
  : asserted (list (Layer N)) :=
  match network with
  | Some network =>
      Passed (map (fun rbm => Layer_init (W rbm) (hbias rbm) (n_hidden rbm) (hidtype rbm))
                network)
  | None =>
      match layer_sizes, layer_types with
      | Some layer_sizes, Some layer_types =>
          if length layer_sizes =? length layer_types
          then Passed (fst (fold_left
                              (fun st i => random_layer draws layer_sizes layer_types i st)
                              (range (length layer_sizes - 1)) ([], 0%nat)))
          else AssertionError
      | _, _ => AssertionError
      end
  end.

(** [demo_xor]: the value is the output that is printed last. *)
Definition demo_xor (draws : nat -> F N) (shuffle : nat -> list nat -> list nat)
  : asserted (result (ndarray N)) :=
  match NeuralNet_init draws None (Some [2; 2; 1]%nat)
          (Some ["sigmoid"; "sigmoid"; "sigmoid"]%string) with
  | Passed network =>
      Passed (network <- train (A:=A) shuffle network xor_data xor_targets None 10
                           "classification" "crossEntropy" ;;
              run_through_network (A:=A) xor_data network)
  | AssertionError => AssertionError
  end.
End Construction.


(** ** What the theorems about a network of one layer speak of *)

Section OneLayerGradient.
Context {N : Numeric}.
Local Open Scope num_scope.

(** Column [a] of [n] rows of data of width [d] with a column of ones
    appended: the data's column for [a < d], the ones for [a = d]. *)
Definition augmented_column (n d : nat) (xs : list (F N)) (a : nat) : list (F N) :=
  map (fun i => nth a (row d xs i ++ [of_Z N 1]) (of_Z N 0)) (seq 0 n).

(** Entry [(a, b)] of [delta = gp.dot(acts[i].T, Ix)], for an [n] by [k]
    error signal [ix]: the sum over the samples of input [a] times the
    error of output [b]. *)
Definition delta_entry (n d k : nat) (xs ix : list (F N)) (a b : nat) : F N :=
  fsum (map2 (fmul N) (augmented_column n d xs a) (col n k ix b)).

(** One output unit without activation function: the output for sample
    [i] under the parameters [v] (the [d] weights, then the bias), the
    error signal for it, and input [a] of the sample, the appended 1 being
    input [d]. *)
Definition unit_output (d : nat) (xs : list (F N)) (v : vec N) (i : nat) : F N :=
  fsum (map2 (fmul N) (row d xs i) (firstn d v)) + nth d v (of_Z N 0).

Definition unit_error (d : nat) (xs ts ws : list (F N)) (v : vec N) (i : nat) : F N :=
  (unit_output d xs v i - nth i ts (of_Z N 0)) * nth i ws (of_Z N 0).

Definition augmented_entry (d : nat) (xs : list (F N)) (i a : nat) : F N :=
  nth a (row d xs i ++ [of_Z N 1]) (of_Z N 0).
End OneLayerGradient.

(** ** One layer of several output units *)

Section LayerGradient.
Context {N : Numeric}.
Local Open Scope num_scope.

(** The buffer of an [n] by [k] array whose entry [(i, b)] is [f i b]. *)
Definition grid (n k : nat) (f : nat -> nat -> F N) : list (F N) :=
  flat_map (fun i => map (f i) (seq 0 k)) (seq 0 n).

(** A layer of [k] units without activation function on inputs of width
    [d], under the parameters [v] (the [d] by [k] weights row by row, then
    the [k] biases): output [b] for sample [i], and the error signal for it
    when every sample has weight [c]. *)
Definition layer_output (d k : nat) (xs : list (F N)) (v : vec N) (i b : nat) : F N :=
  fsum (map (fun a => entry d xs i a * nth (a * k + b) v (of_Z N 0)) (seq 0 d))
  + nth (d * k + b) v (of_Z N 0).

Definition layer_error (d k : nat) (xs ts : list (F N)) (c : F N) (v : vec N) (i b : nat)
  : F N :=
  (layer_output d k xs v i b - entry k ts i b) * c.
End LayerGradient.

(** * Theorems *)

Unset Implicit Arguments.

(** ** The error monad and lists *)

Lemma bind_raises {T U : Type} (c : result T) (k : T -> result U) :
  (forall a, c = Ok a -> raises (k a)) -> raises (bind c k).
Proof.
  intros H. destruct c as [a | e]; simpl; [now apply H | now exists e].
Qed.

Lemma for_each_raises {T S : Type} (x : T) (l : list T) (body : T -> S -> result S)
    (st : S) :
  raises (body x st) -> raises (for_each (x :: l) body st).
Proof. intros [e He]. simpl. rewrite He. now exists e. Qed.

Lemma for_each_seq {T : Type} (P : nat -> T -> Prop) (body : nat -> T -> result T) :
  forall m a st,
    P a st ->
    (forall i st, a <= i < a + m -> P i st ->
                  exists st', body i st = Ok st' /\ P (1 + i) st') ->
    exists st', for_each (seq a m) body st = Ok st' /\ P (a + m) st'.
Proof.
  induction m as [ | m IH]; intros a st Ha Hstep; simpl.
  - exists st. now rewrite Nat.add_0_r.
  - destruct (Hstep a st) as (st1 & -> & H1); [lia | exact Ha | ]. simpl.
    destruct (IH (S a) st1 H1) as (st' & E & H').
    { intros i st2 Hi. apply Hstep. lia. }
    exists st'. split; [exact E | ]. now rewrite Nat.add_succ_r.
Qed.

Lemma firstn_plus {T : Type} (m n : nat) : forall l : list T,
  firstn (m + n) l = firstn m l ++ firstn n (skipn m l).
Proof.
  induction m as [ | m IH]; intros [ | x l]; simpl; auto.
  - now rewrite firstn_nil.
  - now rewrite IH.
Qed.

Lemma skipn_repeat {T : Type} (x : T) (m : nat) : forall n,
  skipn m (repeat x n) = repeat x (n - m).
Proof.
  induction m as [ | m IH]; intros [ | n]; simpl; auto.
Qed.

Lemma slice_app_middle {T : Type} (pre mid post : list T) :
  slice (pre ++ mid ++ post) (length pre) (length pre + length mid) = mid.
Proof.
  unfold slice. rewrite skipn_app, skipn_all, Nat.sub_diag. simpl.
  replace (length pre + length mid - length pre) with (length mid) by lia.
  rewrite firstn_app, firstn_all, Nat.sub_diag. simpl. apply app_nil_r.
Qed.

Lemma slice_slice_app {T : Type} (v : list T) (a b c : nat) :
  a <= b -> b <= c ->
  slice v a b ++ slice v b c = slice v a c.
Proof.
  intros Hab Hbc. unfold slice.
  replace (c - a) with ((b - a) + (c - b)) by lia.
  rewrite firstn_plus, skipn_skipn.
  now replace (b - a + a) with b by lia.
Qed.

Lemma slice_length {T : Type} (v : list T) (a b : nat) :
  b <= length v -> length (slice v a b) = b - a.
Proof. intros H. unfold slice. rewrite length_firstn, length_skipn. lia. Qed.

Lemma flat_map_length_const {T U : Type} (f : T -> list U) (k : nat) (l : list T) :
  (forall x, In x l -> length (f x) = k) -> length (flat_map f l) = length l * k.
Proof.
  induction l as [ | x l IH]; intros H; simpl; [reflexivity | ].
  rewrite length_app, H by now left.
  rewrite IH; [lia | ]. intros; apply H; now right.
Qed.

Lemma flat_map_ext_in {T U : Type} (f g : T -> list U) (l : list T) :
  (forall x, In x l -> f x = g x) -> flat_map f l = flat_map g l.
Proof.
  induction l as [ | x l IH]; intros H; simpl; [reflexivity | ].
  rewrite H by now left. f_equal. apply IH. intros; apply H; now right.
Qed.

Lemma map_flat_map_rows {T U V : Type} (f : U -> V) (g : T -> list U) (l : list T) :
  map f (flat_map g l) = flat_map (fun x => map f (g x)) l.
Proof.
  induction l as [ | x l IH]; simpl; [reflexivity | ]. now rewrite map_app, IH.
Qed.

Lemma flat_map_seq_shift {U : Type} (f : nat -> list U) (s m : nat) :
  flat_map (fun i => f (s + i)) (seq 0 m) = flat_map f (seq s m).
Proof.
  revert s. induction m as [ | m IH]; intros s; simpl; [reflexivity | ].
  rewrite Nat.add_0_r. f_equal. rewrite <- seq_shift, flat_map_concat_map, map_map.
  rewrite <- flat_map_concat_map, <- (IH (S s)). apply flat_map_ext.
  intros i. f_equal. lia.
Qed.

Lemma nth_flat_map_rows {U : Type} (f : nat -> nat -> U) (k h i j : nat) (d : U) :
  i < h -> j < k ->
  nth (i * k + j) (flat_map (fun i => map (f i) (seq 0 k)) (seq 0 h)) d = f i j.
Proof.
  intros Hi Hj.
  assert (Hgen : forall h a i, i < h ->
             nth (i * k + j) (flat_map (fun i => map (f i) (seq 0 k)) (seq a h)) d
             = f (a + i) j).
  { clear h i Hi. induction h as [ | h IH]; intros a i Hi; [lia | ]. simpl.
    destruct i as [ | i].
    - simpl. rewrite app_nth1 by now rewrite length_map, length_seq.
      rewrite (nth_indep _ d (f a 0)) by now rewrite length_map, length_seq.
      rewrite map_nth, seq_nth by exact Hj. now rewrite Nat.add_0_r.
    - rewrite app_nth2; rewrite length_map, length_seq; [ | simpl; lia].
      replace (S i * k + j - k) with (i * k + j) by (simpl; lia).
      rewrite IH by lia. f_equal. lia. }
  now apply (Hgen h 0 i).
Qed.

(** ** One-dimensional arrays *)

Section VectorFacts.
Context {N : Numeric}.

Lemma map2_length (op : F N -> F N -> F N) (a b : vec N) :
  length a = length b -> length (map2 op a b) = length a.
Proof.
  revert b; induction a as [ | x a IH]; intros [ | y b]; simpl; intros H;
    try discriminate; auto.
Qed.

Lemma vneg_length (a : vec N) : length (vneg a) = length a.
Proof. apply length_map. Qed.

Lemma vscale_length (c : F N) (a : vec N) : length (vscale c a) = length a.
Proof. apply length_map. Qed.

Lemma sdivv_length (c : F N) (a : vec N) : length (sdivv c a) = length a.
Proof. apply length_map. Qed.

Lemma vdot_returns (a b : vec N) :
  length a = length b -> exists d, vdot a b = Ok d.
Proof. intros H. unfold vdot. rewrite H, Nat.eqb_refl. eauto. Qed.

Lemma vbinop_returns (op : F N -> F N -> F N) (a b : vec N) :
  length a = length b ->
  exists c, vbinop op a b = Ok c /\ length c = length a.
Proof.
  intros H. unfold vbinop. rewrite (proj2 (Nat.eqb_eq _ _) H).
  eexists; split; [reflexivity | now apply map2_length].
Qed.

Lemma viadd_returns (a b : vec N) :
  length a = length b ->
  exists c, viadd a b = Ok c /\ length c = length a.
Proof.
  intros H. unfold viadd. rewrite (proj2 (Nat.eqb_eq _ _) H).
  eexists; split; [reflexivity | now apply map2_length].
Qed.

Lemma map2_map_seq (op : F N -> F N -> F N) (f : nat -> F N) (bs : list (F N)) :
  forall a, map2 op (map f (seq a (length bs))) bs
            = map (fun j => op (f (a + j)) (nth j bs (of_Z N 0))) (seq 0 (length bs)).
Proof.
  induction bs as [ | b bs IH]; intros a; simpl; [reflexivity | ].
  rewrite Nat.add_0_r. f_equal. rewrite IH, <- seq_shift, map_map.
  apply map_ext. intros j. now rewrite Nat.add_succ_r.
Qed.
End VectorFacts.

(** ** [minimize]: counters, termination, shapes *)

Section MinimizeFacts.
Context {N : Numeric}.
Variable fun_ : objective N.
Variable length_ : Z.
Local Open Scope Z_scope.

(** What one more evaluation does to the counters. *)
Lemma advance_counts s st z2 f3 d3 z3 limit st' :
  advance fun_ length_ s st z2 f3 d3 z3 limit = Ok st' ->
  ls_evals st' = ls_evals st ++ [ls_X st'] /\
  ls_i st' = (if length_ <? 0 then ls_i st + 1 else ls_i st).
Proof.
  unfold advance. intros H.
  bind_inv H. bind_inv H. destruct x0 as [f2 df2]. bind_inv H.
  injection H as <-. simpl. auto.
Qed.

Lemma advance_returns s st z2 f3 d3 z3 limit :
  shape_preserving fun_ -> numpy_valued fun_ -> length (ls_X st) = length s ->
  exists st', advance fun_ length_ s st z2 f3 d3 z3 limit = Ok st' /\
              search_shaped s st'.
Proof.
  intros Hf Hnp HX. unfold advance.
  destruct (viadd_returns (ls_X st) (vscale z2 s)) as (X & -> & HX').
  { now rewrite vscale_length. }
  simpl. destruct (Hf X) as (f2 & df2 & -> & Hg). simpl.
  destruct (vdot_returns df2 s) as (d2 & ->); [congruence | ].
  simpl. eexists; split; [reflexivity | ].
  repeat split; simpl; [congruence | congruence | apply Hnp].
Qed.

(** A line search with [M] evaluations left makes at most [M] of them. *)
Lemma line_search_counts f1 d1 s M : forall st success st',
  line_search fun_ length_ f1 d1 s M st = Ok (success, st') ->
  exists more : list (vec N),
    (length more <= M)%nat /\
    ls_evals st' = ls_evals st ++ more /\
    ls_i st' = (if length_ <? 0 then ls_i st + Z.of_nat (length more) else ls_i st).
Proof.
  induction M as [|M IH]; intros st success st' H; simpl in H.
  - exists []. rewrite app_nil_r, Z.add_0_r.
    destruct (not_acceptable f1 d1 st); [ | destruct (flt N _ _)];
      injection H as _ <-; destruct (length_ <? 0); auto.
  - assert (Hstep : forall st1 : @search N,
               (ls_evals st1 = ls_evals st ++ [ls_X st1] /\
                ls_i st1 = (if length_ <? 0 then ls_i st + 1 else ls_i st)) ->
               line_search fun_ length_ f1 d1 s M st1 = Ok (success, st') ->
               exists more : list (vec N),
                 (length more <= S M)%nat /\
                 ls_evals st' = ls_evals st ++ more /\
                 ls_i st' = (if length_ <? 0 then ls_i st + Z.of_nat (length more)
                             else ls_i st)).
    { intros st1 [He Hi] H1. apply IH in H1 as (more & Hk & Hev & Hi').
      exists (ls_X st1 :: more). rewrite Hev, Hi', He, Hi, <- app_assoc. simpl.
      destruct (length_ <? 0); repeat split; lia. }
    destruct (not_acceptable f1 d1 st).
    + bind_inv H. eapply Hstep; eauto. unfold interpolate in E.
      eapply advance_counts; eauto.
    + destruct (flt N _ _).
      * injection H as _ <-. exists [].
        rewrite Z.add_0_r, app_nil_r. simpl. destruct (length_ <? 0); auto with arith.
      * bind_inv H. eapply Hstep; eauto. unfold extrapolate in E.
        eapply advance_counts; eauto.
Qed.

Lemma line_search_returns f1 d1 s M : forall st,
  shape_preserving fun_ -> numpy_valued fun_ -> search_shaped s st ->
  exists success st', line_search fun_ length_ f1 d1 s M st = Ok (success, st') /\
                      search_shaped s st'.
Proof.
  assert (Hadv : forall (st : @search N) z2 f3 d3 z3 limit
                        (k : @search N -> result (bool * @search N)),
             shape_preserving fun_ -> numpy_valued fun_ -> search_shaped s st ->
             (forall st1 : @search N, search_shaped s st1 ->
                          exists success st', k st1 = Ok (success, st') /\
                                              search_shaped s st') ->
             exists success st',
               bind (advance fun_ length_ s st z2 f3 d3 z3 limit) k = Ok (success, st') /\
               search_shaped s st').
  { intros st z2 f3 d3 z3 limit k Hf Hnp [HX _] Hk.
    destruct (advance_returns s st z2 f3 d3 z3 limit Hf Hnp HX) as (st1 & E1 & H1).
    rewrite E1. simpl. now apply Hk. }
  induction M as [|M IH]; intros st Hf Hnp HX; simpl.
  - destruct (not_acceptable f1 d1 st); [eauto | ].
    destruct (flt N _ _); eauto.
  - destruct (not_acceptable f1 d1 st).
    + unfold interpolate. apply Hadv; auto.
    + destruct (flt N _ _); [eauto | ]. unfold extrapolate. apply Hadv; auto.
Qed.

(** One pass of the outer loop: a line search of at most [1 + MAX]
    evaluations; [i] grows by one when [length > 0] and by the number of
    evaluations when [length < 0]. *)
Lemma iteration_counts st stop st' :
  iteration fun_ length_ st = Ok (stop, st') ->
  cg_searches st' = S (cg_searches st) /\
  exists more : list (vec N),
    (1 <= length more <= 21)%nat /\
    cg_evals st' = cg_evals st ++ more /\
    (0 < length_ -> cg_i st' = cg_i st + 1) /\
    (length_ = 0 -> cg_i st' = cg_i st) /\
    (length_ < 0 -> cg_i st' = cg_i st + Z.of_nat (length more) /\
                    (cg_i st < - length_ -> cg_i st' <= - length_)).
Proof.
  unfold iteration, copy_cost. intros H.
  destruct (cg_f1_numpy st); [cbn [bind] in H | discriminate H].
  bind_inv H. bind_inv H. destruct x0 as [f2 df2]. bind_inv H. bind_inv H.
  destruct x1 as [success ls].
  apply line_search_counts in E2 as (more & Hk & Hev & Hi). simpl in Hev, Hi.
  assert (Hst : cg_searches st' = S (cg_searches st) /\
                cg_evals st' = ls_evals ls /\ cg_i st' = ls_i ls).
  { destruct success.
    - bind_inv H. injection H as _ <-. unfold on_success in E2.
      bind_inv E2. bind_inv E2. destruct x3 as [s' d2']. injection E2 as <-.
      simpl. auto.
    - unfold on_failure in H.
      destruct ((cg_ls_failed st =? 1) || (ls_i ls >? Z.abs length_));
        injection H as _ <-; simpl; auto. }
  destruct Hst as (Hs & He & Hi'). split; [exact Hs | ].
  exists (x :: more). rewrite He, Hev, Hi', Hi, <- app_assoc. simpl length.
  clear - Hk. unfold MAX in Hk.
  destruct (Z.ltb_spec length_ 0), (Z.gtb_spec length_ 0);
    repeat split; try reflexivity; try lia.
Qed.

Lemma new_direction_returns (df1 df2 s : vec N) :
  length df1 = length s -> length df2 = length s ->
  exists s', new_direction df1 df2 s = Ok s' /\ length s' = length s.
Proof.
  intros H1 H2. unfold new_direction.
  destruct (vdot_returns df2 df2) as (g22 & ->); [reflexivity | ].
  destruct (vdot_returns df1 df2) as (g12 & ->); [congruence | ].
  destruct (vdot_returns df1 df1) as (g11 & ->); [reflexivity | ].
  simpl. unfold vsub.
  destruct (vbinop_returns (fsub N) (sdivv (fsub N g22 g12) (vscale g11 s)) df2)
    as (s' & -> & Hs').
  { now rewrite sdivv_length, vscale_length. }
  exists s'. split; [reflexivity | ].
  now rewrite Hs', sdivv_length, vscale_length.
Qed.

Lemma iteration_returns st :
  shape_preserving fun_ -> numpy_valued fun_ -> well_shaped st ->
  exists stop st', iteration fun_ length_ st = Ok (stop, st') /\ well_shaped st'.
Proof.
  intros Hf Hnp (HX & Hg & Hc). unfold iteration, copy_cost. rewrite Hc. cbn [bind].
  destruct (vbinop_returns (fadd N) (cg_X st) (vscale (cg_z1 st) (cg_s st)))
    as (X & E & HX1).
  { now rewrite vscale_length. }
  unfold vadd. rewrite E. simpl.
  destruct (Hf X) as (f2 & df2 & -> & Hdf2). simpl.
  destruct (vdot_returns df2 (cg_s st)) as (d2 & ->); [congruence | ]. simpl.
  match goal with
  | |- context [line_search _ _ ?f1 ?d1 ?s ?M ?st0] =>
      destruct (line_search_returns f1 d1 s M st0 Hf Hnp)
        as (success & ls & -> & HlsX & Hlsg & Hlsc)
  end.
  { repeat split; simpl; [congruence | congruence | apply Hnp]. }
  simpl. destruct success.
  - unfold on_success.
    destruct (new_direction_returns (cg_df1 st) (ls_df2 ls) (cg_s st) Hg Hlsg)
      as (s' & -> & Hs'). simpl.
    destruct (flt N _ _).
    + destruct (vdot_returns (vneg (vneg (ls_df2 ls))) (vneg (ls_df2 ls))) as (d & ->).
      { now rewrite !vneg_length. }
      simpl. do 2 eexists. split; [reflexivity | ].
      repeat split; simpl; rewrite ?vneg_length; congruence.
    + simpl. do 2 eexists. split; [reflexivity | ]. repeat split; simpl; congruence.
  - unfold on_failure.
    destruct ((cg_ls_failed st =? 1) || (ls_i ls >? Z.abs length_));
      do 2 eexists; (split; [reflexivity | ]); repeat split; simpl; auto.
    all: rewrite vneg_length; congruence.
Qed.

Lemma loop_returns fuel : forall st,
  shape_preserving fun_ -> numpy_valued fun_ -> well_shaped st ->
  exists st', loop fun_ length_ fuel st = Ok st'.
Proof.
  induction fuel as [|fuel IH]; intros st Hf Hnp Hst; simpl; [eauto | ].
  destruct (cg_i st <? Z.abs length_); [ | eauto].
  destruct (iteration_returns st Hf Hnp Hst) as (stop & st' & -> & Hst'). simpl.
  destruct stop; eauto.
Qed.

Lemma loop_counted fuel : forall st st',
  counted length_ st -> loop fun_ length_ fuel st = Ok st' -> counted length_ st'.
Proof.
  induction fuel as [|fuel IH]; intros st st' Hc H; simpl in H.
  - now injection H as <-.
  - destruct (Z.ltb_spec (cg_i st) (Z.abs length_)) as [Hlt | _];
      [ | now injection H as <-].
    bind_inv H. destruct x as [stop st1].
    assert (Hc1 : counted length_ st1).
    { apply iteration_counts in E as (Hs & more & Hk & Hev & Hpos & _ & Hneg).
      destruct Hc as [Hcp Hcn]. split; intros Hl.
      - destruct (Hcp Hl) as [Hi _]. rewrite (Hpos Hl), Hs. lia.
      - destruct (Hcn Hl) as [Hi _]. destruct (Hneg Hl) as [Hi' Hle].
        rewrite Hi', Hev, length_app, Hi. split; [lia | ].
        rewrite <- Hi, <- Hi'. apply Hle. lia. }
    destruct stop; [now injection H as <- | eauto].
Qed.

Lemma initial_counted X st : initial fun_ length_ X = Ok st -> counted length_ st.
Proof.
  unfold initial. intros H. bind_inv H. destruct x as [f1 df1]. bind_inv H.
  injection H as <-. split; simpl; intros Hl.
  - destruct (Z.ltb_spec length_ 0); lia.
  - destruct (Z.ltb_spec length_ 0); lia.
Qed.

Lemma initial_returns X :
  shape_preserving fun_ -> numpy_valued fun_ ->
  exists st, initial fun_ length_ X = Ok st /\ well_shaped st.
Proof.
  intros Hf Hnp. unfold initial. destruct (Hf X) as (f1 & df1 & -> & Hg). simpl.
  destruct (vdot_returns (vneg (vneg df1)) (vneg df1)) as (d1 & ->).
  { now rewrite !vneg_length. }
  simpl. eexists. split; [reflexivity | ].
  repeat split; simpl; rewrite ?vneg_length; [congruence | congruence | apply Hnp].
Qed.

(** The evaluations are recorded in order: a pass of the loop only appends. *)
Lemma loop_evals fuel : forall st st',
  loop fun_ length_ fuel st = Ok st' -> exists more, cg_evals st' = cg_evals st ++ more.
Proof.
  induction fuel as [|fuel IH]; intros st st' H; simpl in H.
  - injection H as <-. exists []. now rewrite app_nil_r.
  - destruct (cg_i st <? Z.abs length_);
      [ | injection H as <-; exists []; now rewrite app_nil_r].
    bind_inv H. destruct x as [stop st1].
    apply iteration_counts in E as (_ & more & _ & Hev & _).
    destruct stop.
    + injection H as <-. eauto.
    + apply IH in H as (more' & ->). rewrite Hev, <- app_assoc. eauto.
Qed.

(** [|length|] passes are enough: with [i >= 0], more fuel changes nothing. *)
Lemma loop_fuel_enough fuel : forall st extra,
  0 <= cg_i st -> Z.abs length_ - cg_i st <= Z.of_nat fuel ->
  loop fun_ length_ (fuel + extra) st = loop fun_ length_ fuel st.
Proof.
  induction fuel as [|fuel IH]; intros st extra H0 Hfuel.
  - simpl. destruct extra; simpl; [reflexivity | ].
    destruct (Z.ltb_spec (cg_i st) (Z.abs length_)); [lia | reflexivity].
  - simpl. destruct (Z.ltb_spec (cg_i st) (Z.abs length_)) as [Hlt | _]; [ | reflexivity].
    destruct (iteration fun_ length_ st) as [[stop st1] | e] eqn:E; [ | reflexivity].
    simpl. destruct stop; [reflexivity | ].
    apply iteration_counts in E as (_ & more & Hk & _ & Hpos & Hzero & Hneg).
    apply IH.
    + destruct (Z.lt_trichotomy length_ 0) as [Hl | [Hl | Hl]].
      * destruct (Hneg Hl) as [-> _]. lia.
      * rewrite (Hzero Hl). lia.
      * rewrite (Hpos Hl). lia.
    + destruct (Z.lt_trichotomy length_ 0) as [Hl | [Hl | Hl]].
      * destruct (Hneg Hl) as [-> _]. lia.
      * lia.
      * rewrite (Hpos Hl). lia.
Qed.
End MinimizeFacts.

(** ** [minimize]: budget, direction update, descent *)

Section MinimizeOnBowl.
Local Open Scope float_scope.

(** The decimal literals of [minimize] are the doubles Python reads them as. *)
Lemma float_literals :
  @RHO float64 = 0x1.47ae147ae147bp-7 /\ @SIG float64 = 0.5 /\
  @INT float64 = 0x1.999999999999ap-4 /\ @EXT float64 = 3 /\ @RATIO float64 = 100.
Proof. repeat split. Qed.

Lemma bowl_shape_preserving : shape_preserving bowl.
Proof. intros x. do 2 eexists. split; [reflexivity | apply length_map]. Qed.

(** C10: [minimize] calls the objective at the starting point before
    anything else, whatever the budget: an exception of that call is the
    exception of [minimize].  With [length = 0] that is the only call: the
    result depends on the objective through what it returns at the starting
    point only, and when the call returns, the result is the starting
    point, an empty trace and a count of 0.  A budget of -1 is used up by
    that first call. *)
Theorem minimize_zero_budget (N : Numeric) (fun_ : objective N) (X : vec N) :
  (forall length_ e, fun_ X = Raise e -> minimize fun_ length_ X = Raise e) /\
  (forall fun' : objective N,
      fun' X = fun_ X -> minimize fun' 0 X = minimize fun_ 0 X) /\
  (forall f1 df1, fun_ X = Ok (f1, df1) ->
     minimize fun_ 0 X = Ok (X, [], 0%Z) /\
     (exists st, minimize_run fun_ 0 X = Ok st /\ cg_evals st = [X]) /\
     (exists st, minimize_run fun_ (-1) X = Ok st /\ cg_evals st = [X] /\
                 cg_X st = X /\ cg_fX st = [] /\ cg_i st = 1%Z) /\
     (forall length_ st, minimize_run fun_ length_ X = Ok st ->
                         exists more, cg_evals st = X :: more)).
Proof.
  assert (Hinit : forall (g : objective N) f1 df1 length_,
             g X = Ok (f1, df1) ->
             exists d1,
               initial g length_ X =
               Ok {| cg_X := X; cg_f1 := f1; cg_f1_numpy := numpy_cost g X;
                     cg_df1 := df1; cg_s := vneg df1; cg_d1 := d1;
                     cg_z1 := fdiv N red (fsub N (of_Z N 1) d1);
                     cg_i := if (length_ <? 0)%Z then 1%Z else 0%Z;
                     cg_ls_failed := 0%Z; cg_fX := []; cg_evals := [X];
                     cg_searches := 0 |}).
  { intros g f1 df1 length_ Hg. unfold initial. rewrite Hg. simpl.
    destruct (vdot_returns (vneg (vneg df1)) (vneg df1)) as (d1 & ->).
    { now rewrite !vneg_length. }
    simpl. eauto. }
  split; [ | split].
  - intros length_ e Hf. unfold minimize, minimize_run, initial. now rewrite Hf.
  - intros fun' Hsame. destruct (fun_ X) as [[f1 df1] | e] eqn:Hf.
    + unfold minimize, minimize_run.
      destruct (Hinit fun' f1 df1 0%Z Hsame) as (d1 & ->).
      destruct (Hinit fun_ f1 df1 0%Z Hf) as (d1' & ->). reflexivity.
    + unfold minimize, minimize_run, initial. now rewrite Hsame, Hf.
  - intros f1 df1 Hf. repeat split.
    + unfold minimize, minimize_run. destruct (Hinit fun_ f1 df1 0%Z Hf) as (d1 & ->).
      reflexivity.
    + unfold minimize_run. destruct (Hinit fun_ f1 df1 0%Z Hf) as (d1 & ->). simpl. eauto.
    + unfold minimize_run. destruct (Hinit fun_ f1 df1 (-1)%Z Hf) as (d1 & ->). simpl.
      eexists. split; [reflexivity | ]. simpl. auto.
    + intros length_ st H. unfold minimize_run in H.
      destruct (Hinit fun_ f1 df1 length_ Hf) as (d1 & E). rewrite E in H. simpl in H.
      apply loop_evals in H as (more & ->). simpl. eauto.
Qed.

Lemma minimize_zero_budget_witness :
  minimize bowl 0 origin4 = Ok (origin4, [], 0%Z) /\
  (exists st, minimize_run bowl 0 origin4 = Ok st /\ cg_evals st = [origin4]) /\
  (exists st, minimize_run bowl (-1) origin4 = Ok st /\ cg_evals st = [origin4] /\
              cg_X st = origin4 /\ cg_fX st = [] /\ cg_i st = 1%Z) /\
  (forall length_ st, minimize_run bowl length_ origin4 = Ok st ->
                      exists more, cg_evals st = origin4 :: more).
Proof.
  destruct (@minimize_zero_budget float64 bowl origin4) as (_ & _ & Hreturned).
  apply (Hreturned 0 [0.5; 0.5; 0.5; 0.5]).
  reflexivity.
Defined.

(** C3, as the code has it: with [length > 0] the count [i] is the number
    of line searches, with [length < 0] it is the number of calls of the
    objective, and in both modes [i <= |length|] whenever [minimize]
    returns.  It returns for every objective that returns a numpy scalar
    for the cost and a gradient as long as its argument; a cost that is a
    plain Python float at the starting point makes it raise AttributeError
    at [f1.copy()] as soon as the budget lets the loop begin. *)
Theorem minimize_budget_modes (N : Numeric) (fun_ : objective N)
    (length_ : Z) (X : vec N) :
  (shape_preserving fun_ -> numpy_valued fun_ ->
   returns (minimize_run fun_ length_ X)) /\
  (forall f1 df1, fun_ X = Ok (f1, df1) -> numpy_cost fun_ X = false ->
                  (0 < length_ \/ length_ < -1)%Z ->
                  minimize fun_ length_ X = Raise AttributeError) /\
  (forall st, minimize_run fun_ length_ X = Ok st ->
     minimize fun_ length_ X = Ok (cg_X st, cg_fX st, cg_i st) /\
     (0 < length_ -> cg_i st = Z.of_nat (cg_searches st) /\ cg_i st <= length_)%Z /\
     (length_ < 0 ->
      cg_i st = Z.of_nat (length (cg_evals st)) /\ cg_i st <= - length_)%Z).
Proof.
  split; [ | split].
  - intros Hf Hnp.
    destruct (initial_returns fun_ length_ X Hf Hnp) as (st0 & E0 & Hst0).
    destruct (loop_returns fun_ length_ (Z.to_nat (Z.abs length_)) st0 Hf Hnp Hst0)
      as (st & E).
    exists st. unfold minimize_run. rewrite E0. exact E.
  - intros f1 df1 Hf Hfloat Hl. unfold minimize, minimize_run, initial. rewrite Hf.
    cbn [bind]. destruct (vdot_returns (vneg (vneg df1)) (vneg df1)) as (d1 & ->).
    { now rewrite !vneg_length. }
    cbn [bind].
    destruct (Z.to_nat (Z.abs length_)) as [ | fuel] eqn:Efuel; [lia | ].
    cbn [loop cg_i].
    replace (((if (length_ <? 0)%Z then 1 else 0) <? Z.abs length_)%Z) with true
      by (destruct (Z.ltb_spec length_ 0); symmetry; apply Z.ltb_lt; lia).
    unfold iteration, copy_cost. cbn [cg_f1_numpy]. rewrite Hfloat. reflexivity.
  - intros st E. split.
    + unfold minimize. now rewrite E.
    + unfold minimize_run in E. bind_inv E.
      apply (loop_counted fun_ length_ (Z.to_nat (Z.abs length_)) x st); [ | exact E].
      exact (initial_counted fun_ length_ X x E0).
Qed.

Lemma minimize_budget_modes_witness :
  exists st,
    minimize_run bowl 2 origin4 = Ok st /\
    minimize bowl 2 origin4 = Ok (cg_X st, cg_fX st, cg_i st) /\
    cg_i st = Z.of_nat (cg_searches st) /\ (cg_i st <= 2)%Z.
Proof.
  destruct (minimize_budget_modes float64 bowl 2 origin4) as (Hreturns & _ & Hcounts).
  destruct Hreturns as [st E].
  { intros x. do 2 eexists. split; [reflexivity | apply length_map]. }
  { intros x. reflexivity. }
  exists st. destruct (Hcounts st E) as (Hmin & Hpos & _).
  split; [exact E | ]. split; [exact Hmin | ]. apply Hpos. reflexivity.
Defined.

(** C3 with the two modes the other way round fails: with [length = 2] the
    objective is called 23 times, and with [length = -4] the count is 4
    after 2 line searches. *)
Lemma minimize_budget_swapped_modes_fail :
  ~ (forall st, minimize_run bowl 2 origin4 = Ok st ->
                (Z.of_nat (length (cg_evals st)) <= 2)%Z) /\
  ~ (forall st, minimize_run bowl (-4) origin4 = Ok st ->
                cg_i st = Z.of_nat (cg_searches st)).
Proof.
  split; intros H.
  - destruct (minimize_run bowl 2 origin4) as [st | e] eqn:E; [ | vm_compute in E; discriminate].
    specialize (H st eq_refl). vm_compute in E. injection E as <-. vm_compute in H.
    now apply H.
  - destruct (minimize_run bowl (-4) origin4) as [st | e] eqn:E;
      [ | vm_compute in E; discriminate].
    specialize (H st eq_refl). vm_compute in E. injection E as <-. vm_compute in H.
    discriminate.
Qed.

(** C2: the direction the code computes divides by the old direction,
    entry by entry, where the Polack-Ribiere formula multiplies by it.  On
    [bowl] from the origin the first line search succeeds and the two
    differ. *)
Theorem new_direction_divides_by_direction :
  (forall (N : Numeric) (g1 g2 s : F N),
      new_direction [g1] [g2] [s] =
      Ok [fsub N (fdiv N (fsub N (fadd N (of_Z N 0) (fmul N g2 g2))
                                 (fadd N (of_Z N 0) (fmul N g1 g2)))
                         (fmul N (fadd N (of_Z N 0) (fmul N g1 g1)) s))
                 g2]) /\
  exists st0 st1,
    initial bowl 1 origin4 = Ok st0 /\
    iteration bowl 1 st0 = Ok (false, st1) /\
    cg_fX st1 = [-0.3125] /\
    cg_s st1 = [0.25; 0.25; 0.25; 0.25] /\
    polack_ribiere (cg_df1 st0) (cg_df1 st1) (cg_s st0)
    = Ok [-0.03125; -0.03125; -0.03125; -0.03125].
Proof.
  split; [reflexivity | ].
  do 2 eexists. split; [vm_compute; reflexivity | ].
  split; [vm_compute; reflexivity | ].
  repeat split.
Qed.

(** C7: after the first, successful, line search on [bowl] the new
    direction has a positive slope at the new gradient; it is not replaced
    by the negative gradient, the loop goes on to search along it, and that
    second search fails. *)
Theorem ascent_direction_is_kept :
  exists st0 st1 st2 slope,
    initial bowl 2 origin4 = Ok st0 /\
    iteration bowl 2 st0 = Ok (false, st1) /\
    cg_fX st1 = [-0.3125] /\
    cg_df1 st1 = [0.125; 0.125; 0.125; 0.125] /\
    cg_s st1 = [0.25; 0.25; 0.25; 0.25] /\
    vneg (cg_df1 st1) = [-0.125; -0.125; -0.125; -0.125] /\
    vdot (cg_df1 st1) (cg_s st1) = Ok slope /\
    (slope >? of_Z float64 0)%num = true /\
    (cg_i st1 <? Z.abs 2)%Z = true /\
    iteration bowl 2 st1 = Ok (false, st2) /\
    cg_ls_failed st2 = 1%Z /\
    minimize bowl 2 origin4 = Ok (cg_X st1, cg_fX st1, 2%Z).
Proof.
  do 4 eexists. split; [vm_compute; reflexivity | ].
  split; [vm_compute; reflexivity | ].
  do 4 (split; [reflexivity | ]).
  split; [vm_compute; reflexivity | ].
  split; [reflexivity | ]. split; [reflexivity | ].
  split; [vm_compute; reflexivity | ].
  split; [reflexivity | ]. vm_compute. reflexivity.
Qed.
End MinimizeOnBowl.

(** ** Single precision *)

(** The rounding by binary64 operations is the rounding to single precision
    of IEEE 754 on the sample numbers; 0.1 and -0.4 are no values of single
    precision, 1e-50 is rounded to zero. *)
Lemma float32_of_is_ieee :
  map float32_of float32_samples = map float32_ieee float32_samples /\
  map float32_of [0x1.999999999999ap-4; -0x1.999999999999ap-2; 0x1.dee7a4ad4b81fp-167;
                  0.5; 16777217]%float
  = [0x1.99999ap-4; -0x1.99999ap-2; 0; 0.5; 16777216]%float.
Proof. split; vm_compute; reflexivity. Qed.

(** [np.argmax] with a NaN among the entries: the index of the first NaN. *)
Lemma argmax_nan :
  argmax (@Arr1 float64 [1; nan; 5]%float) = Ok 1 /\
  argmax (@Arr1 float64 [nan; 1; 5]%float) = Ok 0 /\
  argmax (@Arr1 float64 [1; 5; 5; 2]%float) = Ok 1.
Proof. repeat split. Qed.

(** ** The parameter vector *)

Section FlattenFacts.
Context {N : Numeric}.

Lemma flatten_layer_wf (l : Layer N) :
  wf_layer l ->
  exists h w ws bs,
    W l = Arr2 h w ws /\ hbias l = Arr1 bs /\ length ws = h * w /\
    flatten_layer l = Ok (ws ++ bs).
Proof.
  unfold wf_layer, flatten_layer.
  destruct (W l) as [x | xs | h w ws]; try tauto.
  destruct (hbias l) as [x | bs | h' w' bs]; try tauto.
  intros Hws. exists h, w, ws, bs. repeat split; auto. simpl.
  unfold reshape1. simpl. rewrite Hws, Nat.eqb_refl. reflexivity.
Qed.

Lemma unflatten_layer_app (l : Layer N) h w ws bs (pre post : vec N) :
  W l = Arr2 h w ws -> hbias l = Arr1 bs -> length ws = h * w -> device_layer l ->
  unflatten_layer (pre ++ (ws ++ bs) ++ post) (length pre) l
  = Ok (l, length pre + length (ws ++ bs)).
Proof.
  intros HW Hb Hws [HdW Hdb]. unfold unflatten_layer. rewrite HW, Hb in *. simpl.
  rewrite <- Hws, <- !app_assoc, slice_app_middle.
  unfold reshape2. simpl. rewrite Hws, Nat.eqb_refl. simpl.
  replace (pre ++ ws ++ bs ++ post) with ((pre ++ ws) ++ bs ++ post)
    by now rewrite <- app_assoc.
  rewrite <- Hws, <- (length_app pre ws), slice_app_middle.
  rewrite !length_app, Nat.add_assoc.
  unfold garray in HdW, Hdb. simpl in HdW, Hdb.
  injection HdW as ->. injection Hdb as ->.
  destruct l; simpl in *. now subst.
Qed.

Lemma unflatten_flatten_from (network : list (Layer N)) :
  Forall wf_layer network -> Forall device_layer network ->
  exists v, flatten network = Ok v /\ length v = nparams network /\
            forall pre post,
              unflatten_from (pre ++ v ++ post) (length pre) network = Ok network.
Proof.
  induction 1 as [ | l network Hl _ IH]; intros Hdev; simpl.
  - exists []. auto.
  - inversion Hdev as [ | l0 network0 Hdl Hdn]; subst.
    destruct (IH Hdn) as (v & Hv & Hlen & IHv).
    destruct (flatten_layer_wf l Hl) as (h & w & ws & bs & HW & Hb & Hws & ->).
    rewrite Hv. simpl. eexists; split; [reflexivity | ]. split.
    + unfold nparams in *. simpl. unfold nparams_layer at 1. rewrite HW, Hb.
      rewrite !length_app. lia.
    + intros pre post. rewrite <- app_assoc.
      rewrite (unflatten_layer_app l h w ws bs pre (v ++ post) HW Hb Hws Hdl). simpl.
      rewrite <- length_app.
      replace (pre ++ (ws ++ bs) ++ v ++ post) with ((pre ++ ws ++ bs) ++ v ++ post)
        by now rewrite <- !app_assoc.
      rewrite IHv. reflexivity.
Qed.

Lemma map_slice {T U : Type} (f : T -> U) (v : list T) (s e : nat) :
  map f (slice v s e) = slice (map f v) s e.
Proof. unfold slice. now rewrite skipn_map, firstn_map. Qed.

Lemma flatten_unflatten_from (network : list (Layer N)) (v : vec N) :
  Forall wf_layer network ->
  forall ind, ind + nparams network <= length v ->
    exists network',
      unflatten_from v ind network = Ok network' /\
      flatten network' = Ok (slice (map (fsingle N) v) ind (ind + nparams network)).
Proof.
  induction 1 as [ | l network Hl _ IH]; intros ind Hlen; simpl.
  - eexists; split; [reflexivity | ]. simpl. unfold slice, nparams. simpl.
    now rewrite Nat.add_0_r, Nat.sub_diag.
  - unfold nparams in *. simpl in Hlen. simpl map. simpl list_sum.
    destruct (flatten_layer_wf l Hl) as (h & w & ws & bs & HW & Hb & Hws & _).
    assert (Hn : nparams_layer l = h * w + length bs).
    { unfold nparams_layer. now rewrite HW, Hb. }
    rewrite Hn in *. unfold unflatten_layer. rewrite HW, Hb. simpl.
    unfold reshape2. simpl.
    rewrite slice_length by lia.
    replace (ind + h * w - ind) with (h * w) by lia. rewrite Nat.eqb_refl. simpl.
    destruct (IH (ind + h * w + length bs)) as (network' & -> & Hfl); [lia | ].
    simpl. eexists; split; [reflexivity | ]. simpl.
    unfold flatten_layer. simpl. unfold reshape1. simpl.
    rewrite length_map, slice_length by lia.
    replace (ind + h * w - ind) with (h * w) by lia. rewrite Nat.eqb_refl. simpl.
    rewrite Hfl. simpl. f_equal.
    rewrite !map_slice.
    rewrite <- app_assoc, !slice_slice_app by (rewrite ?length_map; lia). f_equal. lia.
Qed.
End FlattenFacts.


(** C8, as the code has it: [gp.garray] stores the entries of [v] in single
    precision.  Unflattening the flattened network gives the network back
    when its arrays are device arrays, as the arrays of every network the
    program builds are; flattening the unflattened [v] gives [v] rounded to
    single precision, which is [v] only if its entries are values of single
    precision. *)
Theorem flatten_unflatten_inverse (N : Numeric) (network : list (Layer N)) :
  Forall wf_layer network ->
  (Forall device_layer network ->
   exists v, flatten network = Ok v /\ length v = nparams network /\
             unflatten v network = Ok network) /\
  (forall v : vec N, length v = nparams network ->
     exists network', unflatten v network = Ok network' /\
                      flatten network' = Ok (map (fsingle N) v)) /\
  (forall v : vec N, length v = nparams network -> map (fsingle N) v = v ->
     exists network', unflatten v network = Ok network' /\ flatten network' = Ok v).
Proof.
  intros Hwf.
  assert (Hround : forall v : vec N, length v = nparams network ->
            exists network', unflatten v network = Ok network' /\
                             flatten network' = Ok (map (fsingle N) v)).
  { intros v Hlen.
    destruct (flatten_unflatten_from network v Hwf 0) as (network' & Hun & Hfl); [lia | ].
    exists network'. split; [exact Hun | ]. rewrite Hfl. f_equal.
    unfold slice. simpl. rewrite Nat.sub_0_r, <- Hlen, <- (length_map (fsingle N) v).
    apply firstn_all. }
  split; [ | split].
  - intros Hdev.
    destruct (unflatten_flatten_from network Hwf Hdev) as (v & Hv & Hlen & Hun).
    exists v. split; [exact Hv | ]. split; [exact Hlen | ].
    specialize (Hun [] []). simpl in Hun. now rewrite app_nil_r in Hun.
  - exact Hround.
  - intros v Hlen Hsingle. destruct (Hround v Hlen) as (network' & Hun & Hfl).
    exists network'. split; [exact Hun | ]. now rewrite Hfl, Hsingle.
Qed.

(** The round trip of C8 on a 2-2-1 network whose weights are values of
    single precision. *)
Lemma flatten_unflatten_inverse_witness :
  (exists v, flatten xor_net_float = Ok v /\ length v = nparams xor_net_float /\
             unflatten v xor_net_float = Ok xor_net_float) /\
  (forall v : vec float64, length v = nparams xor_net_float ->
     exists network', unflatten v xor_net_float = Ok network' /\
                      flatten network' = Ok (map (fsingle float64) v)).
Proof.
  destruct (flatten_unflatten_inverse float64 xor_net_float) as (Hnet & Hvec & _).
  { repeat constructor. }
  split; [ | exact Hvec].
  apply Hnet. repeat constructor.
Defined.

(** C8 as it was claimed fails for a vector of binary64 numbers: 0.1 is no
    value of single precision, and comes back as 0.100000001490116. *)
Lemma flatten_unflatten_rounds :
  ~ (forall v : vec float64, length v = nparams xor_net_float ->
       exists network', unflatten v xor_net_float = Ok network' /\
                        flatten network' = Ok v).
Proof.
  intros H.
  destruct (H (repeat 0x1.999999999999ap-4%float 9) eq_refl) as (network' & Hun & Hfl).
  vm_compute in Hun. injection Hun as <-. vm_compute in Hfl. discriminate Hfl.
Qed.

(** ** [get_activation]: chunks of 128 rows *)

Section ChunkFacts.
Context {N : Numeric} {A : Activation N}.
Local Abbreviation zero := (of_Z N 0).

Lemma row_slice (d : nat) (xs : list (F N)) (s e i : nat) :
  s + i < e -> e * d <= length xs ->
  row d (slice xs (s * d) (e * d)) i = row d xs (s + i).
Proof.
  intros Hi Hlen. unfold row, slice.
  rewrite skipn_firstn_comm, firstn_firstn, skipn_skipn.
  replace (i * d + d - i * d) with d by lia.
  replace ((s + i) * d + d - (s + i) * d) with d by lia.
  replace (i * d + s * d) with ((s + i) * d) by lia.
  f_equal. assert ((s + i) * d + d <= e * d) by nia. nia.
Qed.

Lemma affine_row_length (d k : nat) (ws bs X : list (F N)) (i : nat) :
  length (affine_row d k ws bs X i) = k.
Proof. unfold affine_row. now rewrite length_map, length_seq. Qed.

Lemma affine_row_slice (d k : nat) (ws bs xs : list (F N)) (s e i : nat) :
  s + i < e -> e * d <= length xs ->
  affine_row d k ws bs (slice xs (s * d) (e * d)) i = affine_row d k ws bs xs (s + i).
Proof. intros Hi Hlen. unfold affine_row. now rewrite row_slice. Qed.

(** [gp.dot(X, W) + hbias], row by row, whether the bias is added through
    the equal-shape path (one row) or broadcast. *)
Lemma dot_add_rows (d k : nat) (ws bs : list (F N)) (h : nat) (X : list (F N)) :
  length bs = k ->
  bind (dot (Arr2 h d X) (Arr2 d k ws)) (fun prod => add prod (Arr1 bs))
  = Ok (Arr2 h k (flat_map (affine_row d k ws bs X) (seq 0 h))).
Proof.
  intros Hbs. simpl. rewrite Nat.eqb_refl. simpl. unfold add. simpl. unfold broadcast2.
  rewrite Hbs, Nat.eqb_refl, andb_true_r.
  destruct (Nat.eqb_spec h 1) as [-> | Hh].
  - f_equal. f_equal. unfold matmul. simpl. rewrite !app_nil_r.
    unfold affine_row. rewrite <- Hbs at 1. rewrite map2_map_seq.
    rewrite Hbs. reflexivity.
  - unfold bdim. rewrite (proj2 (Nat.eqb_neq h 1) Hh).
    simpl. rewrite Nat.eqb_refl. simpl.
    f_equal. f_equal. apply flat_map_ext_in. intros i Hi. apply in_seq in Hi.
    unfold affine_row. apply map_ext_in. intros j Hj. apply in_seq in Hj.
    unfold bentry. rewrite (proj2 (Nat.eqb_neq h 1) Hh). simpl Nat.eqb.
    assert (Hj' : (if k =? 1 then 0 else j) = j).
    { destruct (Nat.eqb_spec k 1); lia. }
    rewrite Hj'. unfold entry at 1 2. simpl. unfold matmul.
    rewrite (nth_flat_map_rows
               (fun i j => fsum (map2 (fmul N) (row d X i) (col d k ws j))))
      by lia.
    reflexivity.
Qed.

(** The entries of [breaks]. *)
Lemma py_range_length (n : nat) :
  length (py_range 0 n 128) = (n + 127) / 128.
Proof. unfold py_range. now rewrite length_map, length_seq, Nat.sub_0_r. Qed.

Lemma breaks_nth (n i : nat) :
  i <= (n + 127) / 128 ->
  nth i (py_range 0 n 128 ++ [n]) 0 = Nat.min (i * 128) n.
Proof.
  intros Hi. pose proof (Nat.div_mod_eq (n + 127) 128) as Hdm.
  assert (Hmod : (n + 127) mod 128 < 128) by (apply Nat.mod_upper_bound; lia).
  destruct (Nat.eq_dec i ((n + 127) / 128)) as [-> | Hne].
  - rewrite app_nth2 by (rewrite py_range_length; lia).
    rewrite py_range_length, Nat.sub_diag. cbn [nth]. lia.
  - rewrite app_nth1 by (rewrite py_range_length; lia).
    unfold py_range. rewrite Nat.sub_0_r. change (128 - 1) with 127.
    rewrite (nth_indep _ 0 (0 + 0 * 128)) by (rewrite length_map, length_seq; lia).
    rewrite (map_nth (fun k => 0 + k * 128)), seq_nth by lia. lia.
Qed.

Section Chunking.
Variables (layer : Layer N) (n d k : nat) (xs ws bs : list (F N)).
Hypothesis HW : W layer = Arr2 d k ws.
Hypothesis Hb : hbias layer = Arr1 bs.
Hypothesis Hk : n_hidden layer = k.
Hypothesis Hxs : length xs = n * d.
Hypothesis Hbs : length bs = k.

Local Abbreviation rows := (flat_map (out_row (A:=A) layer d k ws bs xs)).

Lemma out_row_length i : length (out_row (A:=A) layer d k ws bs xs i) = k.
Proof.
  unfold out_row. destruct (String.eqb _ _);
    rewrite ?length_map; now apply affine_row_length.
Qed.

Lemma out_rows_length s m : length (rows (seq s m)) = m * k.
Proof.
  rewrite (flat_map_length_const _ k), length_seq; [reflexivity | ].
  intros; apply out_row_length.
Qed.

Lemma single_pass_rows :
  single_pass (A:=A) layer (Arr2 n d xs) = Ok (Arr2 n k (rows (seq 0 n))).
Proof.
  unfold single_pass. rewrite HW, Hb.
  pose proof (dot_add_rows d k ws bs n xs Hbs) as H.
  destruct (dot (Arr2 n d xs) (Arr2 d k ws)) as [prod | e]; [ | discriminate].
  simpl in H. simpl. rewrite H. simpl. unfold out_row.
  destruct (String.eqb _ _); [ | reflexivity].
  simpl. now rewrite map_flat_map_rows.
Qed.

(** One chunk fills its rows of [hid]. *)
Lemma activation_chunk_rows (breaks : list nat) (i s e : nat) :
  nth i breaks 0 = s -> nth (i + 1) breaks 0 = e -> s <= e -> e <= n ->
  activation_chunk (A:=A) layer (Arr2 n d xs) breaks i
    (Arr2 n k (rows (seq 0 s) ++ repeat zero ((n - s) * k)))
  = Ok (Arr2 n k (rows (seq 0 e) ++ repeat zero ((n - e) * k))).
Proof.
  intros Hs He Hse Hen. unfold activation_chunk. rewrite Hs, He, HW, Hb.
  cbn [getslice bind]. rewrite (Nat.min_l e n Hen).
  pose proof (dot_add_rows d k ws bs (e - s) (slice xs (s * d) (e * d)) Hbs) as H.
  destruct (dot (Arr2 (e - s) d (slice xs (s * d) (e * d))) (Arr2 d k ws))
    as [prod | err]; [ | discriminate].
  cbn [bind] in H |- *. rewrite H. cbn [bind as_numpy_array].
  assert (Hrows : flat_map (affine_row d k ws bs (slice xs (s * d) (e * d)))
                    (seq 0 (e - s))
                  = flat_map (affine_row d k ws bs xs) (seq s (e - s))).
  { rewrite <- (flat_map_seq_shift (affine_row d k ws bs xs) s (e - s)).
    apply flat_map_ext_in. intros j Hj.
    apply in_seq in Hj. apply affine_row_slice; [lia | nia]. }
  rewrite Hrows.
  assert (Hset : forall ys, length ys = (e - s) * k ->
             setrows (Arr2 n k (rows (seq 0 s) ++ repeat zero ((n - s) * k)))
                     s e (Arr2 (e - s) k ys)
             = Ok (Arr2 n k (rows (seq 0 s) ++ ys ++ repeat zero ((n - e) * k)))).
  { intros ys Hys. unfold setrows. rewrite (Nat.min_l e n Hen). unfold stretch.
    rewrite !Nat.eqb_refl. cbn [andb bind]. f_equal. f_equal. unfold splice.
    rewrite firstn_app, out_rows_length, Nat.sub_diag. cbn [firstn].
    rewrite app_nil_r, firstn_all2 by (rewrite out_rows_length; lia).
    f_equal. f_equal.
    rewrite skipn_app, out_rows_length, skipn_all2 by (rewrite out_rows_length; nia).
    cbn [app]. rewrite skipn_repeat. f_equal. nia. }
  assert (Hsplit : rows (seq 0 e) = rows (seq 0 s) ++ rows (seq s (e - s))).
  { replace e with (s + (e - s)) at 1 by lia.
    now rewrite seq_app, flat_map_app. }
  rewrite Hsplit, <- app_assoc.
  assert (Hout : rows (seq s (e - s))
                 = if String.eqb (hidtype layer) "sigmoid"
                   then map (logistic A)
                            (flat_map (affine_row d k ws bs xs) (seq s (e - s)))
                   else flat_map (affine_row d k ws bs xs) (seq s (e - s))).
  { unfold out_row. destruct (String.eqb _ _); [ | reflexivity].
    now rewrite map_flat_map_rows. }
  rewrite <- (Hset (rows (seq s (e - s)))) by apply out_rows_length.
  rewrite Hout. now destruct (String.eqb _ _).
Qed.

Lemma get_activation_rows :
  get_activation (A:=A) layer (Arr2 n d xs) = Ok (Arr2 n k (rows (seq 0 n))).
Proof.
  unfold get_activation. simpl shape0. simpl bind. rewrite Hk.
  rewrite length_app, py_range_length. simpl length.
  replace ((n + 127) / 128 + 1 - 1) with ((n + 127) / 128) by lia.
  set (c := (n + 127) / 128). set (breaks := py_range 0 n 128 ++ [n]).
  pose proof (Nat.div_mod_eq (n + 127) 128) as Hdm.
  assert (Hmod : (n + 127) mod 128 < 128) by (apply Nat.mod_upper_bound; lia).
  destruct (for_each_seq
              (fun i hid =>
                 hid = Arr2 n k (rows (seq 0 (Nat.min (i * 128) n))
                                 ++ repeat zero ((n - Nat.min (i * 128) n) * k)))
              (activation_chunk (A:=A) layer (Arr2 n d xs) breaks) c 0 (zeros2 n k))
    as (hid & E & Hhid).
  - simpl. now rewrite Nat.sub_0_r.
  - intros i st Hi ->. eexists. split; [ | reflexivity].
    apply activation_chunk_rows.
    + apply breaks_nth. fold c. lia.
    + rewrite Nat.add_comm. apply breaks_nth. fold c. lia.
    + lia.
    + lia.
  - unfold range. rewrite E. f_equal. rewrite Hhid. simpl.
    replace (Nat.min (c * 128) n) with n by (subst c; lia).
    now rewrite Nat.sub_diag, app_nil_r.
Qed.
End Chunking.
End ChunkFacts.

(** C9: evaluating a layer in chunks of 128 rows returns, and returns what
    one pass over the whole batch gives. *)
Theorem get_activation_chunking (N : Numeric) (A : Activation N) (layer : Layer N)
    (n d k : nat) (xs ws bs : list (F N)) :
  W layer = Arr2 d k ws -> hbias layer = Arr1 bs -> n_hidden layer = k ->
  length xs = n * d -> length bs = k ->
  returns (get_activation (A:=A) layer (Arr2 n d xs)) /\
  get_activation (A:=A) layer (Arr2 n d xs) = single_pass (A:=A) layer (Arr2 n d xs).
Proof.
  intros HW Hb Hk Hxs Hbs.
  rewrite (get_activation_rows layer n d k xs ws bs HW Hb Hk Hxs Hbs).
  rewrite (single_pass_rows layer n d k xs ws bs HW Hb Hbs).
  split; [eexists | ]; reflexivity.
Qed.

Lemma get_activation_chunking_witness :
  returns (get_activation (A:=sigmoid) sigmoid_layer (@Arr2 reals 300 2 batch300)) /\
  get_activation (A:=sigmoid) sigmoid_layer (@Arr2 reals 300 2 batch300)
  = single_pass (A:=sigmoid) sigmoid_layer (@Arr2 reals 300 2 batch300).
Proof.
  apply (get_activation_chunking reals sigmoid sigmoid_layer 300 2 2 batch300
           [1; -1; 2; 0]%R [0; 1]%R); reflexivity.
Defined.

(** ** [train] and [doBackprop] *)

Section TrainFacts.
Context {N : Numeric} {A : Activation N}.

(** [self.weights] is one-dimensional: [self.weights[idx, :]] raises. *)
Lemma take_rows_ones1 (n : nat) (idx : list nat) :
  take_rows (N:=N) (ones1 n) idx = Raise IndexError.
Proof. reflexivity. Qed.

Lemma batches_nonempty (n : nat) :
  exists b rest, batches (S n) = b :: rest.
Proof.
  unfold batches, py_range. rewrite Nat.sub_0_r.
  assert (H : 1 <= (S n + (batch_size - 1)) / batch_size).
  { unfold batch_size. change (128 - 1) with 127.
    apply Nat.div_le_lower_bound; lia. }
  destruct ((S n + (batch_size - 1)) / batch_size) as [ | c]; [lia | ].
  simpl. eauto.
Qed.

Lemma doBackprop_raises (targetCost : string) (n : nat) (data targets : ndarray N)
    (index : list nat) (network : list (Layer N)) :
  raises (doBackprop (A:=A) targetCost (S n) data targets (ones1 (S n)) index network).
Proof.
  unfold doBackprop. destruct (batches_nonempty n) as (b & rest & ->).
  apply for_each_raises. unfold backprop_batch.
  apply bind_raises; intros tmpX _. apply bind_raises; intros tmpT _.
  rewrite take_rows_ones1. now exists IndexError.
Qed.

(** On data with at least one row and [max_iter >= 1], whatever the network,
    the shuffles and the configuration, [train] raises. *)
Lemma train_raises (shuffle : nat -> list nat -> list nat) (network : list (Layer N))
    (n m : nat) (xs : list (F N)) (targets : ndarray N)
    (valid : option (ndarray N * ndarray N)) (max_iter : nat)
    (validErrFunc targetCost : string) :
  raises (train (A:=A) shuffle network (Arr2 (S n) m xs) targets valid (S max_iter)
            validErrFunc targetCost).
Proof.
  unfold train. simpl shape2. cbn [bind].
  apply bind_raises; intros numunits _.
  apply bind_raises. intros network' Hloop. exfalso.
  change (range (S max_iter)) with (0 :: seq 1 max_iter) in Hloop.
  match type of Hloop with
  | for_each _ ?body ?st = _ =>
      destruct (for_each_raises 0 (seq 1 max_iter) body st) as [e He]
  end.
  - apply bind_raises; intros _ _. apply doBackprop_raises.
  - rewrite He in Hloop. discriminate.
Qed.
End TrainFacts.

(** C6: [train] on the data of [demo_xor], with a network of the shape the
    demo builds, whatever its weights, the shuffles, the number of
    iterations [>= 1] and the configuration: it raises, and with the demo's
    configuration and shuffles that leave the order the exception is the
    IndexError of [self.weights[index[batch:batchend],:]]. *)
Theorem train_xor_raises (N : Numeric) (A : Activation N)
    (w1 w2 w3 w4 b1 b2 u1 u2 c1 : F N) :
  (forall (shuffle : nat -> list nat -> list nat) (max_iter : nat)
          (validErrFunc targetCost : string),
      raises (train (A:=A) shuffle (xor_net w1 w2 w3 w4 b1 b2 u1 u2 c1)
                xor_data xor_targets None (S max_iter) validErrFunc targetCost)) /\
  train (A:=A) (fun _ index => index) (xor_net w1 w2 w3 w4 b1 b2 u1 u2 c1)
        xor_data xor_targets None 10 "classification" "crossEntropy"
  = Raise IndexError.
Proof.
  split.
  - intros shuffle max_iter validErrFunc targetCost. apply train_raises.
  - vm_compute. reflexivity.
Qed.

(** *** The batches of an epoch *)

(** When [n] is above 128 and no multiple of it, the last two passes both
    run to the end, the last one inside the one before. *)
Lemma batches_overlap (n : nat) :
  128 < n -> n mod 128 <> 0 ->
  exists rest b, batches n = rest ++ [(b, n); (b + 128, n)] /\ b + 128 < n.
Proof.
  intros Hn Hmod. unfold batches, py_range, batch_size.
  rewrite Nat.sub_0_r. change (128 - 1) with 127.
  pose proof (Nat.div_mod_eq n 128) as Hdm.
  assert (Hlt : n mod 128 < 128) by (apply Nat.mod_upper_bound; lia).
  assert (Hc : (n + 127) / 128 = S (S (n / 128 - 1))).
  { assert (H1 : (n + 127) / 128 = n / 128 + 1).
    { symmetry. apply (Nat.div_unique (n + 127) 128 (n / 128 + 1) (n mod 128 - 1)); lia. }
    rewrite H1. lia. }
  rewrite Hc. set (q := n / 128 - 1).
  assert (Hq : n = q * 128 + 128 + n mod 128) by (subst q; lia).
  clearbody q.
  replace (S (S q)) with (q + 2) by lia. rewrite seq_app, !map_app. cbn [seq map].
  exists (map (fun batch => (batch, batchend n batch))
              (map (fun k => 0 + k * 128) (seq 0 q))), (q * 128).
  split.
  - f_equal. unfold batchend, batch_size. cbn [Nat.add].
    replace (Nat.ltb n (q * 128 + 2 * 128)) with true
      by (symmetry; apply Nat.ltb_lt; lia).
    replace (Nat.ltb n (S q * 128 + 2 * 128)) with true
      by (symmetry; apply Nat.ltb_lt; lia).
    now replace (S q * 128) with (q * 128 + 128) by lia.
  - lia.
Qed.

(** Multiples of 128, and up to 128 samples, are cut exactly. *)
Lemma batches_exact (n : nat) :
  n mod 128 = 0 ->
  batches n = map (fun i => (i * 128, i * 128 + 128)) (seq 0 (n / 128)).
Proof.
  intros Hmod. unfold batches, py_range, batch_size.
  rewrite Nat.sub_0_r. change (128 - 1) with 127.
  pose proof (Nat.div_mod_eq n 128) as Hdm.
  assert (Hc : (n + 127) / 128 = n / 128).
  { symmetry. apply (Nat.div_unique (n + 127) 128 (n / 128) 127); lia. }
  rewrite Hc, map_map. apply map_ext_in. intros i Hi. apply in_seq in Hi.
  cbn [Nat.add]. f_equal. unfold batchend, batch_size.
  destruct (Nat.ltb_spec n (i * 128 + 2 * 128)); lia.
Qed.

Lemma batches_small (n : nat) : 0 < n <= 128 -> batches n = [(0, n)].
Proof.
  intros Hn. unfold batches, py_range, batch_size.
  rewrite Nat.sub_0_r. change (128 - 1) with 127.
  assert (Hc : (n + 127) / 128 = 1).
  { symmetry. apply (Nat.div_unique (n + 127) 128 1 (n - 1)); lia. }
  rewrite Hc. cbn [seq map Nat.add Nat.mul]. unfold batchend, batch_size.
  replace (Nat.ltb n (0 + 2 * 128)) with true by (symmetry; apply Nat.ltb_lt; lia).
  reflexivity.
Qed.

(** C5: for 300 samples the loop of [doBackprop] makes three batches; the
    second one runs to the end, and the third one takes rows 256 to 299
    again, 44 of them.  So it is for every [n] above 128 that is no
    multiple of 128. *)
Theorem batches_reuse_the_tail :
  batches 300 = [(0, 128); (128, 300); (256, 300)] /\
  (let used := flat_map (fun b => slice (range 300) (fst b) (snd b)) (batches 300) in
   length used = 344 /\ count_occ Nat.eq_dec used 256 = 2) /\
  (forall n, 128 < n -> n mod 128 <> 0 ->
     exists rest b, batches n = rest ++ [(b, n); (b + 128, n)] /\ b + 128 < n).
Proof.
  split; [reflexivity | ]. split; [split; reflexivity | ].
  exact batches_overlap.
Qed.

(** ** [backprop_gradient] *)

Section ScaleFacts.
Context {N : Numeric}.

Lemma length_concat_repeat (ws : list (F N)) (k : nat) :
  length (concat (repeat ws k)) = k * length ws.
Proof.
  induction k as [ | k IH]; simpl; [reflexivity | ].
  now rewrite length_app, IH.
Qed.

(** With one-dimensional weights the tiled buffer is the weights, [k]
    times over, cut into rows of [k]: entry [(i, j)] is scaled by
    [weights[(i*k + j) mod n]]. *)
Lemma scale_by_weights_1d (n k : nat) (xs ws : list (F N)) :
  length ws = n ->
  scale_by_weights (Arr2 n k xs) (Arr1 ws)
  = Ok (Arr2 n k (map2 (fmul N) xs (concat (repeat ws k)))).
Proof.
  intros Hws. unfold scale_by_weights. simpl. unfold reshape2. simpl.
  rewrite length_concat_repeat, Hws, Nat.mul_comm, Nat.eqb_refl. simpl.
  unfold mul. simpl. unfold broadcast2. now rewrite !Nat.eqb_refl.
Qed.
End ScaleFacts.

(** C4: with the one-dimensional weights [train] builds, two samples and two
    output columns, the second entry of the first row is scaled by the
    weight of the second sample and the first entry of the second row by
    the weight of the first; the cost next to it weights row by row.  A
    column of weights, of shape (2, 1), scales row by row. *)
Theorem scale_by_weights_mixes_samples (N : Numeric) (A : Activation N)
    (a b c d t1 t2 t3 t4 w0 w1 : F N) :
  scale_by_weights (Arr2 2 2 [a; b; c; d]) (Arr1 [w0; w1])
  = Ok (Arr2 2 2 [a * w0; b * w1; c * w0; d * w1])%num /\
  scale_by_weights (Arr2 2 2 [a; b; c; d]) (Arr2 2 1 [w0; w1])
  = Ok (Arr2 2 2 [a * w0; b * w0; c * w1; d * w1])%num /\
  output_error (A:=A) "linSquaredErr" 2 (Arr2 2 2 [a; b; c; d])
    (Arr2 2 2 [t1; t2; t3; t4]) (Arr1 [w0; w1])
  = Ok (of_Z N 1 / of_Z N 2 *
        (of_Z N 0
         + (of_Z N 0 + (a - t1) * (a - t1) + (b - t2) * (b - t2)) * w0
         + (of_Z N 0 + (c - t3) * (c - t3) + (d - t4) * (d - t4)) * w1),
        Arr2 2 2 [a - t1; b - t2; c - t3; d - t4])%num.
Proof. repeat split. Qed.

(** C1: the vector [backprop_gradient] returns is not the gradient of the
    cost it returns.  On one identity layer from 2 inputs to 2 outputs the
    entries for [W[0,1]] and [W[1,0]] are exchanged, and the central
    difference at step 1e-5 is off by more than 1e-4; behind a sigmoid layer
    the error signal handed down is the bias column alone, not the other
    columns, and on the network of [demo_xor] the entries of the output
    layer are written three places early, the last three staying 0; behind
    an identity layer the call raises. *)
Theorem backprop_gradient_is_not_the_gradient :
  (forall A : Activation float64,
      backprop_gradient (A:=A) "linSquaredErr" linear22 sample_X sample_T
        sample_weights zeros6
      = Ok (2.5, [-1; 0; -2; 0; -1; -2])%float /\
      (forall j, In j [1; 2] ->
         exists numeric,
           central_difference
             (cost_of (A:=A) "linSquaredErr" linear22 sample_X sample_T sample_weights)
             zeros6 j step = Ok numeric /\
           (PrimFloat.abs (nth j [-1; 0; -2; 0; -1; -2] 0 - numeric) <? tolerance)%float
           = false)) /\
  (forall (N : Numeric) (w1 w2 w3 w4 b1 b2 u1 u2 c1 a b c d e f : F N),
      backpropagate (xor_net w1 w2 w3 w4 b1 b2 u1 u2 c1) 1
        (Arr2 2 3 [a; b; of_Z N 1; c; d; of_Z N 1]) (Arr2 2 1 [e; f])
      = Ok (Arr1 [(of_Z N 0 + e * c1) * of_Z N 1 * (of_Z N 1 - of_Z N 1);
                  (of_Z N 0 + f * c1) * of_Z N 1 * (of_Z N 1 - of_Z N 1)])%num /\
      backpropagate_as_specified (xor_net w1 w2 w3 w4 b1 b2 u1 u2 c1) 1
        (Arr2 2 3 [a; b; of_Z N 1; c; d; of_Z N 1]) (Arr2 2 1 [e; f])
      = Ok (Arr2 2 2 [(of_Z N 0 + e * u1) * a * (of_Z N 1 - a);
                      (of_Z N 0 + e * u2) * b * (of_Z N 1 - b);
                      (of_Z N 0 + f * u1) * c * (of_Z N 1 - c);
                      (of_Z N 0 + f * u2) * d * (of_Z N 1 - d)])%num) /\
  (forall (N : Numeric) (A : Activation N) (w1 w2 w3 w4 b1 b2 u1 u2 c1 : F N),
      exists cost g0 g1 g2 g3 g4 g5,
        backprop_gradient (A:=A) "crossEntropy" (xor_net w1 w2 w3 w4 b1 b2 u1 u2 c1)
          xor_data xor_targets (ones1 4) [w1; w2; w3; w4; b1; b2; u1; u2; c1]
        = Ok (cost, [g0; g1; g2; g3; g4; g5; of_Z N 0; of_Z N 0; of_Z N 0])) /\
  (forall (N : Numeric) (A : Activation N) (w1 w2 w3 w4 b1 b2 u1 u2 c1 : F N),
      backprop_gradient (A:=A) "linSquaredErr" (gaussian_net w1 w2 w3 w4 b1 b2 u1 u2 c1)
        xor_data xor_targets (ones1 4) [w1; w2; w3; w4; b1; b2; u1; u2; c1]
      = Raise AttributeError).
Proof.
  split; [ | split; [ | split]].
  - intros A. split; [vm_compute; reflexivity | ].
    intros j [<- | [<- | []]]; eexists; (split; [vm_compute; reflexivity | ]);
      vm_compute; reflexivity.
  - intros. split; reflexivity.
  - intros. do 7 eexists. lazy. reflexivity.
  - intros. vm_compute. reflexivity.
Qed.


(** * Further theorems *)

(** ** [minimize]: what a run leaves behind *)

Section MinimizeRuns.
Context {N : Numeric}.
Variable fun_ : objective N.
Variable length_ : Z.
Local Open Scope Z_scope.

Lemma advance_evaluated s st z2 f3 d3 z3 limit st' :
  advance fun_ length_ s st z2 f3 d3 z3 limit = Ok st' -> search_evaluated fun_ st'.
Proof.
  unfold advance, search_evaluated. intros H.
  bind_inv H. destruct (fun_ x) as [[f2 df2] | e] eqn:Ef; [ | discriminate].
  cbn [bind] in H. bind_inv H. injection H as <-. simpl. exact Ef.
Qed.

Lemma line_search_evaluated f1 d1 s M : forall st success st',
  line_search fun_ length_ f1 d1 s M st = Ok (success, st') ->
  search_evaluated fun_ st -> search_evaluated fun_ st'.
Proof.
  induction M as [ | M IH]; intros st success st' H Hst; simpl in H.
  - destruct (not_acceptable f1 d1 st); [ | destruct (flt N _ _)];
      injection H as _ <-; exact Hst.
  - destruct (not_acceptable f1 d1 st).
    + bind_inv H. apply IH in H; [exact H | ].
      unfold interpolate in E. eapply advance_evaluated; eauto.
    + destruct (flt N _ _).
      * injection H as _ <-. exact Hst.
      * bind_inv H. apply IH in H; [exact H | ].
        unfold extrapolate in E. eapply advance_evaluated; eauto.
Qed.

(** A line search is reported successful only when both Wolfe-Powell tests
    pass at its last point; it fails with the first test failing there, or
    with its [M] evaluations used up. *)
Lemma line_search_verdict f1 d1 s M : forall st success st',
  line_search fun_ length_ f1 d1 s M st = Ok (success, st') ->
  if success
  then not_acceptable f1 d1 st' = false /\
       flt N (fmul N SIG d1) (ls_d2 st') = true
  else not_acceptable f1 d1 st' = true \/
       length (ls_evals st') = (length (ls_evals st) + M)%nat.
Proof.
  induction M as [ | M IH]; intros st success st' H; simpl in H.
  - destruct (not_acceptable f1 d1 st) eqn:Ena.
    + injection H as <- <-. now left.
    + destruct (flt N _ _) eqn:Ed; injection H as <- <-; [now split | ].
      right. now rewrite Nat.add_0_r.
  - destruct (not_acceptable f1 d1 st) eqn:Ena.
    + bind_inv H. pose proof (IH _ _ _ H) as Hv. destruct success; [exact Hv | ].
      destruct Hv as [Hv | Hv]; [now left | right].
      unfold interpolate in E. apply advance_counts in E as [He _].
      rewrite Hv, He, length_app. simpl. lia.
    + destruct (flt N _ _) eqn:Ed.
      * injection H as <- <-. now split.
      * bind_inv H. pose proof (IH _ _ _ H) as Hv. destruct success; [exact Hv | ].
        destruct Hv as [Hv | Hv]; [now left | right].
        unfold extrapolate in E. apply advance_counts in E as [He _].
        rewrite Hv, He, length_app. simpl. lia.
Qed.

(** One pass of the outer loop either accepts the last point of its line
    search, with the value the objective returned there appended to the
    trace, or leaves the point, its value and the trace as they were. *)
Lemma iteration_outcome st stop st' :
  iteration fun_ length_ st = Ok (stop, st') ->
  (stop = false /\
   exists g, fun_ (cg_X st') = Ok (cg_f1 st', g) /\
             cg_fX st' = cg_fX st ++ [cg_f1 st']) \/
  (cg_X st' = cg_X st /\ cg_f1 st' = cg_f1 st /\ cg_fX st' = cg_fX st).
Proof.
  unfold iteration, copy_cost. intros H.
  destruct (cg_f1_numpy st); [cbn [bind] in H | discriminate H].
  bind_inv H. destruct (fun_ x) as [[f2 df2] | e] eqn:Ef; [ | discriminate].
  cbn [bind] in H. bind_inv H. bind_inv H. destruct x1 as [success ls].
  apply line_search_evaluated in E1; [ | exact Ef].
  destruct success.
  - left. bind_inv H. injection H as <- <-. split; [reflexivity | ].
    unfold on_success in E2. bind_inv E2. bind_inv E2. destruct x3 as [s' d2'].
    injection E2 as <-. simpl. exists (ls_df2 ls). split; [exact E1 | reflexivity].
  - right. unfold on_failure in H.
    destruct ((cg_ls_failed st =? 1) || (ls_i ls >? Z.abs length_));
      injection H as _ <-; simpl; auto.
Qed.

Lemma iteration_traced X0 st stop st' :
  iteration fun_ length_ st = Ok (stop, st') -> traced fun_ X0 st -> traced fun_ X0 st'.
Proof.
  intros H (Hval & Hnil & Hlast). apply iteration_outcome in H.
  destruct H as [(_ & g & Hg & HfX) | (HX & Hf & HfX)].
  - split; [eauto | ]. split.
    + rewrite HfX. intros Habs. now destruct (cg_fX st).
    + rewrite HfX. intros fs f Hfs. apply app_inj_tail in Hfs. now destruct Hfs.
  - unfold traced. rewrite HX, Hf, HfX. auto.
Qed.

Lemma loop_traced X0 fuel : forall st st',
  loop fun_ length_ fuel st = Ok st' -> traced fun_ X0 st -> traced fun_ X0 st'.
Proof.
  induction fuel as [ | fuel IH]; intros st st' H Hst; simpl in H.
  - now injection H as <-.
  - destruct (cg_i st <? Z.abs length_); [ | now injection H as <-].
    bind_inv H. destruct x as [stop st1].
    apply (iteration_traced X0) in E; [ | exact Hst].
    destruct stop; [now injection H as <- | eauto].
Qed.

Lemma initial_traced X0 st : initial fun_ length_ X0 = Ok st -> traced fun_ X0 st.
Proof.
  unfold initial. intros H.
  destruct (fun_ X0) as [[f1 df1] | e] eqn:Ef; [ | discriminate].
  cbn [bind] in H. bind_inv H. injection H as <-. split; simpl; [eauto | ].
  split; [reflexivity | ]. intros fs f Habs. now destruct fs.
Qed.

Lemma iteration_tallied st stop st' :
  iteration fun_ length_ st = Ok (stop, st') -> tallied st -> tallied st'.
Proof.
  intros H (HfX & Hlo & Hhi).
  pose proof (iteration_outcome _ _ _ H) as Hout.
  apply iteration_counts in H as (Hs & more & Hk & Hev & _).
  unfold tallied. rewrite Hs, Hev, length_app.
  destruct Hout as [(_ & g & _ & ->) | (_ & _ & ->)];
    rewrite ?length_app; simpl; lia.
Qed.

Lemma loop_tallied fuel : forall st st',
  loop fun_ length_ fuel st = Ok st' -> tallied st -> tallied st'.
Proof.
  induction fuel as [ | fuel IH]; intros st st' H Hst; simpl in H.
  - now injection H as <-.
  - destruct (cg_i st <? Z.abs length_); [ | now injection H as <-].
    bind_inv H. destruct x as [stop st1].
    apply iteration_tallied in E; [ | exact Hst].
    destruct stop; [now injection H as <- | eauto].
Qed.

Lemma initial_tallied X st : initial fun_ length_ X = Ok st -> tallied st.
Proof.
  unfold initial. intros H. bind_inv H. destruct x as [f1 df1]. bind_inv H.
  injection H as <-. unfold tallied. simpl. lia.
Qed.

Lemma initial_counter X st :
  initial fun_ length_ X = Ok st ->
  cg_i st = (if length_ <? 0 then 1 else 0) /\ cg_fX st = [] /\
  cg_searches st = 0%nat /\ cg_evals st = [X].
Proof.
  unfold initial. intros H. bind_inv H. destruct x as [f1 df1]. bind_inv H.
  injection H as <-. simpl. auto.
Qed.

Lemma vbinop_sized (op : F N -> F N -> F N) (a b c : vec N) :
  vbinop op a b = Ok c -> length a = length b -> length c = length a.
Proof.
  intros H Hab. destruct (vbinop_returns op a b Hab) as (c' & E & Hc).
  rewrite E in H. now injection H as <-.
Qed.

Lemma viadd_sized (a b c : vec N) :
  viadd a b = Ok c -> length a = length b -> length c = length a.
Proof.
  intros H Hab. destruct (viadd_returns a b Hab) as (c' & E & Hc).
  rewrite E in H. now injection H as <-.
Qed.

Lemma advance_sized n s st z2 f3 d3 z3 limit st' :
  gradient_shaped fun_ -> length s = n ->
  advance fun_ length_ s st z2 f3 d3 z3 limit = Ok st' ->
  search_sized n st -> search_sized n st'.
Proof.
  intros Hf Hs H (HX & _ & Hev). unfold advance in H.
  bind_inv H. apply viadd_sized in E; [ | now rewrite vscale_length, HX, Hs].
  destruct (fun_ x) as [[f2 df2] | e] eqn:Ef; [ | discriminate].
  cbn [bind] in H. bind_inv H. injection H as <-. apply Hf in Ef.
  repeat split; simpl; try congruence.
  apply Forall_app. split; [exact Hev | ]. constructor; [congruence | constructor].
Qed.

Lemma line_search_sized n f1 d1 s M : forall st success st',
  gradient_shaped fun_ -> length s = n ->
  line_search fun_ length_ f1 d1 s M st = Ok (success, st') ->
  search_sized n st -> search_sized n st'.
Proof.
  induction M as [ | M IH]; intros st success st' Hf Hs H Hst; simpl in H.
  - destruct (not_acceptable f1 d1 st); [ | destruct (flt N _ _)];
      injection H as _ <-; exact Hst.
  - destruct (not_acceptable f1 d1 st).
    + bind_inv H. apply IH in H; auto.
      unfold interpolate in E. eapply advance_sized; eauto.
    + destruct (flt N _ _).
      * injection H as _ <-. exact Hst.
      * bind_inv H. apply IH in H; auto.
        unfold extrapolate in E. eapply advance_sized; eauto.
Qed.

Lemma iteration_sized n st stop st' :
  gradient_shaped fun_ ->
  iteration fun_ length_ st = Ok (stop, st') -> sized n st -> sized n st'.
Proof.
  intros Hf H (HX & Hs & Hg & Hev). unfold iteration, copy_cost in H.
  destruct (cg_f1_numpy st); [cbn [bind] in H | discriminate H].
  bind_inv H. apply vbinop_sized in E; [ | now rewrite vscale_length, HX, Hs].
  destruct (fun_ x) as [[f2 df2] | e] eqn:Ef; [ | discriminate].
  cbn [bind] in H. bind_inv H. bind_inv H. destruct x1 as [success ls].
  apply (line_search_sized n) in E1 as (HlX & Hlg & Hlev); auto.
  2:{ apply Hf in Ef. repeat split; simpl; try congruence.
      apply Forall_app. split; [exact Hev | ]. constructor; [congruence | constructor]. }
  destruct success.
  - bind_inv H. injection H as _ <-. unfold on_success in E1.
    destruct (new_direction_returns (cg_df1 st) (ls_df2 ls) (cg_s st))
      as (s' & Es & Hs'); [congruence | congruence | ].
    rewrite Es in E1. cbn [bind] in E1. bind_inv E1. destruct x2 as [s2 d2].
    injection E1 as <-.
    assert (Hs2 : length s2 = n).
    { destruct (flt N _ _).
      - bind_inv E2. injection E2 as <- _. now rewrite vneg_length.
      - injection E2 as <- _. congruence. }
    repeat split; simpl; auto.
  - unfold on_failure in H.
    destruct ((cg_ls_failed st =? 1) || (ls_i ls >? Z.abs length_));
      injection H as _ <-; repeat split; simpl; auto.
    now rewrite vneg_length.
Qed.

Lemma loop_sized n fuel : forall st st',
  gradient_shaped fun_ ->
  loop fun_ length_ fuel st = Ok st' -> sized n st -> sized n st'.
Proof.
  induction fuel as [ | fuel IH]; intros st st' Hf H Hst; simpl in H.
  - now injection H as <-.
  - destruct (cg_i st <? Z.abs length_); [ | now injection H as <-].
    bind_inv H. destruct x as [stop st1].
    apply (iteration_sized n) in E; auto.
    destruct stop; [now injection H as <- | eauto].
Qed.

Lemma initial_sized X st :
  gradient_shaped fun_ -> initial fun_ length_ X = Ok st -> sized (length X) st.
Proof.
  intros Hf H. unfold initial in H.
  destruct (fun_ X) as [[f1 df1] | e] eqn:Ef; [ | discriminate].
  cbn [bind] in H. bind_inv H. injection H as <-. apply Hf in Ef.
  repeat split; simpl; rewrite ?vneg_length; auto.
Qed.
End MinimizeRuns.

Section MinimizeBudget.
Context {N : Numeric}.
Variable fun_ : objective N.
Variable length_ : Z.
Local Open Scope Z_scope.

(** The loop is left by [break] only after a failed line search that
    follows a failed one, or with the count above [|length|]. *)
Lemma iteration_break st st' :
  iteration fun_ length_ st = Ok (true, st') ->
  cg_ls_failed st' = 1 \/ cg_i st' > Z.abs length_.
Proof.
  unfold iteration, copy_cost. intros H.
  destruct (cg_f1_numpy st); [cbn [bind] in H | discriminate H].
  bind_inv H. bind_inv H. destruct x0 as [f2 df2]. bind_inv H. bind_inv H.
  destruct x1 as [success ls]. destruct success.
  - bind_inv H. discriminate.
  - unfold on_failure in H.
    destruct (Z.eqb_spec (cg_ls_failed st) 1) as [Hf | Hf]; cbn [orb] in H.
    + injection H as <-. now left.
    + destruct (Z.gtb_spec (ls_i ls) (Z.abs length_)); [ | discriminate].
      injection H as <-. right. simpl. lia.
Qed.

Lemma loop_budget fuel : forall st st',
  0 <= cg_i st <= Z.abs length_ -> Z.abs length_ - cg_i st <= Z.of_nat fuel ->
  loop fun_ length_ fuel st = Ok st' ->
  cg_i st' = Z.abs length_ \/ cg_ls_failed st' = 1.
Proof.
  induction fuel as [ | fuel IH]; intros st st' Hi Hfuel H; simpl in H.
  - injection H as <-. left. lia.
  - destruct (Z.ltb_spec (cg_i st) (Z.abs length_)) as [Hlt | Hge].
    + bind_inv H. destruct x as [stop st1].
      pose proof (iteration_counts fun_ length_ _ _ _ E)
        as (_ & more & Hk & _ & Hpos & Hzero & Hneg).
      assert (Hi1 : cg_i st < cg_i st1 <= Z.abs length_).
      { destruct (Z.lt_trichotomy length_ 0) as [Hl | [Hl | Hl]].
        - destruct (Hneg Hl) as [Hi' Hle]. lia.
        - lia.
        - rewrite (Hpos Hl). lia. }
      destruct stop.
      * injection H as <-. right.
        destruct (iteration_break _ _ E) as [Hb | Hb]; [exact Hb | lia].
      * apply IH in H; [exact H | lia | lia].
    + injection H as <-. left. lia.
Qed.
End MinimizeBudget.

(** X1: the trace [fX] never has more entries than the count [i] that is
    returned with it, at most one per line search; there are never more
    than [|length|] line searches; a line search calls the objective
    between 1 and 21 times, so that [length > 0] line searches cost at most
    [1 + 21 * length] calls. *)
Theorem minimize_trace_and_calls (N : Numeric) (fun_ : objective N)
    (length_ : Z) (X : vec N) (st : @cg N) :
  minimize_run fun_ length_ X = Ok st ->
  (Z.of_nat (length (cg_fX st)) <= cg_i st)%Z /\
  length (cg_fX st) <= cg_searches st /\
  (Z.of_nat (cg_searches st) <= Z.abs length_)%Z /\
  S (cg_searches st) <= length (cg_evals st) <= 1 + 21 * cg_searches st /\
  (0 < length_ -> Z.of_nat (length (cg_evals st)) <= 1 + 21 * length_)%Z.
Proof.
  unfold minimize_run. intros H. bind_inv H.
  pose proof (initial_tallied fun_ length_ X x E) as Ht.
  pose proof (initial_counted fun_ length_ X x E) as Hc.
  pose proof (loop_tallied fun_ length_ _ _ _ H Ht) as (HfX & Hlo & Hhi).
  pose proof (loop_counted fun_ length_ _ _ _ Hc H) as [Hpos Hneg].
  destruct (Z.lt_trichotomy length_ 0) as [Hl | [Hl | Hl]].
  - destruct (Hneg Hl) as [Hi Hle]. repeat split; lia.
  - subst length_. simpl in H. injection H as <-.
    destruct (initial_counter fun_ 0%Z X x E) as (Hi & HfX0 & Hs0 & Hev0).
    rewrite Hi, HfX0, Hs0, Hev0. simpl. repeat split; lia.
  - destruct (Hpos Hl) as [Hi Hle]. repeat split; lia.
Qed.

Lemma minimize_trace_and_calls_witness :
  exists st,
    minimize_run bowl 2 origin4 = Ok st /\
    (Z.of_nat (length (cg_fX st)) <= cg_i st)%Z /\
    length (cg_fX st) <= cg_searches st /\
    (Z.of_nat (cg_searches st) <= Z.abs 2)%Z /\
    S (cg_searches st) <= length (cg_evals st) <= 1 + 21 * cg_searches st /\
    (0 < 2 -> Z.of_nat (length (cg_evals st)) <= 1 + 21 * 2)%Z.
Proof.
  eexists. split; [vm_compute; reflexivity | ].
  apply (minimize_trace_and_calls float64 bowl 2 origin4).
  vm_compute. reflexivity.
Defined.

(** X2: [minimize] uses up its budget unless it gives up: the count it
    returns is [|length|], or its last two line searches failed. *)
Theorem minimize_uses_its_budget (N : Numeric) (fun_ : objective N)
    (length_ : Z) (X : vec N) (st : @cg N) :
  minimize_run fun_ length_ X = Ok st ->
  cg_i st = Z.abs length_ \/ cg_ls_failed st = 1%Z.
Proof.
  unfold minimize_run. intros H. bind_inv H.
  destruct (initial_counter fun_ length_ X x E) as (Hi & _).
  apply (loop_budget fun_ length_ (Z.to_nat (Z.abs length_)) x st); [ | | exact H];
    rewrite Hi; destruct (Z.ltb_spec length_ 0); lia.
Qed.

Lemma minimize_uses_its_budget_witness :
  exists st,
    minimize_run bowl (-7) origin4 = Ok st /\
    (cg_i st = Z.abs (-7) \/ cg_ls_failed st = 1%Z).
Proof.
  eexists. split; [vm_compute; reflexivity | ].
  apply (minimize_uses_its_budget float64 bowl (-7) origin4). vm_compute. reflexivity.
Defined.

(** X3: the point [minimize] returns is one the objective was called at
    and returned a value for; the last entry of the trace [fX] is that
    value; and with an empty trace the point is the starting point. *)
Theorem minimize_trace_ends_at_result (N : Numeric)
    (fun_ : objective N) (length_ : Z) (X0 X : vec N)
    (fX : list (F N)) (i : Z) :
  minimize fun_ length_ X0 = Ok (X, fX, i) ->
  (exists f g, fun_ X = Ok (f, g) /\ forall fs f', fX = fs ++ [f'] -> f' = f) /\
  (fX = [] -> X = X0).
Proof.
  unfold minimize, minimize_run. intros H. bind_inv H. bind_inv E.
  injection H as <- <- <-.
  pose proof (initial_traced fun_ length_ X0 x0 E0) as Ht.
  destruct (loop_traced fun_ length_ X0 _ _ _ E Ht) as ((g & Hg) & Hnil & Hlast).
  split; [ | exact Hnil]. exists (cg_f1 x), g. split; [exact Hg | exact Hlast].
Qed.

Lemma minimize_trace_ends_at_result_witness :
  (exists f g, bowl [-0.25; -0.25; -0.25; -0.25]%float = Ok (f, g) /\
               forall fs f', [(-0.3125)%float] = fs ++ [f'] -> f' = f) /\
  ([(-0.3125)%float] = [] -> [-0.25; -0.25; -0.25; -0.25]%float = origin4).
Proof.
  apply (minimize_trace_ends_at_result float64 bowl 2 origin4
           [-0.25; -0.25; -0.25; -0.25]%float [(-0.3125)%float] 2%Z).
  vm_compute. reflexivity.
Defined.

(** X4: when the objective returns gradients as long as its argument, the
    point [minimize] returns and every point it calls the objective at have
    the length of the starting point. *)
Theorem minimize_keeps_the_length (N : Numeric) (fun_ : objective N)
    (length_ : Z) (X0 : vec N) (st : @cg N) :
  (forall x f g, fun_ x = Ok (f, g) -> length g = length x) ->
  minimize_run fun_ length_ X0 = Ok st ->
  length (cg_X st) = length X0 /\
  Forall (fun x => length x = length X0) (cg_evals st).
Proof.
  intros Hf H. unfold minimize_run in H. bind_inv H.
  pose proof (initial_sized fun_ length_ X0 x Hf E) as Hs.
  destruct (loop_sized fun_ length_ _ _ _ _ Hf H Hs) as (HX & _ & _ & Hev).
  now split.
Qed.

Lemma minimize_keeps_the_length_witness :
  exists st,
    minimize_run bowl (-7) origin4 = Ok st /\
    length (cg_X st) = length origin4 /\
    Forall (fun x => length x = length origin4) (cg_evals st).
Proof.
  eexists. split; [vm_compute; reflexivity | ].
  apply (minimize_keeps_the_length float64 bowl (-7) origin4).
  - intros x f g H. injection H as _ <-. apply length_map.
  - vm_compute. reflexivity.
Defined.

(** X5: the outer loop of [minimize] is left after at most [|length|]
    passes: allowing it more passes changes nothing. *)
Theorem minimize_loop_passes (N : Numeric) (fun_ : objective N)
    (length_ : Z) (X : vec N) (st0 : @cg N) (extra : nat) :
  initial fun_ length_ X = Ok st0 ->
  loop fun_ length_ (Z.to_nat (Z.abs length_) + extra) st0
  = loop fun_ length_ (Z.to_nat (Z.abs length_)) st0.
Proof.
  intros H. destruct (initial_counter fun_ length_ X st0 H) as (Hi & _).
  apply loop_fuel_enough; rewrite Hi; destruct (length_ <? 0)%Z; lia.
Qed.

Lemma minimize_loop_passes_witness :
  exists st0,
    initial bowl 2 origin4 = Ok st0 /\
    loop bowl 2 (Z.to_nat (Z.abs 2) + 5) st0 = loop bowl 2 (Z.to_nat (Z.abs 2)) st0.
Proof.
  eexists. split; [vm_compute; reflexivity | ].
  apply (minimize_loop_passes float64 bowl 2 origin4). vm_compute. reflexivity.
Defined.

(** X6: a line search is reported successful only when both Wolfe-Powell
    tests pass at the point it ends at: neither [f2 > f1+z1*RHO*d1] nor
    [d2 > -SIG*d1] holds, and [d2 > SIG*d1] does.  It is reported failed
    only when the first test fails there or all its [M] evaluations are
    used. *)
Theorem line_search_wolfe_powell (N : Numeric) (fun_ : objective N)
    (length_ : Z) (f1 d1 : F N) (s : vec N) (M : nat) (st st' : @search N)
    (success : bool) :
  line_search fun_ length_ f1 d1 s M st = Ok (success, st') ->
  (success = true ->
   not_acceptable f1 d1 st' = false /\ flt N (fmul N SIG d1) (ls_d2 st') = true) /\
  (success = false ->
   not_acceptable f1 d1 st' = true \/
   length (ls_evals st') = length (ls_evals st) + M).
Proof.
  intros H. apply line_search_verdict in H.
  split; intros ->; exact H.
Qed.

Lemma line_search_wolfe_powell_witness :
  (true = true ->
   not_acceptable (N:=float64) 0%float (-1)%float bowl_search = false /\
   flt float64 (fmul float64 SIG (-1)%float) (ls_d2 bowl_search) = true) /\
  (true = false ->
   not_acceptable (N:=float64) 0%float (-1)%float bowl_search = true \/
   length (ls_evals bowl_search) = length (ls_evals bowl_search) + 20).
Proof.
  apply (line_search_wolfe_powell float64 bowl 1 0%float (-1)%float
           [-0.5; -0.5; -0.5; -0.5]%float 20 bowl_search bowl_search true).
  vm_compute. reflexivity.
Defined.

(** X7: an objective whose gradient is neither as long as the argument nor
    of length 1 makes [minimize] raise, unless the budget allows no step:
    ValueError at the first step [X + z1*s] when the cost it returned at
    the starting point is a numpy scalar, and AttributeError at
    [f1.copy()], two lines earlier, when that cost is a plain float. *)
Theorem minimize_gradient_of_other_length (N : Numeric)
    (fun_ : objective N) (length_ : Z) (X : vec N)
    (f1 : F N) (df1 : vec N) :
  fun_ X = Ok (f1, df1) ->
  length df1 <> length X -> length df1 <> 1 -> length X <> 1 ->
  (0 < length_ \/ length_ < -1)%Z ->
  minimize fun_ length_ X
  = Raise (if numpy_cost fun_ X then ValueError else AttributeError).
Proof.
  intros Hf Hne Hg HX Hl. unfold minimize, minimize_run, initial. rewrite Hf.
  cbn [bind]. destruct (vdot_returns (vneg (vneg df1)) (vneg df1)) as (d1 & ->).
  { now rewrite !vneg_length. }
  cbn [bind].
  destruct (Z.to_nat (Z.abs length_)) as [ | fuel] eqn:Efuel; [lia | ].
  cbn [loop cg_i].
  replace (((if (length_ <? 0)%Z then 1 else 0) <? Z.abs length_)%Z) with true
    by (destruct (Z.ltb_spec length_ 0); symmetry; apply Z.ltb_lt; lia).
  unfold iteration, copy_cost. cbn [cg_X cg_z1 cg_s cg_f1_numpy].
  destruct (numpy_cost fun_ X); [cbn [bind] | reflexivity].
  assert (Hadd : forall z1 : F N, vadd X (vscale z1 (vneg df1)) = Raise ValueError).
  { intros z1. unfold vadd, vbinop. rewrite vscale_length, vneg_length.
    rewrite (proj2 (Nat.eqb_neq _ _)) by congruence.
    destruct X as [ | x [ | x' X]]; simpl in HX; try congruence;
      destruct df1 as [ | g [ | g' df1]]; simpl in Hg; try congruence; reflexivity. }
  rewrite Hadd. reflexivity.
Qed.

Lemma minimize_gradient_of_other_length_witness :
  minimize two_entries 3 [0; 0; 0]%float = Raise ValueError.
Proof.
  apply (minimize_gradient_of_other_length float64 two_entries 3 [0; 0; 0]%float
           0%float [1; 1]%float); [reflexivity | simpl; lia | simpl; lia | simpl; lia | lia].
Defined.

(** ** [get_activation] and [run_through_network] *)

Section RowFacts.
Context {N : Numeric} {A : Activation N}.

Lemma row_flat_map (f : nat -> list (F N)) (k n i : nat) :
  (forall j, j < n -> length (f j) = k) -> i < n ->
  row k (flat_map f (seq 0 n)) i = f i.
Proof.
  intros Hf Hi. unfold row, slice.
  replace n with (i + (1 + (n - i - 1))) in * by lia.
  rewrite !seq_app, !flat_map_app. cbn [seq flat_map Nat.add].
  assert (Hlen : length (flat_map f (seq 0 i)) = i * k).
  { rewrite (flat_map_length_const f k), length_seq; [reflexivity | ].
    intros j Hj. apply in_seq in Hj. apply Hf. lia. }
  rewrite skipn_app, Hlen, skipn_all2 by lia.
  rewrite Nat.sub_diag. cbn [skipn app].
  replace (i * k + k - i * k) with (length (f i)) by (rewrite Hf; lia).
  rewrite (app_nil_r (f i)), firstn_app, Nat.sub_diag, firstn_all. cbn [firstn].
  apply app_nil_r.
Qed.
End RowFacts.

Section WeightFacts.
Context {N : Numeric} {A : Activation N}.

Lemma concat_repeat_repeat {T : Type} (c : T) (n k : nat) :
  concat (repeat (repeat c n) k) = repeat c (k * n).
Proof.
  induction k as [ | k IH]; simpl; [reflexivity | ].
  now rewrite IH, repeat_app.
Qed.

Lemma map2_repeat (op : F N -> F N -> F N) (c : F N) (xs : list (F N)) :
  forall m, length xs <= m -> map2 op xs (repeat c m) = map (fun x => op x c) xs.
Proof.
  induction xs as [ | x xs IH]; intros m Hm; [reflexivity | ].
  destruct m as [ | m]; simpl in *; [lia | ]. f_equal. apply IH. lia.
Qed.

(** The first chunk of a layer whose [n_hidden] is not the width of [W]. *)
Lemma first_chunk_raises (layer : Layer N) (n d k : nat) (xs ws bs : list (F N))
    (breaks : list nat) :
  W layer = Arr2 d k ws -> hbias layer = Arr1 bs -> length bs = k ->
  n_hidden layer <> k -> k <> 1 ->
  activation_chunk (A:=A) layer (Arr2 n d xs) breaks 0 (zeros2 n (n_hidden layer))
  = Raise ValueError.
Proof.
  intros HW Hb Hbs Hk Hk1. unfold activation_chunk. rewrite HW, Hb.
  cbn [getslice bind].
  match goal with
  | |- context [Arr2 ?h d ?X] =>
      pose proof (dot_add_rows d k ws bs h X Hbs) as H;
      destruct (dot (Arr2 h d X) (Arr2 d k ws)) as [prod | e]; [ | discriminate]
  end.
  cbn [bind] in H |- *. rewrite H. cbn [bind as_numpy_array].
  assert (Hset : forall (s e h : nat) (ys : list (F N)),
             setrows (zeros2 n (n_hidden layer)) s e (Arr2 h k ys) = Raise ValueError).
  { intros s e h ys. unfold setrows, zeros2, stretch.
    rewrite (proj2 (Nat.eqb_neq k (n_hidden layer))) by congruence.
    rewrite (proj2 (Nat.eqb_neq k 1)) by exact Hk1.
    now rewrite !andb_false_r. }
  destruct (String.eqb _ _); cbn [emap]; apply Hset.
Qed.
End WeightFacts.

Section NetworkFacts.
Context {N : Numeric} {A : Activation N}.

Lemma for_each_app {T S : Type} (l1 l2 : list T) (body : T -> S -> result S) (st : S) :
  for_each (l1 ++ l2) body st = bind (for_each l1 body st) (for_each l2 body).
Proof.
  revert st. induction l1 as [ | x l1 IH]; intros st; simpl; [reflexivity | ].
  destruct (body x st) as [st1 | e]; simpl; [apply IH | reflexivity].
Qed.

Lemma chained_wf (net : list (Layer N)) : forall d d',
  chained d net d' -> Forall wf_layer net.
Proof.
  induction net as [ | l net IH]; intros d d' H; [constructor | ].
  destruct H as (k & ws & bs & HW & Hws & Hb & Hbs & Hk & Hrest).
  constructor; [ | eauto]. unfold wf_layer. now rewrite HW, Hb.
Qed.

Lemma chained_app (net1 net2 : list (Layer N)) : forall d d' d'',
  chained d net1 d' -> chained d' net2 d'' -> chained d (net1 ++ net2) d''.
Proof.
  induction net1 as [ | l net1 IH]; intros d d' d'' H1 H2; simpl in *.
  - now subst.
  - destruct H1 as (k & ws & bs & HW & Hws & Hb & Hbs & Hk & Hrest).
    exists k, ws, bs. eauto 10.
Qed.

(** A dimensionally consistent network maps [n] rows to [n] rows, layer
    by layer as one pass over the whole batch would. *)
Lemma run_through_network_chained (net : list (Layer N)) : forall d d' n xs,
  chained d net d' -> length xs = n * d ->
  exists ys,
    run_through_network (A:=A) (Arr2 n d xs) net = Ok (Arr2 n d' ys) /\
    length ys = n * d' /\
    for_each net (fun layer hid => single_pass (A:=A) layer (garray hid)) (Arr2 n d xs)
    = Ok (Arr2 n d' ys).
Proof.
  unfold run_through_network.
  induction net as [ | l net IH]; intros d d' n xs H Hxs; simpl in *.
  - subst d'. exists xs. auto.
  - destruct H as (k & ws & bs & HW & Hws & Hb & Hbs & Hk & Hrest).
    unfold garray at 1 2. cbn [emap].
    assert (Hxs' : length (map (fsingle N) xs) = n * d) by now rewrite length_map.
    rewrite (get_activation_rows l n d k (map (fsingle N) xs) ws bs HW Hb Hk Hxs' Hbs).
    rewrite (single_pass_rows l n d k (map (fsingle N) xs) ws bs HW Hb Hbs). cbn [bind].
    apply IH; [exact Hrest | ].
    apply (out_rows_length l d k (map (fsingle N) xs) ws bs).
Qed.

(** The forward pass of [backprop_gradient] keeps every activation; the
    last one is what [run_through_network] returns. *)
Lemma forward_run_through_network (net : list (Layer N)) : forall X,
  match forward (A:=A) net X with
  | Ok acts =>
      length acts = S (length net) /\ nth_error acts 0 = Some X /\
      exists out, nth_error acts (length net) = Some out /\
                  run_through_network (A:=A) X net = Ok out
  | Raise e => run_through_network (A:=A) X net = Raise e
  end.
Proof.
  unfold run_through_network.
  induction net as [ | l net IH]; intros X; simpl.
  - repeat split. eauto.
  - destruct (get_activation l (garray X)) as [out | e]; simpl; [ | reflexivity].
    specialize (IH out). destruct (forward net out) as [acts | e]; simpl; [ | exact IH].
    destruct IH as (Hlen & _ & out' & Hnth & Hrun). repeat split; [now rewrite Hlen | ].
    eauto.
Qed.
End NetworkFacts.

(** X8: row [i] of what [get_activation] returns is computed from row
    [i] of the data alone: entry [j] is the sum of the products of that
    row with column [j] of [W], plus [hbias[j]], through the logistic
    function when the layer is of type 'sigmoid' and as it is otherwise. *)
Theorem get_activation_row_by_row (N : Numeric) (A : Activation N) (layer : Layer N)
    (n d k : nat) (xs ws bs : list (F N)) :
  W layer = Arr2 d k ws -> hbias layer = Arr1 bs -> n_hidden layer = k ->
  length xs = n * d -> length bs = k ->
  exists ys,
    get_activation (A:=A) layer (Arr2 n d xs) = Ok (Arr2 n k ys) /\
    forall i, i < n ->
      row k ys i
      = let affine :=
          map (fun j => fadd N (fsum (map2 (fmul N) (row d xs i) (col d k ws j)))
                               (nth j bs (of_Z N 0)))
              (seq 0 k) in
        if String.eqb (hidtype layer) "sigmoid" then map (logistic A) affine else affine.
Proof.
  intros HW Hb Hk Hxs Hbs. eexists. split.
  - apply (get_activation_rows layer n d k xs ws bs HW Hb Hk Hxs Hbs).
  - intros i Hi. rewrite row_flat_map; [reflexivity | | exact Hi].
    intros j _. apply (out_row_length layer d k xs ws bs).
Qed.

Lemma get_activation_row_by_row_witness :
  exists ys,
    get_activation (A:=sigmoid) sigmoid_layer (@Arr2 reals 300 2 batch300)
    = Ok (Arr2 300 2 ys) /\
    forall i, i < 300 ->
      row 2 ys i
      = let affine :=
          map (fun j => fadd reals
                          (fsum (N:=reals)
                             (map2 (fmul reals) (row (N:=reals) 2 batch300 i)
                                (col (N:=reals) 2 2 [1; -1; 2; 0]%R j)))
                          (nth j [0; 1]%R (of_Z reals 0)))
              (seq 0 2) in
        if String.eqb (hidtype sigmoid_layer) "sigmoid"
        then map (logistic sigmoid) affine else affine.
Proof.
  apply (get_activation_row_by_row reals sigmoid sigmoid_layer 300 2 2 batch300
           [1; -1; 2; 0]%R [0; 1]%R); reflexivity.
Defined.

(** X9: a layer whose [n_hidden] is not the number of columns of [W]
    makes [get_activation] raise ValueError on any data with a row, when
    the first chunk is written into the output; a [W] of exactly one
    column is the exception the theorem leaves aside. *)
Theorem get_activation_n_hidden (N : Numeric) (A : Activation N) (layer : Layer N)
    (n d k : nat) (xs ws bs : list (F N)) :
  W layer = Arr2 d k ws -> hbias layer = Arr1 bs -> length bs = k ->
  n_hidden layer <> k -> k <> 1 -> 0 < n ->
  get_activation (A:=A) layer (Arr2 n d xs) = Raise ValueError.
Proof.
  intros HW Hb Hbs Hk Hk1 Hn. unfold get_activation. cbn [shape0 bind].
  rewrite length_app, py_range_length. cbn [length].
  replace ((n + 127) / 128 + 1 - 1) with (S ((n + 127) / 128 - 1)).
  - unfold range. cbn [seq for_each].
    rewrite (first_chunk_raises (A:=A) layer n d k xs ws bs _ HW Hb Hbs Hk Hk1).
    reflexivity.
  - assert (1 <= (n + 127) / 128) by (apply Nat.div_le_lower_bound; lia). lia.
Qed.

Lemma get_activation_n_hidden_witness :
  get_activation (A:=sigmoid)
    (MkLayer (@Arr2 reals 2 2 [1; -1; 2; 0]%R) (@Arr1 reals [0; 1]%R) 3 "sigmoid")
    (@Arr2 reals 300 2 batch300)
  = Raise ValueError.
Proof.
  apply (get_activation_n_hidden reals sigmoid
           (MkLayer (@Arr2 reals 2 2 [1; -1; 2; 0]%R) (@Arr1 reals [0; 1]%R) 3 "sigmoid")
           300 2 2 batch300 [1; -1; 2; 0]%R [0; 1]%R);
    try reflexivity; simpl; lia.
Defined.

(** X10: on a dimensionally consistent network, [run_through_network] maps
    [n] rows of [d] entries to [n] rows of as many entries as the top layer
    has units, and what it returns is what one pass per layer over the whole
    batch, put on the device by [gp.garray], gives. *)
Theorem run_through_network_shape (N : Numeric) (A : Activation N)
    (net : list (Layer N)) (d d' n : nat) (xs : list (F N)) :
  chained d net d' -> length xs = n * d ->
  exists ys,
    run_through_network (A:=A) (Arr2 n d xs) net = Ok (Arr2 n d' ys) /\
    length ys = n * d' /\
    for_each net (fun layer hid => single_pass (A:=A) layer (garray hid)) (Arr2 n d xs)
    = Ok (Arr2 n d' ys).
Proof. apply run_through_network_chained. Qed.

Lemma run_through_network_shape_witness :
  exists ys,
    run_through_network (A:=sigmoid) (@Arr2 reals 300 2 batch300)
      [sigmoid_layer; sigmoid_layer] = Ok (Arr2 300 2 ys) /\
    length ys = 300 * 2 /\
    for_each [sigmoid_layer; sigmoid_layer]
      (fun layer hid => single_pass (A:=sigmoid) layer (garray hid))
      (@Arr2 reals 300 2 batch300)
    = Ok (Arr2 300 2 ys).
Proof.
  apply (run_through_network_shape reals sigmoid [sigmoid_layer; sigmoid_layer] 2 2 300).
  - simpl. do 3 eexists. repeat split. do 3 eexists. repeat split.
  - reflexivity.
Defined.

(** X11: running a network made of two parts is running the first part and
    then the second on its output; an exception of the first part is the
    exception of the whole, and the empty network returns its input. *)
Theorem run_through_network_app (N : Numeric) (A : Activation N)
    (net1 net2 : list (Layer N)) (data : ndarray N) :
  run_through_network (A:=A) data (net1 ++ net2)
  = bind (run_through_network (A:=A) data net1)
         (fun hid => run_through_network (A:=A) hid net2) /\
  run_through_network (A:=A) data [] = Ok data.
Proof.
  split; [ | reflexivity]. unfold run_through_network. apply for_each_app.
Qed.

(** ** [getError] *)

Section ErrorFacts.
Context {N : Numeric} {A : Activation N}.
Local Abbreviation zero := (of_Z N 0).

Lemma row_length (w : nat) (xs : list (F N)) (i : nat) :
  i * w + w <= length xs -> length (row w xs i) = w.
Proof. intros H. unfold row. rewrite slice_length by exact H. lia. Qed.

Lemma row_nonempty (w n : nat) (xs : list (F N)) (i : nat) :
  0 < w -> length xs = n * w -> i < n -> exists x r, row w xs i = x :: r.
Proof.
  intros Hw Hxs Hi. assert (Hlen : length (row w xs i) = w) by (apply row_length; nia).
  destruct (row w xs i) as [ | x r]; [simpl in Hlen; lia | eauto].
Qed.

Lemma accumulate_snoc (l : list (F N)) (x : F N) :
  accumulate (l ++ [x]) = fadd N (accumulate l) x.
Proof. unfold accumulate. now rewrite fold_left_app. Qed.

Lemma filter_seq_snoc (f : nat -> bool) (i : nat) :
  filter f (seq 0 (S i)) = filter f (seq 0 i) ++ (if f i then [i] else []).
Proof. now rewrite seq_S, filter_app. Qed.

Section OnABatch.
Variables (n d k : nat) (ys ts ws : list (F N)).
Hypothesis Hys : length ys = n * d.
Hypothesis Hws : length ws = n.

(** One pass of the loop of the classification error. *)
Lemma classification_row_step (i : nat) (err : F N) :
  0 < d -> 0 < k -> length ts = n * k -> i < n ->
  classification_row (Arr2 n d ys) (Arr2 n k ts) (Arr1 ws) i (Num err)
  = Ok (Num (if negb (row_argmax d ys i =? row_argmax k ts i)
             then fadd N err (nth i ws zero) else err)).
Proof.
  intros Hd Hk Hts Hi. unfold classification_row, getrow, row_argmax.
  rewrite (proj2 (Nat.ltb_lt i n) Hi). cbn [bind].
  destruct (row_nonempty d n ys i Hd Hys Hi) as (y & ry & ->).
  destruct (row_nonempty k n ts i Hk Hts Hi) as (t & rt & ->).
  cbn [argmax bind]. destruct (_ =? _); cbn [negb]; [reflexivity | ].
  unfold getitem. rewrite Hws, (proj2 (Nat.ltb_lt i n) Hi). reflexivity.
Qed.

Lemma classification_loop :
  0 < d -> 0 < k -> length ts = n * k ->
  for_each (range n) (classification_row (Arr2 n d ys) (Arr2 n k ts) (Arr1 ws)) (Num zero)
  = Ok (Num (accumulate (map (fun i => nth i ws zero) (misclassified d ys k ts n)))).
Proof.
  intros Hd Hk Hts.
  destruct (for_each_seq
              (fun i err =>
                 i <= n /\
                 err = Num (accumulate (map (fun i => nth i ws zero)
                                          (misclassified d ys k ts i))))
              (classification_row (Arr2 n d ys) (Arr2 n k ts) (Arr1 ws)) n 0 (Num zero))
    as (err & E & _ & Herr).
  - split; [lia | reflexivity].
  - intros i st Hi [_ ->]. rewrite classification_row_step by lia.
    eexists. split; [reflexivity | ]. split; [lia | ]. f_equal.
    unfold misclassified. cbn [Nat.add]. rewrite filter_seq_snoc.
    destruct (negb _); [ | now rewrite app_nil_r].
    rewrite map_app. cbn [map]. now rewrite accumulate_snoc.
  - unfold range. now rewrite E, Herr.
Qed.

(** One pass of the loop of the reconstruction error. *)
Lemma reconstruction_row_step (i : nat) (err : F N) :
  length ts = n * d -> i < n ->
  reconstruction_row (Arr2 n d ys) (Arr2 n d ts) (Arr1 ws) i (Num err)
  = Ok (Num (fadd N err (fmul N (row_distance d ys ts i) (nth i ws zero)))).
Proof.
  intros Hts Hi. unfold reconstruction_row, getrow, row_distance.
  rewrite (proj2 (Nat.ltb_lt i n) Hi). cbn [bind].
  unfold sub. cbn [ebinop]. unfold vbinop.
  rewrite !row_length by nia. rewrite Nat.eqb_refl. cbn [bind].
  unfold getitem. rewrite Hws, (proj2 (Nat.ltb_lt i n) Hi). reflexivity.
Qed.

Lemma reconstruction_loop :
  length ts = n * d ->
  for_each (range n) (reconstruction_row (Arr2 n d ys) (Arr2 n d ts) (Arr1 ws)) (Num zero)
  = Ok (Num (accumulate (map (fun i => fmul N (row_distance d ys ts i) (nth i ws zero))
                           (seq 0 n)))).
Proof.
  intros Hts.
  destruct (for_each_seq
              (fun i err =>
                 i <= n /\
                 err = Num (accumulate
                              (map (fun i => fmul N (row_distance d ys ts i) (nth i ws zero))
                                 (seq 0 i))))
              (reconstruction_row (Arr2 n d ys) (Arr2 n d ts) (Arr1 ws)) n 0 (Num zero))
    as (err & E & _ & Herr).
  - split; [lia | reflexivity].
  - intros i st Hi [_ ->]. rewrite reconstruction_row_step by lia.
    eexists. split; [reflexivity | ]. split; [lia | ]. f_equal.
    cbn [Nat.add]. rewrite seq_S, map_app. cbn [map Nat.add].
    now rewrite accumulate_snoc.
  - unfold range. now rewrite E, Herr.
Qed.
End OnABatch.

Lemma getError_classification_value (net : list (Layer N)) (n d d' k : nat)
    (xs ts ws : list (F N)) :
  chained d net d' -> 0 < d' -> 0 < k ->
  length xs = n * d -> length ts = n * k -> length ws = n ->
  exists ys,
    run_through_network (A:=A) (Arr2 n d xs) net = Ok (Arr2 n d' ys) /\
    getError (A:=A) "classification" net (Arr2 n d xs) (Arr2 n k ts) (Arr1 ws)
    = Ok (Num (fdiv N (accumulate (map (fun i => nth i ws zero)
                                     (misclassified d' ys k ts n)))
                      (sum_all (Arr1 ws)))).
Proof.
  intros Hnet Hd' Hk Hxs Hts Hws.
  destruct (run_through_network_chained (A:=A) net d d' n xs Hnet Hxs)
    as (ys & Hrun & Hys & _).
  exists ys. split; [exact Hrun | ]. unfold getError. rewrite Hrun. cbn [bind shape0].
  cbn [String.eqb Ascii.eqb Bool.eqb].
  rewrite (classification_loop n d' k ys ts ws Hys Hws Hd' Hk Hts). reflexivity.
Qed.

Lemma getError_reconstruction_value (validErrFunc : string) (net : list (Layer N))
    (n d d' : nat) (xs ts ws : list (F N)) :
  validErrFunc <> "classification"%string ->
  chained d net d' ->
  length xs = n * d -> length ts = n * d' -> length ws = n ->
  exists ys,
    run_through_network (A:=A) (Arr2 n d xs) net = Ok (Arr2 n d' ys) /\
    getError (A:=A) validErrFunc net (Arr2 n d xs) (Arr2 n d' ts) (Arr1 ws)
    = Ok (Num (fdiv N (accumulate (map (fun i => fmul N (row_distance d' ys ts i)
                                                   (nth i ws zero))
                                     (seq 0 n)))
                      (sum_all (Arr1 ws)))).
Proof.
  intros Hv Hnet Hxs Hts Hws.
  destruct (run_through_network_chained (A:=A) net d d' n xs Hnet Hxs)
    as (ys & Hrun & Hys & _).
  exists ys. split; [exact Hrun | ]. unfold getError. rewrite Hrun. cbn [bind shape0].
  rewrite (proj2 (String.eqb_neq _ _) Hv).
  rewrite (reconstruction_loop n d' ys ts ws Hys Hws Hts). reflexivity.
Qed.
End ErrorFacts.

(** X12: on a dimensionally consistent network, with targets of as many
    rows as the data and weights of as many entries, the classification
    error is a number: the weights of the rows whose largest output is not
    where the largest target is, added up in row order from 0, over the sum
    of all weights.  The targets need not be as wide as the output. *)
Theorem getError_classification (N : Numeric) (A : Activation N)
    (net : list (Layer N)) (n d d' k : nat) (xs ts ws : list (F N)) :
  chained d net d' -> 0 < d' -> 0 < k ->
  length xs = n * d -> length ts = n * k -> length ws = n ->
  exists ys,
    run_through_network (A:=A) (Arr2 n d xs) net = Ok (Arr2 n d' ys) /\
    getError (A:=A) "classification" net (Arr2 n d xs) (Arr2 n k ts) (Arr1 ws)
    = Ok (Num (fdiv N (accumulate (map (fun i => nth i ws (of_Z N 0))
                                     (misclassified d' ys k ts n)))
                      (sum_all (Arr1 ws)))).
Proof. apply getError_classification_value. Qed.

Lemma getError_classification_witness :
  exists ys,
    run_through_network (A:=sigmoid) (@Arr2 reals 300 2 batch300) [sigmoid_layer]
    = Ok (Arr2 300 2 ys) /\
    getError (A:=sigmoid) "classification" [sigmoid_layer] (@Arr2 reals 300 2 batch300)
      (@Arr2 reals 300 1 (repeat 0%R 300)) (@Arr1 reals (repeat 1%R 300))
    = Ok (Num (fdiv reals
                 (accumulate (N:=reals)
                    (map (fun i => nth i (repeat 1%R 300) (of_Z reals 0))
                       (misclassified (N:=reals) 2 ys 1 (repeat 0%R 300) 300)))
                 (sum_all (@Arr1 reals (repeat 1%R 300))))).
Proof.
  apply (getError_classification reals sigmoid [sigmoid_layer] 300 2 2 1 batch300
           (repeat 0%R 300) (repeat 1%R 300)).
  - simpl. do 3 eexists. repeat split.
  - lia.
  - lia.
  - reflexivity.
  - reflexivity.
  - reflexivity.
Defined.

(** X13: with any other [validErrFunc], and targets of the shape of the
    output, the error is the distance between output row and target row,
    times the weight of the row, added up in row order from 0, over the sum
    of all weights. *)
Theorem getError_reconstruction (N : Numeric) (A : Activation N)
    (validErrFunc : string) (net : list (Layer N)) (n d d' : nat)
    (xs ts ws : list (F N)) :
  validErrFunc <> "classification"%string ->
  chained d net d' ->
  length xs = n * d -> length ts = n * d' -> length ws = n ->
  exists ys,
    run_through_network (A:=A) (Arr2 n d xs) net = Ok (Arr2 n d' ys) /\
    getError (A:=A) validErrFunc net (Arr2 n d xs) (Arr2 n d' ts) (Arr1 ws)
    = Ok (Num (fdiv N (accumulate (map (fun i => fmul N (row_distance d' ys ts i)
                                                   (nth i ws (of_Z N 0)))
                                     (seq 0 n)))
                      (sum_all (Arr1 ws)))).
Proof. apply getError_reconstruction_value. Qed.

Lemma getError_reconstruction_witness :
  exists ys,
    run_through_network (A:=sigmoid) (@Arr2 reals 300 2 batch300) [sigmoid_layer]
    = Ok (Arr2 300 2 ys) /\
    getError (A:=sigmoid) "reconstruction" [sigmoid_layer] (@Arr2 reals 300 2 batch300)
      (@Arr2 reals 300 2 batch300) (@Arr1 reals (repeat 1%R 300))
    = Ok (Num (fdiv reals
                 (accumulate (N:=reals)
                    (map (fun i => fmul reals (row_distance (N:=reals) 2 ys batch300 i)
                                     (nth i (repeat 1%R 300) (of_Z reals 0)))
                       (seq 0 300)))
                 (sum_all (@Arr1 reals (repeat 1%R 300))))).
Proof.
  apply (getError_reconstruction reals sigmoid "reconstruction" [sigmoid_layer] 300 2 2
           batch300 batch300 (repeat 1%R 300)).
  - discriminate.
  - simpl. do 3 eexists. repeat split.
  - reflexivity.
  - reflexivity.
  - reflexivity.
Defined.

(** ** [backprop_gradient]: what it reads and what it returns *)

Section GradientFacts.
Context {N : Numeric} {A : Activation N}.

Lemma for_each_invariant {T S : Type} (P : S -> Prop) (body : T -> S -> result S)
    (l : list T) : forall st st',
  (forall x st st', body x st = Ok st' -> P st -> P st') ->
  P st -> for_each l body st = Ok st' -> P st'.
Proof.
  induction l as [ | x l IH]; intros st st' Hbody Hst H; simpl in H.
  - now injection H as <-.
  - bind_inv H. apply (IH x0 st' Hbody); [ | exact H].
    now apply (Hbody x st x0).
Qed.

Lemma try_except_returns {T : Type} (c h : result T) (e : exn) (a : T) :
  try_except c e h = Ok a -> c = Ok a \/ h = Ok a.
Proof.
  unfold try_except. destruct c as [a' | e']; [now left | ].
  destruct e, e'; intros H; try discriminate; now right.
Qed.

Lemma splice_length (v ys : list (F N)) (s e : nat) :
  s <= e -> e <= length v -> length ys = e - s -> length (splice v s e ys) = length v.
Proof.
  intros Hse He Hys. unfold splice.
  rewrite !length_app, length_firstn, length_skipn. lia.
Qed.

Lemma splice_beyond (v : list (F N)) (s : nat) :
  length v < s -> splice v s (length v) [] = v.
Proof.
  intros Hs. unfold splice. rewrite firstn_all2, skipn_all by lia.
  apply app_nil_r.
Qed.

(** [v[s:e] = val] never changes the length of [v]. *)
Lemma setslice_length (v v' : vec N) (s e : nat) (val : ndarray N) :
  s <= e -> setslice v s e val = Ok v' -> length v' = length v.
Proof.
  intros Hse. unfold setslice.
  assert (Hfill : forall ys : list (F N),
             length ys = Nat.min e (length v) - s ->
             length (splice v s (Nat.min e (length v)) ys) = length v).
  { intros ys Hys. destruct (Nat.le_gt_cases s (length v)) as [Hs | Hs].
    - apply splice_length; lia.
    - replace (Nat.min e (length v)) with (length v) in * by lia.
      replace (length v - s) with 0 in Hys by lia.
      destruct ys; [ | discriminate]. now rewrite splice_beyond. }
  destruct val as [x | xs | h w xs]; [ | | discriminate].
  - intros H. injection H as <-. apply Hfill, repeat_length.
  - destruct (Nat.eqb_spec (length xs) (Nat.min e (length v) - s)) as [Hxs | _].
    + intros H. injection H as <-. now apply Hfill.
    + destruct (length xs =? 1); [ | discriminate].
      intros H. injection H as <-. apply Hfill, repeat_length.
Qed.

Lemma store_layer_length (dW db : list (ndarray N)) (i : nat) (st st' : vec N * nat) :
  store_layer dW db i st = Ok st' -> length (fst st') = length (fst st).
Proof.
  destruct st as [grad ind]. unfold store_layer. intros H.
  bind_inv H. bind_inv H.
  assert (Hx0 : length x0 = length grad).
  { apply try_except_returns in E0 as [E0 | E0]; repeat bind_inv E0;
      (apply setslice_length in E0; [exact E0 | lia]). }
  bind_inv H. bind_inv H. apply try_except_returns in H as [H | H];
    repeat bind_inv H; injection H as <-; simpl;
    match goal with
    | Hs : setslice _ _ _ _ = Ok _ |- _ => apply setslice_length in Hs; [congruence | lia]
    end.
Qed.

Lemma unflatten_layer_same_shape (v : vec N) (ind : nat) (l1 l2 : Layer N) :
  same_shape l1 l2 -> unflatten_layer v ind l1 = unflatten_layer v ind l2.
Proof.
  intros (HW & Hb & Hk & Ht). unfold unflatten_layer. now rewrite HW, Hb, Hk, Ht.
Qed.

Lemma unflatten_from_same_shape (v : vec N) (net1 net2 : list (Layer N)) :
  Forall2 same_shape net1 net2 ->
  forall ind, unflatten_from v ind net1 = unflatten_from v ind net2.
Proof.
  induction 1 as [ | l1 l2 net1 net2 Hl _ IH]; intros ind; simpl; [reflexivity | ].
  rewrite (unflatten_layer_same_shape v ind l1 l2 Hl).
  destruct (unflatten_layer v ind l2) as [[l ind'] | e]; simpl; [ | reflexivity].
  now rewrite IH.
Qed.

Lemma unflatten_from_length (v : vec N) (network : list (Layer N)) :
  forall ind network',
    unflatten_from v ind network = Ok network' -> length network' = length network.
Proof.
  induction network as [ | l network IH]; intros ind network' H; simpl in H.
  - now injection H as <-.
  - bind_inv H. destruct x as [l' ind']. bind_inv H. injection H as <-.
    simpl. f_equal. eauto.
Qed.
End GradientFacts.

(** X14: the cost [backprop_gradient] returns is the loss of what
    [run_through_network] returns on the network with the parameters [v];
    and when that forward pass raises, [backprop_gradient] raises the same. *)
Theorem backprop_gradient_cost (N : Numeric) (A : Activation N) (targetCost : string)
    (network : list (Layer N)) (X targets weights : ndarray N) (v : vec N)
    (n : nat) (network' : list (Layer N)) :
  shape0 X = Ok n -> unflatten v network = Ok network' ->
  (forall e, run_through_network (A:=A) X network' = Raise e ->
             backprop_gradient (A:=A) targetCost network X targets weights v = Raise e) /\
  (forall cost grad,
      backprop_gradient (A:=A) targetCost network X targets weights v = Ok (cost, grad) ->
      exists out Ix,
        run_through_network (A:=A) X network' = Ok out /\
        output_error (A:=A) targetCost n out targets weights = Ok (cost, Ix)).
Proof.
  intros Hn Hun. unfold backprop_gradient. rewrite Hn, Hun. cbn [bind].
  pose proof (forward_run_through_network (A:=A) network' X) as Hfw.
  pose proof (unflatten_from_length v network 0 network' Hun) as Hlen.
  destruct (forward network' X) as [acts | e0].
  - destruct Hfw as (_ & _ & out & Hnth & Hrun). split.
    + intros e He. rewrite Hrun in He. discriminate.
    + intros cost grad H. cbn [bind] in H.
      unfold list_get in H. rewrite <- Hlen, Hnth in H. cbn [bind] in H.
      destruct (output_error _ _ _ _ _) as [[cost' Ix] | e] eqn:Eo; [ | discriminate].
      cbn [bind] in H. do 3 bind_inv H. destruct x1 as [grad' ind].
      injection H as <- _. exists out, Ix. split; [exact Hrun | exact Eo].
  - split.
    + intros e He. rewrite Hfw in He. injection He as <-. reflexivity.
    + intros cost grad H. discriminate.
Qed.

Lemma backprop_gradient_cost_witness :
  exists cost grad out Ix,
    backprop_gradient (A:=sigmoid) "linSquaredErr" [sigmoid_layer]
      (@Arr2 reals 1 2 [1; 0]%R) (@Arr2 reals 1 2 [1; 2]%R) (@Arr1 reals [1%R])
      (repeat 0%R 6) = Ok (cost, grad) /\
    run_through_network (A:=sigmoid) (@Arr2 reals 1 2 [1; 0]%R)
      [MkLayer (@Arr2 reals 2 2 (repeat 0%R 4)) (@Arr1 reals (repeat 0%R 2)) 2 "sigmoid"]
    = Ok out /\
    output_error (A:=sigmoid) "linSquaredErr" 1 out (@Arr2 reals 1 2 [1; 2]%R)
      (@Arr1 reals [1%R]) = Ok (cost, Ix).
Proof.
  destruct (backprop_gradient (A:=sigmoid) "linSquaredErr" [sigmoid_layer]
              (@Arr2 reals 1 2 [1; 0]%R) (@Arr2 reals 1 2 [1; 2]%R) (@Arr1 reals [1%R])
              (repeat 0%R 6)) as [[cost grad] | e] eqn:E.
  - destruct (backprop_gradient_cost reals sigmoid "linSquaredErr" [sigmoid_layer]
                (@Arr2 reals 1 2 [1; 0]%R) (@Arr2 reals 1 2 [1; 2]%R) (@Arr1 reals [1%R])
                (repeat 0%R 6) 1
                [MkLayer (@Arr2 reals 2 2 (repeat 0%R 4)) (@Arr1 reals (repeat 0%R 2))
                   2 "sigmoid"]
                eq_refl eq_refl) as [_ Hcost].
    destruct (Hcost cost grad E) as (out & Ix & Hrun & Hout).
    exists cost, grad, out, Ix. auto.
  - lazy -[Rplus Rmult Rminus Rdiv Ropp exp IZR Rpower.ln sqrt] in E. discriminate.
Defined.

(** X15: the gradient [backprop_gradient] returns has the length of the
    parameter vector [v] it was called with. *)
Theorem backprop_gradient_length (N : Numeric) (A : Activation N) (targetCost : string)
    (network : list (Layer N)) (X targets weights : ndarray N) (v grad : vec N)
    (cost : F N) :
  backprop_gradient (A:=A) targetCost network X targets weights v = Ok (cost, grad) ->
  length grad = length v.
Proof.
  unfold backprop_gradient. intros H.
  do 4 bind_inv H. destruct (output_error _ _ _ _ _) as [[cost' Ix] | e]; [ | discriminate].
  cbn [bind] in H. do 3 bind_inv H. destruct x5 as [grad' ind]. injection H as _ <-.
  apply (for_each_invariant (fun st : vec N * nat => length (fst st) = length v)) in E5.
  - exact E5.
  - intros i st st' Hstore Hst. apply store_layer_length in Hstore. congruence.
  - simpl. unfold zeros_like. apply repeat_length.
Qed.

Lemma backprop_gradient_length_witness :
  exists cost grad,
    backprop_gradient (A:=sigmoid) "linSquaredErr" [sigmoid_layer]
      (@Arr2 reals 1 2 [1; 0]%R) (@Arr2 reals 1 2 [1; 2]%R) (@Arr1 reals [1%R])
      (repeat 0%R 6) = Ok (cost, grad) /\
    length grad = length (repeat 0%R 6).
Proof.
  destruct (backprop_gradient (A:=sigmoid) "linSquaredErr" [sigmoid_layer]
              (@Arr2 reals 1 2 [1; 0]%R) (@Arr2 reals 1 2 [1; 2]%R) (@Arr1 reals [1%R])
              (repeat 0%R 6)) as [[cost grad] | e] eqn:E.
  - exists cost, grad. split; [reflexivity | ].
    exact (backprop_gradient_length reals sigmoid _ _ _ _ _ _ _ _ E).
  - lazy -[Rplus Rmult Rminus Rdiv Ropp exp IZR Rpower.ln sqrt] in E. discriminate.
Defined.

(** X16: [backprop_gradient] reads the shapes, the sizes and the
    activation types of the network it is given, never the weights it
    holds: those are overwritten from [v] first.  On two networks of the
    same shapes it returns the same, or raises the same. *)
Theorem backprop_gradient_reads_shapes_only (N : Numeric) (A : Activation N)
    (targetCost : string) (net1 net2 : list (Layer N))
    (X targets weights : ndarray N) (v : vec N) :
  Forall2 same_shape net1 net2 ->
  backprop_gradient (A:=A) targetCost net1 X targets weights v
  = backprop_gradient (A:=A) targetCost net2 X targets weights v.
Proof.
  intros H. unfold backprop_gradient, unflatten.
  rewrite (unflatten_from_same_shape v net1 net2 H 0).
  now rewrite (Forall2_length H).
Qed.

Lemma backprop_gradient_reads_shapes_only_witness :
  backprop_gradient (A:=sigmoid) "crossEntropy" (@xor_net reals 1 2 3 4 5 6 7 8 9)%R
    xor_data xor_targets (ones1 4) (repeat 0%R 9)
  = backprop_gradient (A:=sigmoid) "crossEntropy" (@xor_net reals 0 0 0 0 0 0 0 0 0)%R
      xor_data xor_targets (ones1 4) (repeat 0%R 9).
Proof.
  apply (backprop_gradient_reads_shapes_only reals sigmoid).
  repeat constructor.
Defined.

(** X17: with the weights [train] builds, one 1 per sample, the scaling of
    the output error multiplies every entry by 1: which sample a weight
    belongs to makes no difference then. *)
Theorem scale_by_unit_weights (N : Numeric) (n k : nat) (xs : list (F N)) :
  length xs = n * k ->
  scale_by_weights (Arr2 n k xs) (ones1 n)
  = Ok (Arr2 n k (map (fun x => fmul N x (of_Z N 1)) xs)).
Proof.
  intros Hxs. unfold ones1. rewrite (scale_by_weights_1d n k xs); [ | apply repeat_length].
  rewrite concat_repeat_repeat, map2_repeat; [reflexivity | lia].
Qed.

Lemma scale_by_unit_weights_witness :
  scale_by_weights (@Arr2 float64 2 2 [1; 2; 3; 4]%float) (ones1 2)
  = Ok (@Arr2 float64 2 2
          (map (fun x => fmul float64 x (of_Z float64 1)) [1; 2; 3; 4]%float)).
Proof.
  apply (scale_by_unit_weights float64 2 2 [1; 2; 3; 4]%float). reflexivity.
Defined.

(** ** Unflattening a vector of another length *)

Section UnflattenFacts.
Context {N : Numeric}.

Lemma slice_app_l {T : Type} (v extra : list T) (a b : nat) :
  b <= length v -> slice (v ++ extra) a b = slice v a b.
Proof.
  intros Hb. unfold slice. rewrite skipn_app, firstn_app, length_skipn.
  replace (b - a - (length v - a)) with 0 by lia.
  cbn [firstn]. apply app_nil_r.
Qed.

Lemma slice_short {T : Type} (v : list T) (a b : nat) :
  length v < b -> length (slice v a b) < b - a \/ b <= a.
Proof.
  intros Hb. unfold slice. rewrite length_firstn, length_skipn. lia.
Qed.

Lemma slice_to_the_end {T : Type} (v : list T) (a b : nat) :
  length v <= b -> slice v a b = skipn a v.
Proof.
  intros Hb. unfold slice. apply firstn_all2. rewrite length_skipn. lia.
Qed.

Lemma wf_layer_shape (l : Layer N) :
  wf_layer l ->
  exists h w ws bs, W l = Arr2 h w ws /\ hbias l = Arr1 bs /\
                    nparams_layer l = h * w + length bs.
Proof.
  unfold wf_layer, nparams_layer.
  destruct (W l) as [x | xs | h w ws]; try tauto.
  destruct (hbias l) as [x | bs | h' w' bs]; try tauto.
  intros _. exists h, w, ws, bs. auto.
Qed.

(** The position a layer is read from does not depend on [v]. *)
Lemma unflatten_from_app (v : vec N) (front rest : list (Layer N)) :
  Forall wf_layer front ->
  forall ind,
    unflatten_from v ind (front ++ rest)
    = bind (unflatten_from v ind front)
        (fun front' => bind (unflatten_from v (ind + nparams front) rest)
                         (fun rest' => Ok (front' ++ rest'))).
Proof.
  induction 1 as [ | l front Hl _ IH]; intros ind; simpl.
  - unfold nparams. simpl. rewrite Nat.add_0_r.
    now destruct (unflatten_from v ind rest).
  - destruct (wf_layer_shape l Hl) as (h & w & ws & bs & HW & Hb & Hn).
    unfold nparams. simpl. fold (nparams front). rewrite Hn.
    unfold unflatten_layer. rewrite HW, Hb. cbn [shape2 len bind].
    destruct (reshape2 _ h w) as [W' | e]; cbn [bind]; [ | reflexivity].
    rewrite IH. replace (ind + h * w + length bs + nparams front)
      with (ind + (h * w + length bs + nparams front)) by lia.
    destruct (unflatten_from v (ind + h * w + length bs) front) as [front' | e];
      cbn [bind]; [ | reflexivity].
    now destruct (unflatten_from v _ rest).
Qed.

(** Putting [v] back fails by a ValueError only. *)
Lemma unflatten_from_raises (v : vec N) (network : list (Layer N)) :
  Forall wf_layer network ->
  forall ind e, unflatten_from v ind network = Raise e -> e = ValueError.
Proof.
  induction 1 as [ | l network Hl _ IH]; intros ind e H; simpl in H; [discriminate | ].
  destruct (wf_layer_shape l Hl) as (h & w & ws & bs & HW & Hb & _).
  unfold unflatten_layer in H. rewrite HW, Hb in H. cbn [shape2 len bind] in H.
  unfold reshape2 in H. cbn [buffer bind] in H.
  destruct (_ =? _); cbn [bind] in H; [ | now injection H as <-].
  destruct (unflatten_from v _ network) as [rest | e'] eqn:E; cbn [bind] in H;
    [discriminate | ].
  injection H as <-. eauto.
Qed.

Lemma unflatten_from_tail (v extra : vec N) (network : list (Layer N)) :
  Forall wf_layer network ->
  forall ind, ind + nparams network <= length v ->
    unflatten_from (v ++ extra) ind network = unflatten_from v ind network.
Proof.
  induction 1 as [ | l network Hl _ IH]; intros ind Hlen; simpl; [reflexivity | ].
  destruct (wf_layer_shape l Hl) as (h & w & ws & bs & HW & Hb & Hn).
  unfold nparams in Hlen. simpl in Hlen. fold (nparams network) in Hlen.
  rewrite Hn in Hlen.
  unfold unflatten_layer. rewrite HW, Hb. cbn [shape2 len bind].
  rewrite !slice_app_l by lia.
  destruct (reshape2 _ h w) as [W' | e]; cbn [bind]; [ | reflexivity].
  rewrite IH by lia. reflexivity.
Qed.
End UnflattenFacts.

(** X18: what the unflattening of [doBackprop] and [backprop_gradient]
    does with a vector of another length.  One that ends before the last
    weight matrix does raises ValueError; one that ends inside the last
    bias is accepted, and leaves that layer a bias of fewer entries, the
    rest of [v] in single precision; and entries beyond the last bias are
    not read. *)
Theorem unflatten_bounds (N : Numeric) (front : list (Layer N)) (l : Layer N)
    (h w : nat) (ws bs : list (F N)) (v : vec N) :
  Forall wf_layer front ->
  W l = Arr2 h w ws -> length ws = h * w -> hbias l = Arr1 bs -> 0 < h * w ->
  (length v < nparams front + h * w ->
   unflatten v (front ++ [l]) = Raise ValueError) /\
  (nparams front + h * w <= length v < nparams front + h * w + length bs ->
   exists front' W',
     unflatten v (front ++ [l])
     = Ok (front' ++ [MkLayer W'
                        (Arr1 (map (fsingle N) (skipn (nparams front + h * w) v)))
                        (n_hidden l) (hidtype l)])) /\
  (nparams front + h * w + length bs <= length v ->
   forall extra, unflatten (v ++ extra) (front ++ [l]) = unflatten v (front ++ [l])).
Proof.
  intros Hfront HW Hws Hb Hhw.
  assert (Hlast : unflatten_from v (nparams front) [l]
                  = bind (reshape2 (Arr1 (slice v (nparams front) (nparams front + h * w)))
                            h w)
                      (fun W' => Ok [MkLayer (garray W')
                                       (garray
                                          (Arr1 (slice v (nparams front + h * w)
                                                   (nparams front + h * w + length bs))))
                                       (n_hidden l) (hidtype l)])).
  { simpl. unfold unflatten_layer. rewrite HW, Hb. cbn [shape2 len bind].
    now destruct (reshape2 _ h w). }
  assert (Hall : unflatten v (front ++ [l])
                 = bind (unflatten_from v 0 front)
                     (fun front' =>
                        bind (bind (reshape2 (Arr1 (slice v (nparams front)
                                                      (nparams front + h * w))) h w)
                                (fun W' => Ok [MkLayer (garray W')
                                                 (garray
                                                    (Arr1 (slice v (nparams front + h * w)
                                                             (nparams front + h * w
                                                              + length bs))))
                                                 (n_hidden l) (hidtype l)]))
                          (fun rest' => Ok (front' ++ rest')))).
  { unfold unflatten. rewrite (unflatten_from_app v front [l] Hfront 0). cbn [Nat.add].
    now rewrite Hlast. }
  split; [ | split].
  - rewrite Hall. intros Hshort.
    destruct (unflatten_from v 0 front) as [front' | e] eqn:E; cbn [bind].
    + unfold reshape2. cbn [buffer bind].
      destruct (slice_short v (nparams front) (nparams front + h * w)) as [Hs | Hs];
        [lia | | lia].
      rewrite (proj2 (Nat.eqb_neq _ _)) by lia. reflexivity.
    + now rewrite (unflatten_from_raises v front Hfront 0 e E).
  - rewrite Hall. intros [Hlo Hhi].
    destruct (flatten_unflatten_from front v Hfront 0) as (front' & -> & _); [lia | ].
    cbn [bind]. unfold reshape2. cbn [buffer bind].
    rewrite slice_length by lia.
    replace (nparams front + h * w - nparams front) with (h * w) by lia.
    rewrite Nat.eqb_refl. cbn [bind].
    rewrite (slice_to_the_end v (nparams front + h * w)) by lia.
    unfold garray at 2. cbn [emap]. eauto.
  - intros Hlen extra.
    assert (Hn : nparams (front ++ [l]) = nparams front + h * w + length bs).
    { unfold nparams. rewrite map_app, list_sum_app. simpl.
      unfold nparams_layer. rewrite HW, Hb. lia. }
    unfold unflatten. apply unflatten_from_tail; [ | simpl; lia].
    apply Forall_app. split; [exact Hfront | ]. constructor; [ | constructor].
    unfold wf_layer. rewrite HW, Hb.
    exact Hws.
Qed.

Lemma unflatten_bounds_witness :
  exists front' W',
    unflatten five_entries linear22
    = Ok (front' ++ [MkLayer W' (@Arr1 float64 [5%float]) 2 "gaussian"]).
Proof.
  apply (unflatten_bounds float64 []
           (MkLayer (@Arr2 float64 2 2 [0; 0; 0; 0]%float) (@Arr1 float64 [0; 0]%float)
              2 "gaussian")
           2 2 [0; 0; 0; 0]%float [0; 0]%float five_entries).
  - constructor.
  - reflexivity.
  - reflexivity.
  - reflexivity.
  - lia.
  - simpl. lia.
Defined.

(** ** [backprop_gradient] on a network of one layer *)

Section OneLayer.
Context {N : Numeric} {A : Activation N}.
Local Abbreviation zero := (of_Z N 0).
Local Abbreviation one := (of_Z N 1).

(** In an arithmetic whose numbers a device array stores as they are,
    [gp.garray] changes nothing. *)
Lemma map_fsingle_exact (xs : list (F N)) :
  (forall x : F N, fsingle N x = x) -> map (fsingle N) xs = xs.
Proof.
  intros Hexact. rewrite (map_ext _ (fun x => x) Hexact). apply map_id.
Qed.

Lemma garray_exact (a : ndarray N) :
  (forall x : F N, fsingle N x = x) -> garray a = a.
Proof.
  intros Hexact. unfold garray.
  destruct a as [x | xs | h w xs]; cbn [emap];
    now rewrite ?Hexact, ?(map_fsingle_exact _ Hexact).
Qed.

Lemma nth_slice (xs : list (F N)) (s e j : nat) :
  j < e - s -> nth j (slice xs s e) zero = nth (s + j) xs zero.
Proof.
  intros Hj. unfold slice.
  assert (Hfirst : forall m (l : list (F N)) j,
             j < m -> nth j (firstn m l) zero = nth j l zero).
  { induction m as [ | m IH]; intros l i Hi; [lia | ].
    destruct l as [ | x l]; [now destruct i | ].
    destruct i as [ | i]; [reflexivity | ]. simpl. apply IH. lia. }
  assert (Hskip : forall m (l : list (F N)) j,
             nth j (skipn m l) zero = nth (m + j) l zero).
  { induction m as [ | m IH]; intros l i; [reflexivity | ].
    destruct l as [ | x l]; [now destruct i | ]. simpl. apply IH. }
  now rewrite Hfirst, Hskip.
Qed.

Lemma nth_row (w : nat) (xs : list (F N)) (i j : nat) :
  j < w -> nth j (row w xs i) zero = entry w xs i j.
Proof. intros Hj. unfold row, entry. apply nth_slice. lia. Qed.

Lemma row_repeat (c : F N) (w n i : nat) :
  i < n -> row w (repeat c (n * w)) i = repeat c w.
Proof.
  intros Hi. unfold row, slice. rewrite skipn_repeat.
  replace (n * w - i * w) with (w + (n - i - 1) * w) by nia.
  rewrite repeat_app, firstn_app, repeat_length.
  replace (i * w + w - i * w) with w by lia.
  rewrite Nat.sub_diag. cbn [firstn]. rewrite app_nil_r.
  apply firstn_all2. now rewrite repeat_length.
Qed.

(** Entry [(i, j)] and column [j] of a buffer given row by row. *)
Lemma entry_flat_map (f : nat -> list (F N)) (w n i j : nat) :
  (forall i, i < n -> length (f i) = w) -> i < n -> j < w ->
  entry w (flat_map f (seq 0 n)) i j = nth j (f i) zero.
Proof.
  intros Hf Hi Hj. rewrite <- nth_row by exact Hj. now rewrite row_flat_map.
Qed.

Lemma col_flat_map (f : nat -> list (F N)) (w n j : nat) :
  (forall i, i < n -> length (f i) = w) -> j < w ->
  col n w (flat_map f (seq 0 n)) j = map (fun i => nth j (f i) zero) (seq 0 n).
Proof.
  intros Hf Hj. unfold col. apply map_ext_in. intros i Hi. apply in_seq in Hi.
  apply entry_flat_map; auto. lia.
Qed.

Lemma firstn_flat_map (f : nat -> list (F N)) (w n m : nat) :
  (forall i, i < n -> length (f i) = w) -> m <= n ->
  firstn (m * w) (flat_map f (seq 0 n)) = flat_map f (seq 0 m).
Proof.
  intros Hf Hm. replace n with (m + (n - m)) in * by lia.
  rewrite seq_app, flat_map_app.
  assert (Hlen : length (flat_map f (seq 0 m)) = m * w).
  { rewrite (flat_map_length_const f w), length_seq; [reflexivity | ].
    intros i Hi. apply in_seq in Hi. apply Hf. lia. }
  rewrite firstn_app, Hlen, Nat.sub_diag. cbn [firstn]. rewrite app_nil_r.
  apply firstn_all2. lia.
Qed.

Lemma map_seq_const {T : Type} (c : T) (n : nat) : forall s,
  map (fun _ => c) (seq s n) = repeat c n.
Proof. induction n as [ | n IH]; intros s; simpl; [reflexivity | now rewrite IH]. Qed.

Section Batch.
Variables (n d k : nat) (xs ix : list (F N)).
Hypothesis Hxs : length xs = n * d.
Hypothesis Hix : length ix = n * k.
Hypothesis Hexact : forall x : F N, fsingle N x = x.

Lemma augmented_row_length (i : nat) : i < n -> length (row d xs i ++ [one]) = d + 1.
Proof. intros Hi. rewrite length_app, row_length by nia. reflexivity. Qed.

Lemma augmented_column_data (a : nat) :
  a < d -> augmented_column n d xs a = col n d xs a.
Proof.
  intros Ha. unfold augmented_column, col. apply map_ext_in. intros i Hi.
  apply in_seq in Hi.
  rewrite app_nth1 by (rewrite row_length; [exact Ha | nia]).
  now apply nth_row.
Qed.

Lemma augmented_column_ones : augmented_column n d xs d = repeat one n.
Proof.
  unfold augmented_column. rewrite <- (map_seq_const one n 0).
  apply map_ext_in. intros i Hi. apply in_seq in Hi.
  rewrite app_nth2; rewrite row_length by nia; [ | lia].
  now rewrite Nat.sub_diag.
Qed.

Lemma augment :
  concatenate1 (Arr2 n d xs) (ones2 n 1)
  = Ok (Arr2 n (d + 1) (flat_map (fun i => row d xs i ++ [one]) (seq 0 n))).
Proof.
  unfold concatenate1, ones2. rewrite Nat.eqb_refl. do 2 f_equal.
  apply flat_map_ext_in. intros i Hi. apply in_seq in Hi. f_equal.
  now apply row_repeat.
Qed.

(** [delta = gp.dot(acts[i].T, Ix)] with the ones appended to [acts[i]]. *)
Lemma delta_is :
  bind (concatenate1 (Arr2 n d xs) (ones2 n 1))
    (fun a => bind (transpose a) (fun aT => dot aT (Arr2 n k ix)))
  = Ok (Arr2 (d + 1) k
          (flat_map (fun a => map (delta_entry n d k xs ix a) (seq 0 k)) (seq 0 (d + 1)))).
Proof.
  rewrite augment. cbn [bind transpose dot]. rewrite Nat.eqb_refl. do 2 f_equal.
  unfold matmul. apply flat_map_ext_in. intros a Ha. apply in_seq in Ha.
  apply map_ext. intros b. unfold delta_entry. do 2 f_equal.
  rewrite row_flat_map; [ | | lia].
  - apply col_flat_map; [ | lia]. apply augmented_row_length.
  - intros j _. unfold col. now rewrite length_map, length_seq.
Qed.

(** [delta[:-1].T], flattened: one row per output unit. *)
Lemma dW_is :
  bind (droplast (Arr2 (d + 1) k
                    (flat_map (fun a => map (delta_entry n d k xs ix a) (seq 0 k))
                       (seq 0 (d + 1)))))
    transpose
  = Ok (Arr2 k d (flat_map (fun b => map (fun a => delta_entry n d k xs ix a b) (seq 0 d))
                    (seq 0 k))).
Proof.
  cbn [droplast bind]. replace (d + 1 - 1) with d by lia.
  rewrite (firstn_flat_map _ k (d + 1) d);
    [ | intros; now rewrite length_map, length_seq | lia].
  cbn [transpose]. do 2 f_equal. apply flat_map_ext_in. intros b Hb. apply in_seq in Hb.
  unfold col. apply map_ext_in. intros a Ha. apply in_seq in Ha.
  unfold entry.
  apply (nth_flat_map_rows (fun a b => delta_entry n d k xs ix a b) k d a b); lia.
Qed.

(** [delta[-1]]: one entry per output unit. *)
Lemma db_is :
  last_item (Arr2 (d + 1) k
               (flat_map (fun a => map (delta_entry n d k xs ix a) (seq 0 k))
                  (seq 0 (d + 1))))
  = Ok (Arr1 (map (delta_entry n d k xs ix d) (seq 0 k))).
Proof.
  unfold last_item. replace (d + 1) with (S d) by lia. do 2 f_equal.
  apply (row_flat_map (fun a => map (delta_entry n d k xs ix a) (seq 0 k)) k (S d) d);
    [ | lia].
  intros; now rewrite length_map, length_seq.
Qed.

(** The one pass of the loop that computes the gradients. *)
Lemma backward_one_layer (network : list (Layer N)) (out : ndarray N) :
  backward_layer n network 0
    {| bw_acts := [Arr2 n d xs; out]; bw_Ix := Arr2 n k ix; bw_dW := []; bw_db := [] |}
  = Ok {| bw_acts := [Arr2 n (d + 1) (flat_map (fun i => row d xs i ++ [one]) (seq 0 n));
                      out];
          bw_Ix := Arr2 n k ix;
          bw_dW := [Arr2 k d (flat_map (fun b => map (fun a => delta_entry n d k xs ix a b)
                                                  (seq 0 d))
                                (seq 0 k))];
          bw_db := [Arr1 (map (delta_entry n d k xs ix d) (seq 0 k))] |}.
Proof.
  unfold backward_layer. cbn [bw_acts bw_Ix bw_dW bw_db list_get nth_error bind].
  rewrite (garray_exact _ Hexact).
  pose proof delta_is as Hdelta. rewrite augment in Hdelta |- *.
  cbn [bind] in Hdelta |- *.
  destruct (transpose _) as [aT | e]; [ | discriminate]. cbn [bind] in Hdelta |- *.
  rewrite Hdelta. cbn [bind].
  pose proof dW_is as HdW. cbn [bind] in HdW.
  destruct (droplast _) as [dl | e]; [ | discriminate]. cbn [bind] in HdW |- *.
  rewrite HdW. cbn [bind]. rewrite db_is. cbn [bind transpose try_except Nat.ltb Nat.leb].
  reflexivity.
Qed.
End Batch.

(** [v[s:e] = new] on a slice that lies inside [v]. *)
Lemma setslice_middle (pre mid post new : list (F N)) :
  length new = length mid ->
  setslice (pre ++ mid ++ post) (length pre) (length pre + length mid) (Arr1 new)
  = Ok (pre ++ new ++ post).
Proof.
  intros Hnew. unfold setslice, splice. rewrite !length_app.
  replace (Nat.min (length pre + length mid) (length pre + (length mid + length post)))
    with (length pre + length mid) by lia.
  replace (length pre + length mid - length pre) with (length mid) by lia.
  rewrite Hnew, Nat.eqb_refl. do 2 f_equal.
  - rewrite firstn_app, Nat.sub_diag, firstn_all. cbn [firstn]. apply app_nil_r.
  - f_equal. rewrite app_assoc, skipn_app, length_app.
    rewrite Nat.sub_diag, skipn_all2 by (rewrite length_app; lia). reflexivity.
Qed.

(** The one pass of the loop that writes the gradients into [grad]. *)
Lemma store_one_layer (k d : nat) (dW db : list (F N)) (v : vec N) :
  length dW = k * d -> length db = k -> length v = d * k + k ->
  store_layer [Arr2 k d dW] [Arr1 db] 0 (zeros_like v, 0)
  = Ok (dW ++ db, k * d + k).
Proof.
  intros HdW Hdb Hv.
  assert (H1 : setslice (zeros_like v) 0 (0 + k * d) (Arr1 dW)
               = Ok (dW ++ repeat zero k)).
  { unfold zeros_like. rewrite Hv.
    replace (d * k + k) with (k * d + k) by lia. rewrite repeat_app.
    pose proof (setslice_middle [] (repeat zero (k * d)) (repeat zero k) dW) as H.
    rewrite repeat_length in H. cbn [app length Nat.add] in H |- *.
    apply H. exact HdW. }
  assert (H2 : setslice (dW ++ repeat zero k) (0 + k * d) (0 + k * d + k) (Arr1 db)
               = Ok (dW ++ db)).
  { pose proof (setslice_middle dW (repeat zero k) [] db) as H.
    rewrite repeat_length, HdW, !app_nil_r in H. cbn [Nat.add]. apply H. exact Hdb. }
  unfold store_layer.
  cbn [list_get nth_error bind shape0 shape1 size as_numpy_array].
  unfold reshape1. cbn [buffer bind]. rewrite HdW, Nat.eqb_refl.
  cbn [bind as_numpy_array]. rewrite H1. cbn [try_except bind].
  rewrite Hdb, H2. reflexivity.
Qed.
End OneLayer.

Section OneLayerGradientFacts.
Context {N : Numeric} {A : Activation N}.
Local Abbreviation zero := (of_Z N 0).
Local Abbreviation one := (of_Z N 1).
Hypothesis Hexact : forall x : F N, fsingle N x = x.

Lemma backprop_gradient_one_layer_value (targetCost : string) (l : Layer N)
    (n d k : nat) (xs ix : list (F N)) (T w : ndarray N) (v : vec N)
    (network' : list (Layer N)) (out Ix0 : ndarray N) (cost : F N) :
  length xs = n * d -> length v = d * k + k ->
  unflatten v [l] = Ok network' ->
  run_through_network (A:=A) (Arr2 n d xs) network' = Ok out ->
  output_error (A:=A) targetCost n out T w = Ok (cost, Ix0) ->
  scale_by_weights Ix0 w = Ok (Arr2 n k ix) -> length ix = n * k ->
  backprop_gradient (A:=A) targetCost [l] (Arr2 n d xs) T w v
  = Ok (cost,
        flat_map (fun b => map (fun a => delta_entry n d k xs ix a b) (seq 0 d)) (seq 0 k)
        ++ map (delta_entry n d k xs ix d) (seq 0 k)).
Proof.
  intros Hxs Hv Hun Hrun Hout Hscale Hix.
  unfold backprop_gradient. cbn [shape0 bind length]. rewrite Hun. cbn [bind].
  assert (Hone : exists l', network' = [l']).
  { unfold unflatten in Hun. cbn [unflatten_from] in Hun.
    destruct (unflatten_layer v 0 l) as [[l' ind'] | e]; [ | discriminate].
    cbn [bind] in Hun. injection Hun as <-. eauto. }
  destruct Hone as (l' & ->).
  unfold run_through_network in Hrun. cbn [for_each] in Hrun.
  rewrite (garray_exact _ Hexact) in Hrun.
  destruct (get_activation l' (Arr2 n d xs)) as [out' | e] eqn:Eact; [ | discriminate].
  cbn [bind] in Hrun. injection Hrun as ->.
  cbn [forward]. rewrite (garray_exact _ Hexact), Eact.
  cbn [bind list_get nth_error]. rewrite Hout.
  cbn [bind]. rewrite Hscale. cbn [bind range seq rev app for_each].
  rewrite (garray_exact _ Hexact).
  rewrite (backward_one_layer n d k xs ix Hxs Hix Hexact). cbn [bind bw_dW bw_db rev app].
  rewrite (store_one_layer k d); [reflexivity | | | exact Hv].
  - rewrite (flat_map_length_const _ d), length_seq; [reflexivity | ].
    intros; now rewrite length_map, length_seq.
  - now rewrite length_map, length_seq.
Qed.
End OneLayerGradientFacts.

(** ** One output unit, identity activation, squared error *)

Section OneUnit.
Context {N : Numeric} {A : Activation N}.
Local Abbreviation zero := (of_Z N 0).
Local Abbreviation one := (of_Z N 1).

Lemma flat_map_singleton {T U : Type} (f : T -> U) (l : list T) :
  flat_map (fun x => [f x]) l = map f l.
Proof. induction l as [ | x l IH]; simpl; [reflexivity | now rewrite IH]. Qed.

Lemma map2_maps (op : F N -> F N -> F N) (f g : nat -> F N) (l : list nat) :
  map2 op (map f l) (map g l) = map (fun i => op (f i) (g i)) l.
Proof. induction l as [ | x l IH]; simpl; [reflexivity | now rewrite IH]. Qed.

Lemma map_nth_seq (l : list (F N)) :
  map (fun i => nth i l zero) (seq 0 (length l)) = l.
Proof.
  induction l as [ | x l IH]; [reflexivity | ].
  cbn [length seq map nth]. f_equal. rewrite <- seq_shift, map_map. exact IH.
Qed.

Lemma col_single (n : nat) (l : list (F N)) :
  length l = n -> col n 1 l 0 = l.
Proof.
  intros <-. unfold col, entry. rewrite <- (map_nth_seq l) at 2.
  apply map_ext. intros i. f_equal. lia.
Qed.

Variables (l : Layer N) (n d : nat) (xs ts ws ws0 bs0 : list (F N)).
Hypothesis Hexact : forall x : F N, fsingle N x = x.
Hypothesis HW : W l = Arr2 d 1 ws0.
Hypothesis Hb : hbias l = Arr1 bs0.
Hypothesis Hbs : length bs0 = 1.
Hypothesis Hk : n_hidden l = 1.
Hypothesis Htype : String.eqb (hidtype l) "sigmoid" = false.
Hypothesis Hxs : length xs = n * d.
Hypothesis Hts : length ts = n.
Hypothesis Hws : length ws = n.

Local Abbreviation output_of := (unit_output d xs).
Local Abbreviation error_of := (unit_error d xs ts ws).
Local Abbreviation input_of := (augmented_entry d xs).

Lemma unflatten_one_unit (v : vec N) :
  length v = d + 1 ->
  unflatten v [l]
  = Ok [MkLayer (Arr2 d 1 (firstn d v)) (Arr1 (skipn d v)) 1 (hidtype l)].
Proof.
  intros Hv. unfold unflatten. cbn [unflatten_from]. unfold unflatten_layer.
  rewrite HW, Hb. cbn [shape2 len bind]. unfold reshape2. cbn [buffer bind].
  rewrite slice_length by lia. cbn [Nat.add]. rewrite Nat.mul_1_r, Nat.sub_0_r.
  rewrite Nat.eqb_refl. cbn [bind]. rewrite Hbs, Hk.
  unfold slice at 1. cbn [skipn]. rewrite Nat.sub_0_r.
  rewrite (slice_to_the_end v d (d + 1)) by lia.
  now rewrite !(garray_exact _ Hexact).
Qed.

Lemma run_one_unit (v : vec N) :
  length v = d + 1 ->
  run_through_network (A:=A) (Arr2 n d xs)
    [MkLayer (Arr2 d 1 (firstn d v)) (Arr1 (skipn d v)) 1 (hidtype l)]
  = Ok (Arr2 n 1 (map (output_of v) (seq 0 n))).
Proof.
  intros Hv. unfold run_through_network. cbn [for_each].
  rewrite (garray_exact _ Hexact).
  rewrite (get_activation_rows _ n d 1 xs (firstn d v) (skipn d v)); try reflexivity.
  - cbn [bind]. do 2 f_equal. rewrite <- flat_map_singleton.
    apply flat_map_ext. intros i. unfold out_row. cbn [hidtype]. rewrite Htype.
    unfold affine_row, unit_output. cbn [seq map].
    rewrite (col_single d (firstn d v)) by (rewrite length_firstn; lia).
    do 2 f_equal.
    rewrite <- (firstn_skipn d v) at 2.
    rewrite app_nth2; rewrite length_firstn; [ | lia].
    now replace (d - Nat.min d (length v)) with 0 by lia.
  - exact Hxs.
  - rewrite length_skipn. lia.
Qed.

Lemma map2_seq (op : F N -> F N -> F N) (f : nat -> F N) (bs : list (F N)) (m : nat) :
  length bs = m ->
  map2 op (map f (seq 0 m)) bs = map (fun i => op (f i) (nth i bs zero)) (seq 0 m).
Proof. intros <-. apply (map2_map_seq op f bs 0). Qed.

Lemma row_single (f : nat -> F N) (m i : nat) :
  i < m -> row 1 (map f (seq 0 m)) i = [f i].
Proof.
  intros Hi. rewrite <- flat_map_singleton.
  now apply (row_flat_map (fun i => [f i]) 1 m i).
Qed.

(** The cost and the scaled error signal. *)
Lemma output_error_one_unit (targetCost : string) (v : vec N) :
  String.eqb targetCost "crossEntropy" = false ->
  output_error (A:=A) targetCost n (Arr2 n 1 (map (output_of v) (seq 0 n)))
    (Arr2 n 1 ts) (Arr1 ws)
  = Ok (fmul N (lit 1 2)
          (fsum (map (fun i =>
                        fmul N
                          (fadd N zero
                             (fmul N (fsub N (output_of v i) (nth i ts zero))
                                (fsub N (output_of v i) (nth i ts zero))))
                          (nth i ws zero))
                   (seq 0 n))),
        Arr2 n 1 (map (fun i => fsub N (output_of v i) (nth i ts zero)) (seq 0 n))).
Proof.
  intros Htc. unfold output_error. rewrite Htc. unfold sub. cbn [ebinop].
  unfold broadcast2. rewrite !Nat.eqb_refl. cbn [andb bind].
  rewrite (map2_seq (fsub N) (output_of v) ts n Hts).
  cbn [emap sum_axis1 bind]. rewrite map_map.
  rewrite (map_ext_in
             (fun i => fsum (row 1 (map (fun i => _) (seq 0 n)) i))
             (fun i => fadd N zero
                         (fmul N (fsub N (output_of v i) (nth i ts zero))
                            (fsub N (output_of v i) (nth i ts zero)))));
    [ | intros i Hi; apply in_seq in Hi; rewrite row_single by lia; reflexivity].
  unfold mul. cbn [ebinop]. unfold vbinop. rewrite length_map, length_seq, Hws, Nat.eqb_refl.
  cbn [bind sum_all]. now rewrite (map2_seq (fmul N) _ ws n Hws).
Qed.

Lemma scale_one_unit (v : vec N) :
  scale_by_weights
    (Arr2 n 1 (map (fun i => fsub N (output_of v i) (nth i ts zero)) (seq 0 n)))
    (Arr1 ws)
  = Ok (Arr2 n 1 (map (error_of v) (seq 0 n))).
Proof.
  rewrite (scale_by_weights_1d n 1 _ ws Hws). cbn [repeat concat].
  rewrite app_nil_r. now rewrite (map2_seq (fmul N) _ ws n Hws).
Qed.

Lemma backprop_gradient_one_unit (targetCost : string) (T : ndarray N) (v : vec N) :
  String.eqb targetCost "crossEntropy" = false -> length v = d + 1 ->
  backprop_gradient (A:=A) targetCost [l] (Arr2 n d xs) (Arr2 n 1 ts) (Arr1 ws) v
  = Ok (fmul N (lit 1 2)
          (fsum (map (fun i =>
                        fmul N
                          (fadd N zero
                             (fmul N (fsub N (output_of v i) (nth i ts zero))
                                (fsub N (output_of v i) (nth i ts zero))))
                          (nth i ws zero))
                   (seq 0 n))),
        map (fun a => fsum (map (fun i => fmul N (input_of i a) (error_of v i))
                              (seq 0 n)))
          (seq 0 (d + 1))).
Proof.
  intros Htc Hv.
  rewrite (backprop_gradient_one_layer_value (A:=A) Hexact targetCost l n d 1 xs
             (map (error_of v) (seq 0 n)) (Arr2 n 1 ts) (Arr1 ws) v _ _ _ _
             Hxs ltac:(lia) (unflatten_one_unit v Hv) (run_one_unit v Hv)
             (output_error_one_unit targetCost v Htc) (scale_one_unit v));
    [ | now rewrite length_map, length_seq, Nat.mul_1_r].
  do 2 f_equal. cbn [seq flat_map map]. rewrite app_nil_r, seq_app, map_app.
  cbn [seq map Nat.add].
  assert (Hentry : forall a,
             delta_entry n d 1 xs (map (error_of v) (seq 0 n)) a 0
             = fsum (map (fun i => fmul N (input_of i a) (error_of v i))
                       (seq 0 n))).
  { intros a. unfold delta_entry, augmented_column.
    rewrite col_single by now rewrite length_map, length_seq.
    now rewrite map2_maps. }
  rewrite Hentry. f_equal. apply map_ext. exact Hentry.
Qed.
End OneUnit.

(** ** In exact arithmetic the gradient for one unit is the gradient *)

Section ExactGradient.
Local Open Scope R_scope.

Ltac as_reals := unfold vec in *; change (F reals) with R in *.
Ltac real_ring := as_reals; ring.

Lemma fold_left_Rplus (l : list R) : forall a,
  fold_left Rplus l a = a + fold_left Rplus l 0.
Proof.
  induction l as [ | x l IH]; intros a; simpl; [real_ring | ].
  rewrite (IH (a + x)), (IH (0 + x)). real_ring.
Qed.

Lemma fsum_cons (x : R) (l : list R) :
  @eq R (fsum (N:=reals) (x :: l)) (x + fsum (N:=reals) l).
Proof.
  unfold fsum. simpl. rewrite fold_left_Rplus. real_ring.
Qed.

Lemma fsum_nil : @eq R (fsum (N:=reals) (@nil R)) 0.
Proof. reflexivity. Qed.

Lemma fsum_map_minus {T : Type} (f g : T -> R) (l : list T) :
  fsum (N:=reals) (map f l) - fsum (N:=reals) (map g l)
  = fsum (N:=reals) (map (fun i => f i - g i) l).
Proof.
  induction l as [ | x l IH]; simpl map; rewrite ?fsum_nil, ?fsum_cons; [real_ring | ].
  rewrite <- IH. real_ring.
Qed.

Lemma fsum_map_scale {T : Type} (c : R) (f : T -> R) (l : list T) :
  c * fsum (N:=reals) (map f l) = fsum (N:=reals) (map (fun i => c * f i) l).
Proof.
  induction l as [ | x l IH]; simpl map; rewrite ?fsum_nil, ?fsum_cons; [real_ring | ].
  rewrite <- IH. real_ring.
Qed.

Lemma nth_at_length (T : Type) (r : list T) (x z : T) (m : nat) :
  length r = m -> nth m (r ++ [x]) z = x.
Proof. intros <-. apply nth_middle. Qed.

Lemma bump_length (v : list R) : forall (j : nat) (h : R), length (@bump reals v j h) = length v.
Proof.
  induction v as [ | x v IH]; intros [ | j] h; simpl; auto.
Qed.

Lemma firstn_bump (v : list R) : forall (m j : nat) (h : R),
  firstn m (@bump reals v j h) = @bump reals (firstn m v) j h.
Proof.
  induction v as [ | x v IH]; intros [ | m] [ | j] h; simpl; auto.
  - now rewrite IH.
Qed.

Lemma nth_bump (v : list R) : forall (m j : nat) (h : R),
  (m < length v)%nat ->
  @eq R (nth m (@bump reals v j h) 0) (nth m v 0 + (if Nat.eqb j m then h else 0)).
Proof.
  induction v as [ | x v IH]; intros [ | m] [ | j] h Hm; simpl in *; try lia; try real_ring.
  apply IH. lia.
Qed.

Lemma dot_bump (r : list R) : forall (u : list R) (j : nat) (h : R),
  length r = length u ->
  @eq R (fsum (N:=reals) (map2 (fmul reals) r (@bump reals u j h)))
        (fsum (N:=reals) (map2 (fmul reals) r u) + nth j r 0 * h).
Proof.
  induction r as [ | x r IH]; intros [ | y u] j h Hlen; simpl in Hlen; try lia.
  - destruct j; simpl; rewrite fsum_nil; real_ring.
  - destruct j as [ | j]; cbn [bump map2 nth]; rewrite !fsum_cons.
    + simpl. real_ring.
    + apply eq_add_S in Hlen. rewrite (IH u j h Hlen). real_ring.
Qed.

Section Unit.
Variables (A : Activation reals) (l : Layer reals) (n d : nat).
Variables (xs ts ws ws0 bs0 : list R).
Hypothesis HW : W l = @Arr2 reals d 1 ws0.
Hypothesis Hb : hbias l = @Arr1 reals bs0.
Hypothesis Hbs : length bs0 = 1%nat.
Hypothesis Hk : n_hidden l = 1%nat.
Hypothesis Htype : String.eqb (hidtype l) "sigmoid" = false.
Hypothesis Hxs : length xs = (n * d)%nat.
Hypothesis Hts : length ts = n.
Hypothesis Hws : length ws = n.

(** Moving parameter [j] by [h] moves the output for sample [i] by [h]
    times input [j] of the sample. *)
Lemma unit_output_bump (v : list R) (j i : nat) (h : R) :
  length v = (d + 1)%nat -> (i < n)%nat -> (j <= d)%nat ->
  @eq R (@unit_output reals d xs (@bump reals v j h) i)
        (@unit_output reals d xs v i + @augmented_entry reals d xs i j * h).
Proof.
  intros Hv Hi Hj. unfold unit_output, augmented_entry.
  assert (Hrow : length (row (N:=reals) d xs i) = d) by (apply row_length; as_reals; nia).
  as_reals. rewrite firstn_bump.
  change (fadd reals) with Rplus.
  rewrite dot_bump by (rewrite Hrow, length_firstn; lia).
  rewrite nth_bump by lia.
  cbn [of_Z reals]. as_reals.
  destruct (Nat.eqb_spec j d) as [-> | Hne].
  - match goal with
    | |- context [@nth R d (@app R ?r (@cons R ?x (@nil R))) ?z] =>
        replace (@nth R d (@app R r (@cons R x (@nil R))) z) with x
          by (symmetry; apply nth_at_length, Hrow)
    end.
    match goal with
    | |- context [@nth R d (@row reals d xs i) ?z] =>
        replace (@nth R d (@row reals d xs i) z) with z
          by (symmetry; apply nth_overflow, Nat.eq_le_incl, Hrow)
    end.
    ring.
  - match goal with
    | |- context [@nth R j (@app R ?r (@cons R ?x (@nil R))) ?z] =>
        replace (@nth R j (@app R r (@cons R x (@nil R))) z) with (@nth R j r z)
          by (symmetry; apply app_nth1; rewrite Hrow; apply Nat.le_neq; split; assumption)
    end.
    ring.
Qed.

(** The central difference of the cost is the entry of the gradient. *)
Lemma central_difference_one_unit (targetCost : string) (v : list R) (j : nat) (h : R) :
  String.eqb targetCost "crossEntropy" = false ->
  length v = (d + 1)%nat -> (j <= d)%nat -> h <> 0 ->
  central_difference
    (cost_of (A:=A) targetCost [l] (@Arr2 reals n d xs) (@Arr2 reals n 1 ts)
       (@Arr1 reals ws)) v j h
  = Ok (fsum (N:=reals)
          (map (fun i => @augmented_entry reals d xs i j * @unit_error reals d xs ts ws v i)
             (seq 0 n))).
Proof.
  intros Htc Hv Hj Hh. unfold central_difference, cost_of.
  rewrite !(backprop_gradient_one_unit (A:=A) l n d xs ts ws ws0 bs0
              (fun x : R => eq_refl)
              HW Hb Hbs Hk Htype Hxs Hts Hws targetCost (@Arr2 reals n 1 ts))
    by (rewrite ?bump_length; assumption).
  cbn [bind]. f_equal.
  change (fsub reals) with Rminus. change (fmul reals) with Rmult.
  change (fadd reals) with Rplus. change (fdiv reals) with Rdiv.
  change (fneg reals) with Ropp. change (of_Z reals) with IZR.
  change (@lit reals 1 2) with (1 / 2).
  rewrite <- Rmult_minus_distr_l, fsum_map_minus.
  rewrite (map_ext_in _
             (fun i => (4 * h) * (@augmented_entry reals d xs i j * @unit_error reals d xs ts ws v i))).
  - rewrite <- fsum_map_scale. as_reals. field. exact Hh.
  - intros i Hi. apply in_seq in Hi.
    rewrite !unit_output_bump by (assumption || lia).
    unfold unit_error.
    change (fsub reals) with Rminus. change (fmul reals) with Rmult.
    change (of_Z reals) with IZR. real_ring.
Qed.
End Unit.
End ExactGradient.

(** X19: a network of one layer with one output unit, no activation function
    and the squared-error cost, in exact arithmetic: [backprop_gradient]
    returns the cost and a vector whose every entry is the central
    difference of that cost along the same parameter, at any step but 0.
    The gradient is exact there. *)
Theorem backprop_gradient_exact_for_one_unit (A : Activation reals) (l : Layer reals)
    (n d : nat) (xs ts ws ws0 bs0 : list R) (targetCost : string)
    (v : list R)
    (h : R) :
  W l = @Arr2 reals d 1 ws0 -> hbias l = @Arr1 reals bs0 -> length bs0 = 1 ->
  n_hidden l = 1 ->
  hidtype l <> "sigmoid"%string -> targetCost <> "crossEntropy"%string ->
  length xs = n * d -> length ts = n -> length ws = n -> length v = d + 1 ->
  h <> 0%R ->
  exists cost grad,
    backprop_gradient (A:=A) targetCost [l] (@Arr2 reals n d xs) (@Arr2 reals n 1 ts)
      (@Arr1 reals ws) v = Ok (cost, grad) /\
    length grad = d + 1 /\
    forall j, j <= d ->
      central_difference
        (cost_of (A:=A) targetCost [l] (@Arr2 reals n d xs) (@Arr2 reals n 1 ts)
           (@Arr1 reals ws)) v j h
      = Ok (nth j grad 0%R).
Proof.
  intros HW Hb Hbs Hk Htype Htc Hxs Hts Hws Hv Hh.
  apply String.eqb_neq in Htype, Htc.
  do 2 eexists. split; [ | split].
  - apply (backprop_gradient_one_unit (A:=A) l n d xs ts ws ws0 bs0
              (fun x : R => eq_refl)
             HW Hb Hbs Hk Htype Hxs Hts Hws targetCost (@Arr2 reals n 1 ts) v Htc Hv).
  - now rewrite length_map, length_seq.
  - intros j Hj.
    rewrite (central_difference_one_unit A l n d xs ts ws ws0 bs0
               HW Hb Hbs Hk Htype Hxs Hts Hws targetCost v j h Htc Hv Hj Hh).
    f_equal.
    rewrite (nth_indep _ 0%R
               (fsum (N:=reals)
                  (map (fun i => (@augmented_entry reals d xs i 0
                                  * @unit_error reals d xs ts ws v i)%R) (seq 0 n))))
      by (rewrite length_map, length_seq; lia).
    rewrite (map_nth (fun a => fsum (N:=reals)
                                 (map (fun i => fmul reals (@augmented_entry reals d xs i a)
                                                  (@unit_error reals d xs ts ws v i))
                                    (seq 0 n)))).
    rewrite seq_nth by lia. reflexivity.
Qed.

Lemma backprop_gradient_exact_for_one_unit_witness :
  exists cost grad,
    backprop_gradient (A:=sigmoid) "linSquaredErr"
      [MkLayer (@Arr2 reals 2 1 [0; 0]%R) (@Arr1 reals [0%R]) 1 "gaussian"]
      (@Arr2 reals 2 2 [1; 0; 0; 1]%R) (@Arr2 reals 2 1 [1; 2]%R)
      (@Arr1 reals [1; 3]%R) [1; 2; 3]%R = Ok (cost, grad) /\
    length grad = 2 + 1 /\
    forall j, j <= 2 ->
      central_difference
        (cost_of (A:=sigmoid) "linSquaredErr"
           [MkLayer (@Arr2 reals 2 1 [0; 0]%R) (@Arr1 reals [0%R]) 1 "gaussian"]
           (@Arr2 reals 2 2 [1; 0; 0; 1]%R) (@Arr2 reals 2 1 [1; 2]%R)
           (@Arr1 reals [1; 3]%R)) [1; 2; 3]%R j 1%R
      = Ok (nth j grad 0%R).
Proof.
  apply (backprop_gradient_exact_for_one_unit sigmoid
           (MkLayer (@Arr2 reals 2 1 [0; 0]%R) (@Arr1 reals [0%R]) 1 "gaussian")
           2 2 [1; 0; 0; 1]%R [1; 2]%R [1; 3]%R [0; 0]%R [0%R] "linSquaredErr"
           [1; 2; 3]%R 1%R);
    try reflexivity; try (cbn; discriminate).
  exact R1_neq_R0.
Defined.
(** ** One layer of several units, identity activation, squared error *)

Section Grids.
Context {N : Numeric}.
Local Abbreviation zero := (of_Z N 0).

Lemma grid_length (n k : nat) (f : nat -> nat -> F N) : length (grid n k f) = n * k.
Proof.
  unfold grid. rewrite (flat_map_length_const _ k), length_seq; [reflexivity | ].
  intros i _. now rewrite length_map, length_seq.
Qed.

Lemma nth_map_seq (f : nat -> F N) (k b : nat) :
  b < k -> nth b (map f (seq 0 k)) zero = f b.
Proof.
  intros Hb. rewrite (nth_indep _ zero (f 0)) by now rewrite length_map, length_seq.
  rewrite (map_nth f (seq 0 k) 0 b), seq_nth by exact Hb. reflexivity.
Qed.

Lemma row_grid (n k : nat) (f : nat -> nat -> F N) (i : nat) :
  i < n -> row k (grid n k f) i = map (f i) (seq 0 k).
Proof.
  intros Hi. unfold grid.
  apply (row_flat_map (fun i => map (f i) (seq 0 k)) k n i); [ | exact Hi].
  intros j _. now rewrite length_map, length_seq.
Qed.

Lemma entry_grid (n k : nat) (f : nat -> nat -> F N) (i b : nat) :
  i < n -> b < k -> entry k (grid n k f) i b = f i b.
Proof.
  intros Hi Hb. unfold grid.
  rewrite (entry_flat_map (fun i => map (f i) (seq 0 k)) k n i b); auto.
  - now apply nth_map_seq.
  - intros j _. now rewrite length_map, length_seq.
Qed.

Lemma col_grid (n k : nat) (f : nat -> nat -> F N) (b : nat) :
  b < k -> col n k (grid n k f) b = map (fun i => f i b) (seq 0 n).
Proof.
  intros Hb. unfold col. apply map_ext_in. intros i Hi. apply in_seq in Hi.
  apply entry_grid; [lia | exact Hb].
Qed.

Lemma grid_ext (n k : nat) (f g : nat -> nat -> F N) :
  (forall i b, i < n -> b < k -> f i b = g i b) -> grid n k f = grid n k g.
Proof.
  intros H. unfold grid. apply flat_map_ext_in. intros i Hi. apply in_seq in Hi.
  apply map_ext_in. intros b Hb. apply in_seq in Hb. apply H; lia.
Qed.

Lemma grid_of_entries (n k : nat) (xs : list (F N)) :
  length xs = n * k -> xs = grid n k (entry k xs).
Proof.
  intros Hxs. apply (nth_ext _ _ zero zero); [now rewrite grid_length | ].
  intros j Hj. rewrite Hxs in Hj.
  assert (Hk : 0 < k) by nia.
  pose proof (Nat.div_mod_eq j k) as Hdm.
  pose proof (Nat.mod_upper_bound j k ltac:(lia)) as Hmod.
  assert (Hi : j / k < n) by (apply Nat.Div0.div_lt_upper_bound; lia).
  pose proof (entry_grid n k (entry k xs) (j / k) (j mod k) Hi Hmod) as He.
  unfold entry at 1 in He.
  replace (j / k * k + j mod k) with j in He by lia.
  rewrite He. unfold entry. f_equal. lia.
Qed.

Lemma map_grid (g : F N -> F N) (n k : nat) (f : nat -> nat -> F N) :
  map g (grid n k f) = grid n k (fun i b => g (f i b)).
Proof.
  unfold grid. induction (seq 0 n) as [ | i l IH]; [reflexivity | ].
  cbn [flat_map]. now rewrite map_app, map_map, IH.
Qed.

Lemma map2_app (op : F N -> F N -> F N) (a : list (F N)) : forall b a' b',
  length a = length b -> map2 op (a ++ a') (b ++ b') = map2 op a b ++ map2 op a' b'.
Proof.
  induction a as [ | x a IH]; intros [ | y b] a' b' Hlen; simpl in Hlen; try lia.
  - reflexivity.
  - cbn [app map2]. f_equal. apply IH. lia.
Qed.

Lemma map2_grid (op : F N -> F N -> F N) (n k : nat) (f g : nat -> nat -> F N) :
  map2 op (grid n k f) (grid n k g) = grid n k (fun i b => op (f i b) (g i b)).
Proof.
  unfold grid. induction (seq 0 n) as [ | i l IH]; [reflexivity | ].
  cbn [flat_map]. rewrite map2_app by now rewrite !length_map.
  now rewrite map2_maps, IH.
Qed.

Lemma map2_grid_buffer (op : F N -> F N -> F N) (n k : nat) (f : nat -> nat -> F N)
    (ts : list (F N)) :
  length ts = n * k ->
  map2 op (grid n k f) ts = grid n k (fun i b => op (f i b) (entry k ts i b)).
Proof.
  intros Hts. rewrite (grid_of_entries n k ts Hts) at 1. apply map2_grid.
Qed.
End Grids.

Section OneLayerUnits.
Context {N : Numeric} {A : Activation N}.
Local Abbreviation zero := (of_Z N 0).
Local Abbreviation one := (of_Z N 1).

Variables (l : Layer N) (n d k : nat) (xs ts ws0 bs0 : list (F N)) (c : F N).
Hypothesis Hexact : forall x : F N, fsingle N x = x.
Hypothesis HW : W l = Arr2 d k ws0.
Hypothesis Hb : hbias l = Arr1 bs0.
Hypothesis Hbs : length bs0 = k.
Hypothesis Hk : n_hidden l = k.
Hypothesis Htype : String.eqb (hidtype l) "sigmoid" = false.
Hypothesis Hxs : length xs = n * d.
Hypothesis Hts : length ts = n * k.

Local Abbreviation output_of := (layer_output d k xs).
Local Abbreviation error_of := (layer_error d k xs ts c).
Local Abbreviation input_of := (augmented_entry d xs).

Lemma unflatten_one_layer (v : vec N) :
  length v = d * k + k ->
  unflatten v [l]
  = Ok [MkLayer (Arr2 d k (firstn (d * k) v)) (Arr1 (skipn (d * k) v)) k (hidtype l)].
Proof.
  intros Hv. unfold unflatten. cbn [unflatten_from]. unfold unflatten_layer.
  rewrite HW, Hb. cbn [shape2 len bind]. unfold reshape2. cbn [buffer bind].
  rewrite slice_length by lia. cbn [Nat.add]. rewrite Nat.sub_0_r.
  rewrite Nat.eqb_refl. cbn [bind]. rewrite Hbs, Hk.
  unfold slice at 1. cbn [skipn]. rewrite Nat.sub_0_r.
  rewrite (slice_to_the_end v (d * k) (d * k + k)) by lia.
  now rewrite !(garray_exact _ Hexact).
Qed.

Lemma affine_row_entries (v : vec N) (i : nat) :
  length v = d * k + k -> i < n ->
  affine_row d k (firstn (d * k) v) (skipn (d * k) v) xs i
  = map (output_of v i) (seq 0 k).
Proof.
  intros Hv Hi. unfold affine_row. apply map_ext_in. intros b Hb'. apply in_seq in Hb'.
  unfold layer_output. f_equal.
  - f_equal.
    assert (Hrow : length (row d xs i) = d) by (apply row_length; nia).
    rewrite <- (map_nth_seq (row d xs i)), Hrow. unfold col. rewrite map2_maps.
    apply map_ext_in. intros a Ha. apply in_seq in Ha. f_equal.
    + apply nth_row. lia.
    + unfold entry. rewrite nth_firstn.
      assert (Hlt : a * k + b < d * k) by nia.
      apply Nat.ltb_lt in Hlt. now rewrite Hlt.
  - apply nth_skipn.
Qed.

Lemma run_one_layer (v : vec N) :
  length v = d * k + k ->
  run_through_network (A:=A) (Arr2 n d xs)
    [MkLayer (Arr2 d k (firstn (d * k) v)) (Arr1 (skipn (d * k) v)) k (hidtype l)]
  = Ok (Arr2 n k (grid n k (output_of v))).
Proof.
  intros Hv. unfold run_through_network. cbn [for_each].
  rewrite (garray_exact _ Hexact).
  rewrite (get_activation_rows _ n d k xs (firstn (d * k) v) (skipn (d * k) v));
    try reflexivity.
  - cbn [bind]. do 2 f_equal. unfold grid.
    apply flat_map_ext_in. intros i Hi. apply in_seq in Hi.
    unfold out_row. cbn [hidtype]. rewrite Htype.
    apply affine_row_entries; [exact Hv | lia].
  - exact Hxs.
  - rewrite length_skipn. lia.
Qed.

(** The cost and the unscaled error signal. *)
Lemma output_error_one_layer (targetCost : string) (v : vec N) :
  String.eqb targetCost "crossEntropy" = false ->
  output_error (A:=A) targetCost n (Arr2 n k (grid n k (output_of v)))
    (Arr2 n k ts) (Arr1 (repeat c n))
  = Ok (fmul N (lit 1 2)
          (fsum (map (fun i =>
                        fmul N
                          (fsum (map (fun b =>
                                        fmul N
                                          (fsub N (output_of v i b) (entry k ts i b))
                                          (fsub N (output_of v i b) (entry k ts i b)))
                                   (seq 0 k)))
                          c)
                   (seq 0 n))),
        Arr2 n k (grid n k (fun i b => fsub N (output_of v i b) (entry k ts i b)))).
Proof.
  intros Htc. unfold output_error. rewrite Htc. unfold sub. cbn [ebinop].
  unfold broadcast2. rewrite !Nat.eqb_refl. cbn [andb bind].
  rewrite (map2_grid_buffer (fsub N) n k (output_of v) ts Hts).
  cbn [emap sum_axis1 bind]. rewrite map_grid.
  rewrite (map_ext_in
             (fun i => fsum (row k (grid n k _) i))
             (fun i => fsum (map (fun b =>
                                    fmul N (fsub N (output_of v i b) (entry k ts i b))
                                      (fsub N (output_of v i b) (entry k ts i b)))
                               (seq 0 k))));
    [ | intros i Hi; apply in_seq in Hi; rewrite row_grid by lia; reflexivity].
  unfold mul. cbn [ebinop]. unfold vbinop.
  rewrite length_map, length_seq, repeat_length, Nat.eqb_refl.
  cbn [bind sum_all].
  rewrite map2_repeat by (rewrite length_map, length_seq; lia).
  now rewrite map_map.
Qed.

Lemma scale_one_layer (v : vec N) :
  scale_by_weights
    (Arr2 n k (grid n k (fun i b => fsub N (output_of v i b) (entry k ts i b))))
    (Arr1 (repeat c n))
  = Ok (Arr2 n k (grid n k (error_of v))).
Proof.
  rewrite (scale_by_weights_1d n k _ (repeat c n) (repeat_length c n)).
  rewrite concat_repeat_repeat, map2_repeat by (rewrite grid_length; lia).
  now rewrite map_grid.
Qed.

Lemma delta_entry_grid (f : nat -> nat -> F N) (a b : nat) :
  b < k ->
  delta_entry n d k xs (grid n k f) a b
  = fsum (map (fun i => fmul N (input_of i a) (f i b)) (seq 0 n)).
Proof.
  intros Hb'. unfold delta_entry, augmented_column.
  rewrite col_grid by exact Hb'. now rewrite map2_maps.
Qed.

Lemma backprop_gradient_one_layer_units (targetCost : string) (v : vec N) :
  String.eqb targetCost "crossEntropy" = false -> length v = d * k + k ->
  exists cost grad,
    backprop_gradient (A:=A) targetCost [l] (Arr2 n d xs) (Arr2 n k ts)
      (Arr1 (repeat c n)) v = Ok (cost, grad) /\
    cost = fmul N (lit 1 2)
             (fsum (map (fun i =>
                           fmul N
                             (fsum (map (fun b =>
                                           fmul N
                                             (fsub N (output_of v i b) (entry k ts i b))
                                             (fsub N (output_of v i b) (entry k ts i b)))
                                      (seq 0 k)))
                             c)
                      (seq 0 n))) /\
    length grad = d * k + k /\
    (forall a b, a < d -> b < k ->
       nth (b * d + a) grad zero
       = fsum (map (fun i => fmul N (input_of i a) (error_of v i b)) (seq 0 n))) /\
    (forall b, b < k ->
       nth (d * k + b) grad zero
       = fsum (map (fun i => fmul N (input_of i d) (error_of v i b)) (seq 0 n))).
Proof.
  intros Htc Hv. do 2 eexists. split; [ | split; [reflexivity | ]].
  - apply (backprop_gradient_one_layer_value (A:=A) Hexact targetCost l n d k xs
             (grid n k (error_of v)) (Arr2 n k ts) (Arr1 (repeat c n)) v _ _ _ _
             Hxs Hv (unflatten_one_layer v Hv) (run_one_layer v Hv)
             (output_error_one_layer targetCost v Htc) (scale_one_layer v)).
    apply grid_length.
  - assert (Hlen : length (flat_map
                             (fun b => map (fun a => delta_entry n d k xs
                                                       (grid n k (error_of v)) a b)
                                         (seq 0 d)) (seq 0 k)) = k * d).
    { rewrite (flat_map_length_const _ d), length_seq; [reflexivity | ].
      intros b _. now rewrite length_map, length_seq. }
    split; [ | split].
    + rewrite length_app, Hlen, length_map, length_seq. lia.
    + intros a b Ha Hb'. rewrite app_nth1 by (rewrite Hlen; nia).
      pose proof (entry_grid k d
                    (fun b a => delta_entry n d k xs (grid n k (error_of v)) a b)
                    b a Hb' Ha) as He.
      transitivity (delta_entry n d k xs (grid n k (error_of v)) a b);
        [exact He | now apply delta_entry_grid].
    + intros b Hb'. rewrite app_nth2 by (rewrite Hlen; lia).
      rewrite Hlen. replace (d * k + b - k * d) with b by lia.
      rewrite nth_map_seq by exact Hb'. now apply delta_entry_grid.
Qed.
End OneLayerUnits.

(** ** In exact arithmetic the gradient for one layer is the gradient,
       with every block of weights transposed *)

Section ExactLayerGradient.
Local Open Scope R_scope.

Ltac to_reals := unfold vec in *; change (F reals) with R in *.
Ltac rring := to_reals; first [ring | symmetry; ring].

Lemma fsum_app (l l' : list R) :
  @eq R (fsum (N:=reals) (l ++ l')) (fsum (N:=reals) l + fsum (N:=reals) l').
Proof.
  induction l as [ | x l IH]; cbn [app]; rewrite ?fsum_nil, ?fsum_cons; [rring | ].
  rewrite IH. rring.
Qed.

Lemma fsum_map_plus {T : Type} (f g : T -> R) (l : list T) :
  @eq R (fsum (N:=reals) (map (fun i => f i + g i) l))
        (fsum (N:=reals) (map f l) + fsum (N:=reals) (map g l)).
Proof.
  induction l as [ | x l IH]; simpl map; rewrite ?fsum_nil, ?fsum_cons; [rring | ].
  rewrite IH. rring.
Qed.

(** A sum with one term. *)
Lemma fsum_indicator (f : nat -> R) (a : nat) : forall m : nat,
  @eq R (fsum (N:=reals) (map (fun a' => if Nat.eqb a' a then f a' else 0) (seq 0 m)))
        (if Nat.ltb a m then f a else 0).
Proof.
  induction m as [ | m IH]; [reflexivity | ].
  rewrite seq_S, map_app, fsum_app, IH. cbn [Nat.add map]. rewrite fsum_cons, fsum_nil.
  destruct (Nat.eqb_spec m a) as [-> | Hne].
  - rewrite Nat.ltb_irrefl. replace (a <? S a)%nat with true by (symmetry; apply Nat.ltb_lt; lia).
    rring.
  - destruct (Nat.ltb_spec a m) as [Hlt | Hge].
    + replace (a <? S m)%nat with true by (symmetry; apply Nat.ltb_lt; lia). rring.
    + replace (a <? S m)%nat with false by (symmetry; apply Nat.ltb_ge; lia). rring.
Qed.

Lemma index_eqb (k a b a' b' : nat) :
  (b < k)%nat -> (b' < k)%nat ->
  Nat.eqb (a * k + b) (a' * k + b') = Nat.eqb a' a && Nat.eqb b' b.
Proof.
  intros Hb Hb'.
  destruct (Nat.eqb_spec a' a) as [-> | Ha]; destruct (Nat.eqb_spec b' b) as [-> | Hbb];
    cbn [andb]; try (apply Nat.eqb_eq; lia); apply Nat.eqb_neq; try lia.
  - intros Heq. apply Ha.
    assert (H1 : ((a * k + b) / k = a)%nat)
      by (rewrite Nat.add_comm, Nat.div_add by lia; rewrite Nat.div_small by lia; lia).
    assert (H2 : ((a' * k + b) / k = a')%nat)
      by (rewrite Nat.add_comm, Nat.div_add by lia; rewrite Nat.div_small by lia; lia).
    congruence.
  - intros Heq. apply Hbb.
    assert (H1 : ((a * k + b) mod k = b)%nat)
      by (rewrite Nat.add_comm, Nat.Div0.mod_add; apply Nat.mod_small; lia).
    assert (H2 : ((a' * k + b') mod k = b')%nat)
      by (rewrite Nat.add_comm, Nat.Div0.mod_add; apply Nat.mod_small; lia).
    congruence.
Qed.

Section Layer.
Variables (A : Activation reals) (l : Layer reals) (n d k : nat).
Variables (xs ts ws0 bs0 : list R) (c : R).
Hypothesis HW : W l = @Arr2 reals d k ws0.
Hypothesis Hb : hbias l = @Arr1 reals bs0.
Hypothesis Hbs : length bs0 = k.
Hypothesis Hk : n_hidden l = k.
Hypothesis Htype : String.eqb (hidtype l) "sigmoid" = false.
Hypothesis Hxs : length xs = (n * d)%nat.
Hypothesis Hts : length ts = (n * k)%nat.

Lemma augmented_entry_cases (i a : nat) :
  (i < n)%nat -> (a <= d)%nat ->
  @eq R (@augmented_entry reals d xs i a)
        (if Nat.ltb a d then @entry reals d xs i a else 1).
Proof.
  intros Hi Ha. unfold augmented_entry.
  assert (Hrow : length (row (N:=reals) d xs i) = d) by (apply row_length; to_reals; nia).
  destruct (Nat.ltb_spec a d) as [Hlt | Hge].
  - rewrite <- (nth_row (N:=reals) d xs i a Hlt).
    apply app_nth1. rewrite Hrow. exact Hlt.
  - assert (a = d) by lia. subst a. apply nth_at_length, Hrow.
Qed.

(** Moving the weight from input [a] to unit [b], or for [a = d] the bias
    of unit [b], by [h] moves output [b] for sample [i] by [h] times input
    [a] of the sample, and no other output. *)
Lemma layer_output_bump (v : list R) (a b i b' : nat) (h : R) :
  length v = (d * k + k)%nat -> (i < n)%nat -> (a <= d)%nat -> (b < k)%nat -> (b' < k)%nat ->
  @eq R (@layer_output reals d k xs (@bump reals v (a * k + b) h) i b')
        (@layer_output reals d k xs v i b'
         + (if Nat.eqb b' b then @augmented_entry reals d xs i a else 0) * h).
Proof.
  intros Hv Hi Ha Hb0 Hb'. unfold layer_output.
  change (fadd reals) with Rplus. change (fmul reals) with Rmult.
  change (of_Z reals 0) with 0.
  rewrite (map_ext_in
             (fun a' => @entry reals d xs i a' * nth (a' * k + b') (@bump reals v (a * k + b) h) 0)
             (fun a' => @entry reals d xs i a' * nth (a' * k + b') v 0
                        + (if Nat.eqb a' a
                           then (if Nat.eqb b' b then @entry reals d xs i a' * h else 0)
                           else 0))).
  - rewrite (fsum_map_plus
               (fun a' => @entry reals d xs i a' * nth (a' * k + b') v 0)
               (fun a' => if Nat.eqb a' a
                          then (if Nat.eqb b' b then @entry reals d xs i a' * h else 0)
                          else 0)).
    rewrite (fsum_indicator
               (fun a' => if Nat.eqb b' b then @entry reals d xs i a' * h else 0) a d).
    rewrite nth_bump by (to_reals; nia).
    replace (d * k + b')%nat with (d * k + b')%nat by reflexivity.
    rewrite (index_eqb k a b d b' Hb0 Hb').
    rewrite (augmented_entry_cases i a Hi Ha).
    destruct (Nat.ltb_spec a d) as [Hlt | Hge]; destruct (Nat.eqb_spec b' b) as [-> | Hne].
    + replace (Nat.eqb d a) with false by (symmetry; apply Nat.eqb_neq; lia).
      cbn [andb]. rring.
    + replace (Nat.eqb d a) with false by (symmetry; apply Nat.eqb_neq; lia).
      cbn [andb]. rring.
    + replace (Nat.eqb d a) with true by (symmetry; apply Nat.eqb_eq; lia).
      cbn [andb]. rring.
    + replace (Nat.eqb d a) with true by (symmetry; apply Nat.eqb_eq; lia).
      cbn [andb]. rring.
  - intros a' Ha'. apply in_seq in Ha'.
    rewrite nth_bump by (to_reals; nia).
    rewrite (index_eqb k a b a' b' Hb0 Hb').
    destruct (Nat.eqb a' a); destruct (Nat.eqb b' b); cbn [andb]; rring.
Qed.

(** The central difference of the cost along the parameter of input [a]
    and unit [b]. *)
Lemma central_difference_one_layer (targetCost : string) (v : list R) (a b : nat) (h : R) :
  String.eqb targetCost "crossEntropy" = false ->
  length v = (d * k + k)%nat -> (a <= d)%nat -> (b < k)%nat -> h <> 0 ->
  central_difference
    (cost_of (A:=A) targetCost [l] (@Arr2 reals n d xs) (@Arr2 reals n k ts)
       (@Arr1 reals (repeat c n))) v (a * k + b) h
  = Ok (fsum (N:=reals)
          (map (fun i => @augmented_entry reals d xs i a
                         * @layer_error reals d k xs ts c v i b)
             (seq 0 n))).
Proof.
  intros Htc Hv Ha Hb0 Hh. unfold central_difference, cost_of.
  destruct (backprop_gradient_one_layer_units (A:=A) l n d k xs ts ws0 bs0 c
              (fun x : R => eq_refl)
              HW Hb Hbs Hk Htype Hxs Hts targetCost (@bump reals v (a * k + b) h) Htc)
    as (cp & gp & Ep & -> & _); [now rewrite bump_length | ].
  destruct (backprop_gradient_one_layer_units (A:=A) l n d k xs ts ws0 bs0 c
              (fun x : R => eq_refl)
              HW Hb Hbs Hk Htype Hxs Hts targetCost (@bump reals v (a * k + b) (- h)) Htc)
    as (cm & gm & Em & -> & _); [now rewrite bump_length | ].
  change (fneg reals h) with (- h). to_reals. rewrite Ep, Em. cbn [bind]. f_equal.
  change (fsub reals) with Rminus. change (fmul reals) with Rmult.
  change (fadd reals) with Rplus. change (fdiv reals) with Rdiv.
  change (of_Z reals) with IZR.
  change (@lit reals 1 2) with (1 / 2).
  rewrite <- Rmult_minus_distr_l, fsum_map_minus.
  rewrite (map_ext_in _
             (fun i => (4 * h) * (@augmented_entry reals d xs i a
                                  * @layer_error reals d k xs ts c v i b))).
  - rewrite <- fsum_map_scale. to_reals. field. exact Hh.
  - intros i Hi. apply in_seq in Hi.
    rewrite <- Rmult_minus_distr_r, fsum_map_minus.
    rewrite (map_ext_in _
               (fun b' => if Nat.eqb b' b
                          then 4 * h * @augmented_entry reals d xs i a
                               * (@layer_output reals d k xs v i b' - @entry reals k ts i b')
                          else 0)).
    + rewrite (fsum_indicator
                 (fun b' => 4 * h * @augmented_entry reals d xs i a
                            * (@layer_output reals d k xs v i b' - @entry reals k ts i b'))
                 b k).
      replace (Nat.ltb b k) with true by (symmetry; apply Nat.ltb_lt; exact Hb0).
      unfold layer_error.
      change (fsub reals) with Rminus. change (fmul reals) with Rmult. rring.
    + intros b' Hb'. apply in_seq in Hb'.
      rewrite !layer_output_bump by (assumption || lia).
      destruct (Nat.eqb b' b); rring.
Qed.
End Layer.
End ExactLayerGradient.

(** X20: a network of one layer of [k] units on inputs of width [d], without
    activation function, with the squared-error cost and the same weight
    [c] for every sample, in exact arithmetic: [backprop_gradient] returns
    the cost and a vector of the length of [v].  The central difference of
    that cost along the weight from input [a] to unit [b], which [v] holds
    at index [a * k + b], is the entry of the returned vector at index
    [b * d + a]: the block of weights comes back transposed, so the vector
    is the gradient in the layout of [v] only when [d] or [k] is 1.  The
    central difference along the bias of unit [b] is the entry at the
    index of that bias, [d * k + b]. *)
Theorem backprop_gradient_exact_up_to_transposition (A : Activation reals)
    (l : Layer reals) (n d k : nat) (xs ts ws0 bs0 : list R) (c : R)
    (targetCost : string) (v : list R) (h : R) :
  W l = @Arr2 reals d k ws0 -> hbias l = @Arr1 reals bs0 -> length bs0 = k ->
  n_hidden l = k ->
  hidtype l <> "sigmoid"%string -> targetCost <> "crossEntropy"%string ->
  length xs = n * d -> length ts = n * k -> length v = d * k + k ->
  h <> 0%R ->
  exists cost grad,
    backprop_gradient (A:=A) targetCost [l] (@Arr2 reals n d xs) (@Arr2 reals n k ts)
      (@Arr1 reals (repeat c n)) v = Ok (cost, grad) /\
    length grad = d * k + k /\
    (forall a b, a < d -> b < k ->
       central_difference
         (cost_of (A:=A) targetCost [l] (@Arr2 reals n d xs) (@Arr2 reals n k ts)
            (@Arr1 reals (repeat c n))) v (a * k + b) h
       = Ok (nth (b * d + a) grad 0%R)) /\
    (forall b, b < k ->
       central_difference
         (cost_of (A:=A) targetCost [l] (@Arr2 reals n d xs) (@Arr2 reals n k ts)
            (@Arr1 reals (repeat c n))) v (d * k + b) h
       = Ok (nth (d * k + b) grad 0%R)).
Proof.
  intros HW Hb Hbs Hk Htype Htc Hxs Hts Hv Hh.
  apply String.eqb_neq in Htype, Htc.
  destruct (backprop_gradient_one_layer_units (A:=A) l n d k xs ts ws0 bs0 c
              (fun x : R => eq_refl)
              HW Hb Hbs Hk Htype Hxs Hts targetCost v Htc Hv)
    as (cost & grad & E & _ & Hlen & Hweights & Hbiases).
  exists cost, grad. split; [exact E | split; [exact Hlen | split]].
  - intros a b Ha Hb'.
    rewrite (central_difference_one_layer A l n d k xs ts ws0 bs0 c
               HW Hb Hbs Hk Htype Hxs Hts targetCost v a b h Htc Hv
               (Nat.lt_le_incl _ _ Ha) Hb' Hh).
    f_equal. symmetry. exact (Hweights a b Ha Hb').
  - intros b Hb'.
    rewrite (central_difference_one_layer A l n d k xs ts ws0 bs0 c
               HW Hb Hbs Hk Htype Hxs Hts targetCost v d b h Htc Hv
               (Nat.le_refl d) Hb' Hh).
    f_equal. symmetry. exact (Hbiases b Hb').
Qed.

Lemma backprop_gradient_exact_up_to_transposition_witness :
  exists cost grad,
    backprop_gradient (A:=sigmoid) "linSquaredErr"
      [MkLayer (@Arr2 reals 2 2 (repeat 0%R 4)) (@Arr1 reals (repeat 0%R 2)) 2 "gaussian"]
      (@Arr2 reals 1 2 [1; 0]%R) (@Arr2 reals 1 2 [1; 2]%R)
      (@Arr1 reals (repeat 1%R 1)) (repeat 0%R 6) = Ok (cost, grad) /\
    length grad = 2 * 2 + 2 /\
    (forall a b, a < 2 -> b < 2 ->
       central_difference
         (cost_of (A:=sigmoid) "linSquaredErr"
            [MkLayer (@Arr2 reals 2 2 (repeat 0%R 4)) (@Arr1 reals (repeat 0%R 2)) 2
               "gaussian"]
            (@Arr2 reals 1 2 [1; 0]%R) (@Arr2 reals 1 2 [1; 2]%R)
            (@Arr1 reals (repeat 1%R 1))) (repeat 0%R 6) (a * 2 + b) 1%R
       = Ok (nth (b * 2 + a) grad 0%R)) /\
    (forall b, b < 2 ->
       central_difference
         (cost_of (A:=sigmoid) "linSquaredErr"
            [MkLayer (@Arr2 reals 2 2 (repeat 0%R 4)) (@Arr1 reals (repeat 0%R 2)) 2
               "gaussian"]
            (@Arr2 reals 1 2 [1; 0]%R) (@Arr2 reals 1 2 [1; 2]%R)
            (@Arr1 reals (repeat 1%R 1))) (repeat 0%R 6) (2 * 2 + b) 1%R
       = Ok (nth (2 * 2 + b) grad 0%R)).
Proof.
  apply (backprop_gradient_exact_up_to_transposition sigmoid
           (MkLayer (@Arr2 reals 2 2 (repeat 0%R 4)) (@Arr1 reals (repeat 0%R 2)) 2
              "gaussian")
           1 2 2 [1; 0]%R [1; 2]%R (repeat 0%R 4) (repeat 0%R 2) 1%R "linSquaredErr"
           (repeat 0%R 6) 1%R);
    try reflexivity; try (cbn; discriminate).
  exact R1_neq_R0.
Defined.

(** ** The batches of an epoch, whatever the number of samples *)

Lemma batches_entries (n : nat) (b : nat * nat) :
  In b (batches n) <->
  exists k, k < (n + 127) / 128 /\ b = (k * 128, batchend n (k * 128)).
Proof.
  unfold batches, py_range, batch_size. rewrite Nat.sub_0_r. change (128 - 1) with 127.
  rewrite map_map, in_map_iff. split.
  - intros (k & <- & Hk). apply in_seq in Hk. exists k. split; [lia | reflexivity].
  - intros (k & Hk & ->). exists k. split; [reflexivity | ]. apply in_seq. lia.
Qed.

(** X21: the loop of [doBackprop] makes one batch for every 128 samples
    begun; no batch is empty or runs past the end, a batch has 128 rows
    unless it runs to the end, where it has fewer than 256; and every
    sample position is in a batch. *)
Theorem batches_cover_the_samples (n : nat) :
  length (batches n) = (n + 127) / 128 /\
  (forall b, In b (batches n) ->
     fst b < snd b <= n /\
     (snd b - fst b = 128 \/ (snd b = n /\ snd b - fst b < 256))) /\
  (forall i, i < n -> exists b, In b (batches n) /\ fst b <= i < snd b).
Proof.
  pose proof (Nat.div_mod_eq (n + 127) 128) as Hdm.
  assert (Hmod : (n + 127) mod 128 < 128) by (apply Nat.mod_upper_bound; lia).
  split; [ | split].
  - unfold batches. rewrite length_map. apply py_range_length.
  - intros b Hb. apply batches_entries in Hb as (k & Hk & ->).
    unfold batchend, batch_size. cbn [fst snd].
    destruct (Nat.ltb_spec n (k * 128 + 2 * 128)); lia.
  - intros i Hi. pose proof (Nat.div_mod_eq i 128) as Hi'.
    assert (Himod : i mod 128 < 128) by (apply Nat.mod_upper_bound; lia).
    exists (i / 128 * 128, batchend n (i / 128 * 128)). split.
    + apply batches_entries. exists (i / 128). split; [ | reflexivity].
      apply Nat.Div0.div_lt_upper_bound; lia.
    + unfold batchend, batch_size. cbn [fst snd].
      destruct (Nat.ltb_spec n (i / 128 * 128 + 2 * 128)); lia.
Qed.

Lemma batches_cover_the_samples_witness :
  exists b, In b (batches 300) /\ fst b <= 299 < snd b.
Proof. apply (batches_cover_the_samples 300). lia. Defined.

(** ** [train] without an iteration *)

Section TrainReports.
Context {N : Numeric} {A : Activation N}.

Lemma forallb_below (n : nat) (idx : list nat) :
  Forall (fun i => i < n) idx -> forallb (fun i => Nat.ltb i n) idx = true.
Proof.
  intros H. apply forallb_forall. intros i Hi. apply Nat.ltb_lt.
  now apply (proj1 (Forall_forall _ _) H).
Qed.

Lemma Forall_slice {T : Type} (P : T -> Prop) (l : list T) (s e : nat) :
  Forall P l -> Forall P (slice l s e).
Proof.
  intros H. unfold slice.
  assert (Hskip : forall (l : list T) s, Forall P l -> Forall P (skipn s l)).
  { clear. intros l s H. revert s. induction H; intros [ | s]; simpl; auto. }
  assert (Hfirst : forall (l : list T) n, Forall P l -> Forall P (firstn n l)).
  { clear. intros l n H. revert n. induction H; intros [ | n]; simpl; auto. }
  auto.
Qed.

Lemma take_rows_below (n m : nat) (xs : list (F N)) (idx : list nat) :
  length xs = n * m -> Forall (fun i => i < n) idx ->
  take_rows (Arr2 n m xs) idx = Ok (Arr2 (length idx) m (flat_map (row m xs) idx)) /\
  length (flat_map (row m xs) idx) = length idx * m.
Proof.
  intros Hxs Hidx. unfold take_rows. rewrite (forallb_below n idx Hidx). split; [reflexivity | ].
  apply flat_map_length_const. intros i Hi. apply row_length.
  apply (proj1 (Forall_forall _ _) Hidx) in Hi. nia.
Qed.

Lemma report_classification (net : list (Layer N)) (n m d' k : nat)
    (xs ts : list (F N)) (tinds : list nat) :
  chained m net d' -> 0 < d' -> 0 < k ->
  length xs = n * m -> length ts = n * k -> Forall (fun i => i < n) tinds ->
  report (A:=A) "classification" net (Arr2 n m xs) (Arr2 n k ts) (ones1 n) tinds None
  = Ok tt.
Proof.
  intros Hnet Hd' Hk Hxs Hts Hidx. unfold report.
  destruct (take_rows_below n m xs tinds Hxs Hidx) as [-> HdX].
  destruct (take_rows_below n k ts tinds Hts Hidx) as [-> HdT]. cbn [bind].
  unfold take, ones1. rewrite repeat_length, (forallb_below n tinds Hidx). cbn [bind].
  destruct (getError_classification_value (A:=A) net (length tinds) m d' k
              (flat_map (row m xs) tinds) (flat_map (row k ts) tinds)
              (map (fun i => nth i (repeat (of_Z N 1) n) (of_Z N 0)) tinds)
              Hnet Hd' Hk HdX HdT) as (ys & _ & ->).
  { apply length_map. }
  reflexivity.
Qed.

Lemma numunits_returns (net : list (Layer N)) : forall d d' numunits,
  chained d net d' ->
  exists total,
    for_each net
      (fun layer numunits =>
         bind (shape1 (W layer))
           (fun a => bind (shape0 (hbias layer)) (fun b => Ok (numunits + a + b))))
      numunits = Ok total.
Proof.
  induction net as [ | l net IH]; intros d d' numunits H; simpl in *; [eauto | ].
  destruct H as (k & ws & bs & -> & _ & -> & _ & _ & Hrest). cbn [shape1 shape0 bind].
  eauto.
Qed.
End TrainReports.

(** X22: with [max_iter = 0], well-formed data and targets and a shuffle
    that returns positions of the data, [train] measures the classification
    error once and returns; the network is left as it was. *)
Theorem train_without_iterations (N : Numeric) (A : Activation N)
    (shuffle : nat -> list nat -> list nat) (network : list (Layer N))
    (n m d' k : nat) (xs ts : list (F N)) (targetCost : string) :
  chained m network d' -> 0 < d' -> 0 < k ->
  length xs = n * m -> length ts = n * k ->
  Forall (fun i => i < n) (shuffle 0 (range n)) ->
  train (A:=A) shuffle network (Arr2 n m xs) (Arr2 n k ts) None 0
    "classification" targetCost
  = Ok network.
Proof.
  intros Hnet Hd' Hk Hxs Hts Hsh. unfold train. cbn [shape2 bind].
  destruct (numunits_returns network m d' 0 Hnet) as (total & ->).
  cbn [bind range seq for_each].
  rewrite (report_classification (A:=A) network n m d' k xs ts _ Hnet Hd' Hk Hxs Hts).
  - reflexivity.
  - now apply Forall_slice.
Qed.

Lemma train_without_iterations_witness :
  train (A:=sigmoid) (fun _ index => index) [sigmoid_layer] (@Arr2 reals 300 2 batch300)
    (@Arr2 reals 300 1 (repeat 0%R 300)) None 0 "classification" "crossEntropy"
  = Ok [sigmoid_layer].
Proof.
  apply (train_without_iterations reals sigmoid (fun _ index => index) [sigmoid_layer]
           300 2 2 1 batch300 (repeat 0%R 300) "crossEntropy").
  - simpl. do 3 eexists. repeat split.
  - lia.
  - lia.
  - reflexivity.
  - reflexivity.
  - apply Forall_forall. intros i Hi. apply in_seq in Hi. lia.
Defined.

(** ** [NeuralNet.__init__] and [demo_xor] *)

Section ConstructionFacts.
Context {N : Numeric} {A : Activation N}.

Lemma chained_snoc (net : list (Layer N)) (l : Layer N) (d d' k : nat)
    (ws bs : list (F N)) :
  chained d net d' ->
  W l = Arr2 d' k ws -> length ws = d' * k -> hbias l = Arr1 bs -> length bs = k ->
  n_hidden l = k ->
  chained d (net ++ [l]) k.
Proof.
  intros Hnet HW Hws Hb Hbs Hk. apply (chained_app net [l] d d' k Hnet).
  simpl. exists k, ws, bs. auto 10.
Qed.

Lemma last_is_nth {T : Type} (l : list T) (x : T) :
  last l x = nth (length l - 1) l x.
Proof.
  induction l as [ | y l IH]; [reflexivity | ].
  destruct l as [ | z l]; [reflexivity | ].
  change (last (y :: z :: l) x) with (last (z :: l) x). rewrite IH.
  simpl. now rewrite Nat.sub_0_r.
Qed.

(** The layers built from the first [m + 1] sizes. *)
Lemma random_layers (draws : nat -> F N) (sizes : list nat) (types : list string) :
  forall m, m < length sizes ->
    exists layers pos,
      fold_left (fun st i => random_layer draws sizes types i st) (seq 0 m) ([], 0)
      = (layers, pos) /\
      length layers = m /\
      chained (nth 0 sizes 0) layers (nth m sizes 0) /\
      forall i, i < m ->
        exists ws, nth_error layers i
                   = Some (MkLayer
                             (Arr2 (nth i sizes 0) (nth (S i) sizes 0)
                                (map (fsingle N) ws))
                             (Arr1 (repeat
                                      (fsingle N (fmul N (fneg N (lit 4 10)) (of_Z N 1)))
                                      (nth (S i) sizes 0)))
                             (nth (S i) sizes 0) (nth (S i) types ""%string)).
Proof.
  induction m as [ | m IH]; intros Hm.
  - exists [], 0. simpl. repeat split. intros i Hi. lia.
  - destruct IH as (layers & pos & E & Hlen & Hch & Hnth); [lia | ].
    rewrite seq_S, fold_left_app, E. cbn [Nat.add fold_left random_layer].
    replace (m + 1) with (S m) by lia.
    eexists _, _. split; [reflexivity | ]. split; [rewrite length_app; simpl; lia | ].
    split.
    + eapply chained_snoc; [exact Hch | reflexivity | | reflexivity | | reflexivity].
      * now rewrite !length_map, length_seq.
      * now rewrite !length_map, repeat_length.
    + intros i Hi. destruct (Nat.eq_dec i m) as [-> | Hne].
      * rewrite nth_error_app2, Hlen, Nat.sub_diag by lia. cbn [nth_error].
        unfold Layer_init, garray, randn, ones1, emap.
        rewrite !map_repeat. eexists. reflexivity.
      * rewrite nth_error_app1 by lia. apply Hnth. lia.
Qed.
End ConstructionFacts.

(** X23: [NeuralNet(layer_sizes=..., layer_types=...)] fails its assertion
    exactly when the two lists differ in length.  Otherwise it builds one
    layer less than there are sizes, dimensionally consistent from the first
    size to the last; layer [i] has a [sizes[i]] by [sizes[i+1]] weight
    matrix of single-precision values, biases that are all [-0.4 * 1.0]
    in single precision, and the type [types[i+1]]: the first type is not
    read.  A pre-trained network is taken layer by layer, whatever sizes
    and types are given with it, its arrays put on the device: as it is
    when they are device arrays already, rounded to single precision
    otherwise. *)
Theorem NeuralNet_init_builds (N : Numeric) (draws : nat -> F N) (sizes : list nat)
    (types : list string) :
  (NeuralNet_init draws None (Some sizes) (Some types) = AssertionError
   <-> length sizes <> length types) /\
  (length sizes = length types ->
   exists network,
     NeuralNet_init draws None (Some sizes) (Some types) = Passed network /\
     length network = length sizes - 1 /\
     chained (hd 0 sizes) network (last sizes 0) /\
     forall i, i < length sizes - 1 ->
       exists ws, nth_error network i
                  = Some (MkLayer
                            (Arr2 (nth i sizes 0) (nth (S i) sizes 0)
                               (map (fsingle N) ws))
                            (Arr1 (repeat
                                     (fsingle N (fmul N (fneg N (lit 4 10)) (of_Z N 1)))
                                     (nth (S i) sizes 0)))
                            (nth (S i) sizes 0) (nth (S i) types ""%string))) /\
  (forall (network : list (Layer N)) layer_sizes layer_types,
      NeuralNet_init draws (Some network) layer_sizes layer_types
      = Passed (map (fun rbm => MkLayer (emap (fsingle N) (W rbm))
                                  (emap (fsingle N) (hbias rbm))
                                  (n_hidden rbm) (hidtype rbm))
                  network) /\
      (Forall device_layer network ->
       NeuralNet_init draws (Some network) layer_sizes layer_types = Passed network)).
Proof.
  split; [ | split].
  - unfold NeuralNet_init. destruct (Nat.eqb_spec (length sizes) (length types)).
    + split; [discriminate | tauto].
    + split; [tauto | reflexivity].
  - intros Hlen. unfold NeuralNet_init. rewrite Hlen, Nat.eqb_refl, <- Hlen.
    destruct sizes as [ | d sizes].
    + exists []. simpl. repeat split. intros i Hi. lia.
    + destruct (random_layers draws (d :: sizes) types (length (d :: sizes) - 1))
        as (layers & pos & E & Hl & Hch & Hnth); [simpl; lia | ].
      unfold range. rewrite E. exists layers. split; [reflexivity | ].
      split; [exact Hl | ]. split; [ | exact Hnth].
      now rewrite last_is_nth.
  - intros network layer_sizes layer_types. split; [reflexivity | ].
    intros Hdev. unfold NeuralNet_init, Layer_init. f_equal.
    rewrite <- (map_id network) at 2. apply map_ext_in. intros rbm Hin.
    rewrite Forall_forall in Hdev. destruct (Hdev rbm Hin) as [HW Hb].
    rewrite HW, Hb. now destruct rbm.
Qed.

Lemma NeuralNet_init_builds_witness :
  exists network,
    NeuralNet_init (fun i => of_Z float64 (Z.of_nat i)) None (Some [2; 2; 1])
      (Some ["sigmoid"; "sigmoid"; "sigmoid"]%string) = Passed network /\
    length network = length [2; 2; 1] - 1 /\
    chained (hd 0 [2; 2; 1]) network (last [2; 2; 1] 0) /\
    forall i, i < length [2; 2; 1] - 1 ->
      exists ws, nth_error network i
                 = Some (MkLayer
                           (@Arr2 float64 (nth i [2; 2; 1] 0) (nth (S i) [2; 2; 1] 0)
                              (map (fsingle float64) ws))
                           (@Arr1 float64
                              (repeat (-0x1.99999ap-2)%float (nth (S i) [2; 2; 1] 0)))
                           (nth (S i) [2; 2; 1] 0)
                           (nth (S i) ["sigmoid"; "sigmoid"; "sigmoid"]%string ""%string)).
Proof.
  apply (NeuralNet_init_builds float64 (fun i => of_Z float64 (Z.of_nat i)) [2; 2; 1]
           ["sigmoid"; "sigmoid"; "sigmoid"]%string).
  reflexivity.
Defined.

(** X24: [demo_xor] builds its network and then raises in the first
    iteration of [train], whatever the random weights and the shuffles: it
    never prints the output of the trained network. *)
Theorem demo_xor_raises (N : Numeric) (A : Activation N) (draws : nat -> F N)
    (shuffle : nat -> list nat -> list nat) :
  exists e, demo_xor (A:=A) draws shuffle = Passed (Raise e).
Proof.
  unfold demo_xor. cbv beta iota delta [NeuralNet_init length Nat.eqb].
  destruct (train_raises (A:=A) shuffle
              (fst (fold_left
                      (fun st i => random_layer draws [2; 2; 1]
                                     ["sigmoid"; "sigmoid"; "sigmoid"]%string i st)
                      (range (3 - 1)) ([], 0)))
              3 2 (map (of_Z N) [0; 0; 0; 1; 1; 0; 1; 1]%Z) xor_targets None 9
              "classification" "crossEntropy") as (e & He).
  exists e. unfold xor_data. cbn [length Nat.sub] in *. rewrite He. reflexivity.
Qed.

